(** * VouchAI event bus: a shallow embedding of [EventBus.ts]

    The file-based publish/subscribe bus of [src/communication/EventBus.ts]
    is embedded as state-passing functions over a model of the two
    directories it works on.  Asynchronous functions are embedded as
    computations in a state-and-exception monad: every [await] is a
    sequencing point, [try]/[catch] is [try_catch], a rejected promise is
    [Throw]. *)

From Stdlib Require Import String Ascii List ZArith Bool Arith Lia.
From Stdlib Require Import Permutation Sorted.
Import ListNotations.
Local Open Scope string_scope.
Local Open Scope list_scope.

(** ** events.ts: the data model *)

Inductive EventType : Type :=
  | JOB_CREATED | JOB_ACCEPTED | WORK_SUBMITTED | WORK_APPROVED
  | DISPUTE_FILED | ARBITRATION_COMPLETE | PAYMENT_RELEASED.

Inductive AgentType : Type := hiring | worker | arbitrator.

Inductive EventStatus : Type := pending | processed.

(** Values of the open [payload: Record<string, any>] mapping. *)
#[local] Unset Elimination Schemes.
Inductive JsonValue : Type :=
  | JNull
  | JBool (b : bool)
  | JNumber (n : Z)
  | JString (s : string)
  | JArray (items : list JsonValue)
  | JObject (fields : list (string * JsonValue)).
#[local] Set Elimination Schemes.

(** What a resource read back from disk can hold under the key
    [processedBy].  The interface declares [string[]], but [JSON.parse]
    checks nothing: the field can be an array, a string (which has
    [includes] but no [push]), or something else.  [PBMissing] is the
    absent field and the falsy values that are not strings ([null], [0],
    [false]): [!event.processedBy] holds of them.  [PBOther] is any other
    value that is neither an array nor a string (a number, [true], an
    object): it is truthy and has no [includes] method. *)
Inductive ProcessedBy : Type :=
  | PBArray (ids : list string)
  | PBString (s : string)
  | PBMissing
  | PBOther.

(** [interface BaseEvent].  [id = ""] is the falsy id that [publish]
    replaces; [timestamp] is the ISO text identified with the number
    [new Date(timestamp).getTime()] yields, [None] when the text is empty
    or missing (falsy in [publish], [NaN] in the sort comparator);
    [status = None] is the missing status. *)
Record BaseEvent : Type := mkEvent {
  id : string;
  type : EventType;
  timestamp : option Z;
  sourceAgent : AgentType;
  targetAgent : option AgentType;
  payload : list (string * JsonValue);
  processedBy : ProcessedBy;
  status : option EventStatus
}.

Definition setId (v : string) (e : BaseEvent) : BaseEvent :=
  mkEvent v (type e) (timestamp e) (sourceAgent e) (targetAgent e)
          (payload e) (processedBy e) (status e).
Definition setTimestamp (v : option Z) (e : BaseEvent) : BaseEvent :=
  mkEvent (id e) (type e) v (sourceAgent e) (targetAgent e)
          (payload e) (processedBy e) (status e).
Definition setProcessedBy (v : ProcessedBy) (e : BaseEvent) : BaseEvent :=
  mkEvent (id e) (type e) (timestamp e) (sourceAgent e) (targetAgent e)
          (payload e) v (status e).
Definition setStatus (v : option EventStatus) (e : BaseEvent) : BaseEvent :=
  mkEvent (id e) (type e) (timestamp e) (sourceAgent e) (targetAgent e)
          (payload e) (processedBy e) v.

Definition EventType_eqb (a b : EventType) : bool :=
  match a, b with
  | JOB_CREATED, JOB_CREATED | JOB_ACCEPTED, JOB_ACCEPTED
  | WORK_SUBMITTED, WORK_SUBMITTED | WORK_APPROVED, WORK_APPROVED
  | DISPUTE_FILED, DISPUTE_FILED
  | ARBITRATION_COMPLETE, ARBITRATION_COMPLETE
  | PAYMENT_RELEASED, PAYMENT_RELEASED => true
  | _, _ => false
  end.

(** ** The store: two directories of named resources *)

(** The text of a file, up to what [JSON.parse] makes of it: [Text raw] is
    text the parser rejects, [Json e] is the text [JSON.stringify] writes
    for [e] (and any other text that parses to it). *)
Inductive Content : Type :=
  | Text (raw : string)
  | Json (e : BaseEvent).

(** A directory lists its entries in the order [readdir] reports them. *)
Definition Dir : Type := list (string * Content).

Fixpoint lookup (name : string) (d : Dir) : option Content :=
  match d with
  | [] => None
  | (n, c) :: rest => if String.eqb name n then Some c else lookup name rest
  end.

Definition remove (name : string) (d : Dir) : Dir :=
  filter (fun entry => negb (String.eqb name (fst entry))) d.

(** Writing a name replaces its entry.  The order of a listing is not
    specified; here a written entry is listed last. *)
Definition write (name : string) (c : Content) (d : Dir) : Dir :=
  remove name d ++ [(name, c)].

(** [pending_files] and [processed_files] are [None] while the directory
    does not exist; [can_mkdir] says whether the process may create
    directories under the marketplace root (permissions, disk). *)
Record FS : Type := mkFS {
  can_mkdir : bool;
  events_exists : bool;
  pending_files : option Dir;
  processed_files : option Dir
}.

Inductive Loc : Type := EventsDir | PendingDir | ProcessedDir.

Definition dirOf (l : Loc) (f : FS) : option Dir :=
  match l with
  | EventsDir => None
  | PendingDir => pending_files f
  | ProcessedDir => processed_files f
  end.

Definition setDir (l : Loc) (d : Dir) (f : FS) : FS :=
  match l with
  | EventsDir => f
  | PendingDir => mkFS (can_mkdir f) (events_exists f) (Some d) (processed_files f)
  | ProcessedDir => mkFS (can_mkdir f) (events_exists f) (pending_files f) (Some d)
  end.

(** ** Exceptions, observations and the monad *)

Inductive Err : Type :=
  | ENOENT | EACCES | SyntaxError | TypeError
  | Error (message : string).

Inductive Res (A : Type) : Type :=
  | Ok (a : A)
  | Throw (e : Err).
Arguments Ok {A} a.
Arguments Throw {A} e.

(** What a run leaves behind besides files: which record [processEvent]
    was entered with, which handler (by position in the list registered
    for the record's type) was called with which record and whether it
    resolved, and which directory [mkdir] was called for. *)
Inductive Obs : Type :=
  | Dispatch (e : BaseEvent)
  | Invoked (e : BaseEvent) (k : nat) (resolved : bool)
  | Mkdir (l : Loc).

Record World : Type := mkWorld { fs : FS; trace : list Obs }.

Definition M (A : Type) : Type := World -> Res A * World.

Definition ret {A} (a : A) : M A := fun w => (Ok a, w).
Definition throw {A} (e : Err) : M A := fun w => (Throw e, w).
Definition bind {A B} (m : M A) (k : A -> M B) : M B :=
  fun w => match m w with
           | (Ok a, w') => k a w'
           | (Throw e, w') => (Throw e, w')
           end.
Definition try_catch {A} (m : M A) (h : Err -> M A) : M A :=
  fun w => match m w with
           | (Ok a, w') => (Ok a, w')
           | (Throw e, w') => h e w'
           end.
Definition lift {A} (r : Res A) : M A := fun w => (r, w).
Definition observe (o : Obs) : M unit :=
  fun w => (Ok tt, mkWorld (fs w) (trace w ++ [o])).

Declare Scope bus_scope.
Delimit Scope bus_scope with bus.
Notation "x <- m ;; k" := (bind m (fun x => k))
  (at level 61, m at next level, right associativity) : bus_scope.
Notation "m ;; k" := (bind m (fun _ => k))
  (at level 61, right associativity) : bus_scope.
Local Open Scope bus_scope.

(** ** The calls of [fs.promises] the bus makes

    A path is a directory and a name in it ([path.join]). *)

Definition access (l : Loc) (name : string) : M unit :=
  fun w => match dirOf l (fs w) with
           | Some d => match lookup name d with
                       | Some _ => (Ok tt, w)
                       | None => (Throw ENOENT, w)
                       end
           | None => (Throw ENOENT, w)
           end.

Definition readFile (l : Loc) (name : string) : M Content :=
  fun w => match dirOf l (fs w) with
           | Some d => match lookup name d with
                       | Some c => (Ok c, w)
                       | None => (Throw ENOENT, w)
                       end
           | None => (Throw ENOENT, w)
           end.

Definition writeFile (l : Loc) (name : string) (c : Content) : M unit :=
  fun w => match dirOf l (fs w) with
           | Some d => (Ok tt, mkWorld (setDir l (write name c d) (fs w)) (trace w))
           | None => (Throw ENOENT, w)
           end.

Definition unlink (l : Loc) (name : string) : M unit :=
  fun w => match dirOf l (fs w) with
           | Some d => match lookup name d with
                       | Some _ => (Ok tt, mkWorld (setDir l (remove name d) (fs w)) (trace w))
                       | None => (Throw ENOENT, w)
                       end
           | None => (Throw ENOENT, w)
           end.

(** [fs.rename(src, dst)]: the source must exist and so must the target
    directory; an existing target is replaced. *)
Definition rename (l1 : Loc) (n1 : string) (l2 : Loc) (n2 : string) : M unit :=
  fun w => match dirOf l1 (fs w), dirOf l2 (fs w) with
           | Some d1, Some _ =>
               match lookup n1 d1 with
               | Some c =>
                   let f1 := setDir l1 (remove n1 d1) (fs w) in
                   match dirOf l2 f1 with
                   | Some d2 => (Ok tt, mkWorld (setDir l2 (write n2 c d2) f1) (trace w))
                   | None => (Throw ENOENT, w)
                   end
               | None => (Throw ENOENT, w)
               end
           | _, _ => (Throw ENOENT, w)
           end.

Definition readdir (l : Loc) : M (list string) :=
  fun w => match dirOf l (fs w) with
           | Some d => (Ok (map fst d), w)
           | None => (Throw ENOENT, w)
           end.

Definition exists_dir (l : Loc) (f : FS) : bool :=
  match l with
  | EventsDir => events_exists f
  | PendingDir => match pending_files f with Some _ => true | None => false end
  | ProcessedDir => match processed_files f with Some _ => true | None => false end
  end.

Definition create_dir (l : Loc) (f : FS) : FS :=
  match l with
  | EventsDir => mkFS (can_mkdir f) true (pending_files f) (processed_files f)
  | PendingDir => mkFS (can_mkdir f) true (Some []) (processed_files f)
  | ProcessedDir => mkFS (can_mkdir f) true (pending_files f) (Some [])
  end.

(** [fs.mkdir(dir, { recursive: true })]: nothing to do when the directory
    exists, creates it (and its parents) when the process may, rejects
    otherwise. *)
Definition mkdir (l : Loc) : M unit :=
  fun w =>
    let w1 := mkWorld (fs w) (trace w ++ [Mkdir l]) in
    if exists_dir l (fs w) then (Ok tt, w1)
    else if can_mkdir (fs w) then (Ok tt, mkWorld (create_dir l (fs w)) (trace w1))
    else (Throw EACCES, w1).

Definition JSON_parse (c : Content) : Res BaseEvent :=
  match c with
  | Json e => Ok e
  | Text _ => Throw SyntaxError
  end.

Definition JSON_stringify (e : BaseEvent) : Content := Json e.

(** ** String helpers of the JavaScript runtime *)

(** [String.prototype.startsWith] *)
Fixpoint startsWith (s p : string) {struct p} : bool :=
  match p with
  | EmptyString => true
  | String a p' =>
      match s with
      | EmptyString => false
      | String b s' => Ascii.eqb a b && startsWith s' p'
      end
  end.

(** [String.prototype.endsWith] *)
Definition endsWith (s p : string) : bool :=
  let n := String.length s in
  let m := String.length p in
  if Nat.leb m n then String.eqb (String.substring (n - m) m s) p else false.

(** [String.prototype.includes]: does [sub] occur in [s]? *)
Fixpoint str_includes (s sub : string) : bool :=
  startsWith s sub ||
  match s with
  | EmptyString => false
  | String _ s' => str_includes s' sub
  end.

(** ** EventBus.ts *)

(** [type EventHandler = (event: BaseEvent) => Promise<void>].  A handler
    is business logic outside the bus: it may act on the store (the agents'
    handlers publish follow-up events) and settles by resolving or
    rejecting. *)
Definition EventHandler : Type := BaseEvent -> FS -> Res unit * FS.

Record EventBus : Type := mkBus {
  agentId : string;
  handlers : EventType -> list EventHandler;
  pollingInterval : Z;
  isPolling : bool;
  pollingTimer : option nat
}.

(** [subscribe]: the handler is pushed onto the list of its type. *)
Definition subscribe (eventType : EventType) (handler : EventHandler)
    (bus : EventBus) : EventBus :=
  mkBus (agentId bus)
        (fun t => if EventType_eqb t eventType
                  then handlers bus t ++ [handler] else handlers bus t)
        (pollingInterval bus) (isPolling bus) (pollingTimer bus).

(** [ensureDirectories] (lines 62-71). *)
Definition ensureDirectories : M unit :=
  try_catch
    (mkdir EventsDir ;; mkdir PendingDir ;; mkdir ProcessedDir)
    (fun error => throw error).

(** What has become of the process that runs the code. *)
Inductive Process (A : Type) : Type :=
  | Running (a : A)
  | Exited (code : Z).
Arguments Running {A} a.
Arguments Exited {A} code.

(** The constructor (lines 45-56) calls [this.ensureDirectories()] and
    drops the promise: no handler is ever attached to it.  If the promise
    resolves, the process goes on with the new bus.  If it rejects, at
    the [throw error] of line 69, the rejection is unhandled; Node (from
    version 15, in its default mode) raises an unhandled rejection as an
    uncaught exception, and the process ends with exit code 1, whatever
    the caller of the constructor had gone on to do with the bus. *)
Definition constructor (agent : string) (w : World)
    : Process EventBus * World :=
  let bus := mkBus agent (fun _ => []) 5000 false None in
  match ensureDirectories w with
  | (Ok _, w') => (Running bus, w')
  | (Throw _, w') => (Exited 1, w')
  end.

Definition eventFileName (eid : string) : string := eid ++ ".json".
Definition tempFileName (eid : string) : string := "." ++ eid ++ ".tmp".

(** [path.join(dir, name)] is the entry [name] of [dir] when [name] is a
    single path component: it holds no separator (of either platform)
    and no NUL, and it is within the 255 bytes that the common file
    systems allow a component.  Any other name leads [path.join] out of
    [dir], or makes the call fail; the directories above are a model of
    the store for component names only. *)
Definition separator (c : ascii) : bool :=
  Ascii.eqb c "/" || Ascii.eqb c "\" || Ascii.eqb c "000".

Fixpoint has_separator (name : string) : bool :=
  match name with
  | EmptyString => false
  | String c rest => separator c || has_separator rest
  end.

Definition NAME_MAX : nat := 255.

Definition component (name : string) : bool :=
  negb (has_separator name) && Nat.leb (String.length name) NAME_MAX.

(** An id whose event file and temporary file are both components. *)
Definition plain_id (eid : string) : bool :=
  component (eventFileName eid) && component (tempFileName eid).

(** The defaults [publish] fills in (lines 82-99).  [!event.processedBy]
    holds of a missing or falsy field and of the empty string, and of
    nothing else. *)
Definition withDefaults (freshId : string) (now : Z) (event : BaseEvent)
    : BaseEvent :=
  let event := if String.eqb (id event) "" then setId freshId event else event in
  let event := match timestamp event with
               | None => setTimestamp (Some now) event
               | Some _ => event
               end in
  let event := match processedBy event with
               | PBMissing | PBString "" => setProcessedBy (PBArray []) event
               | PBArray _ | PBString _ | PBOther => event
               end in
  match status event with
  | None => setStatus (Some pending) event
  | Some _ => event
  end.

(** [publish] (lines 79-144).  [freshId] is what [generateEventId()] would
    return and [now] the current time.  The two paths of lines 102-103
    are entries of the pending directory for an id that is a plain file
    name ([plain_id]); the properties of [publish] below are stated for
    such ids. *)
Definition publish (freshId : string) (now : Z) (event0 : BaseEvent) : M unit :=
  try_catch
    (let event := withDefaults freshId now event0 in
     let eventFile := eventFileName (id event) in
     let tempFile := tempFileName (id event) in
     found <- try_catch (access PendingDir eventFile ;; ret true)
                        (fun _ => ret false) ;;
     if found then ret tt
     else
       let jsonContent := JSON_stringify event in
       writeFile PendingDir tempFile jsonContent ;;
       tempContent <- readFile PendingDir tempFile ;;
       match JSON_parse tempContent with
       | Ok _ => ret tt
       | Throw _ =>
           try_catch (unlink PendingDir tempFile) (fun _ => ret tt) ;;
           throw (Error "Failed to write valid JSON")
       end ;;
       rename PendingDir tempFile PendingDir eventFile)
    (fun _ => ret tt).

(** [moveToProcessed] (lines 352-379): copy the text of the pending file
    into the processed directory, then unlink the pending file. *)
Definition moveToProcessed (eventId : string) : M unit :=
  try_catch
    (let source := eventFileName eventId in
     let dest := eventFileName eventId in
     try_catch
       (access PendingDir source ;;
        content <- readFile PendingDir source ;;
        writeFile ProcessedDir dest content ;;
        unlink PendingDir source)
       (fun _ => ret tt))
    (fun _ => ret tt).

Definition is_ok {A} (r : Res A) : bool :=
  match r with Ok _ => true | Throw _ => false end.

(** [await handler(event)] for the handler at position [k]. *)
Definition invoke (h : EventHandler) (event : BaseEvent) (k : nat) : M unit :=
  fun w => let '(r, f) := h event (fs w) in
           (r, mkWorld f (trace w ++ [Invoked event k (is_ok r)])).

(** The handler loop (lines 295-305). *)
Fixpoint callHandlers (event : BaseEvent) (hs : list EventHandler) (k : nat)
    : M unit :=
  match hs with
  | [] => ret tt
  | h :: rest =>
      try_catch (invoke h event k) (fun _ => ret tt) ;;
      callHandlers event rest (S k)
  end.

(** [event.processedBy.includes(agentId)] *)
Definition includes (pb : ProcessedBy) (agent : string) : Res bool :=
  match pb with
  | PBArray ids => Ok (existsb (String.eqb agent) ids)
  | PBString s => Ok (str_includes s agent)
  | PBMissing | PBOther => Throw TypeError
  end.

(** [event.processedBy.push(agentId)] *)
Definition push (pb : ProcessedBy) (agent : string) : Res ProcessedBy :=
  match pb with
  | PBArray ids => Ok (PBArray (ids ++ [agent]))
  | PBString _ | PBMissing | PBOther => Throw TypeError
  end.

(** [event.processedBy.length], read after a [push] that did not throw:
    of an array, that is. *)
Definition pb_length (pb : ProcessedBy) : nat :=
  match pb with
  | PBArray ids => List.length ids
  | PBString s => String.length s
  | PBMissing | PBOther => 0
  end.

(** The update of lines 320-339: write the temporary file, rename it over
    the event file; skipped when the event file is gone. *)
Definition updatePending (event : BaseEvent) : M unit :=
  try_catch
    (access PendingDir (eventFileName (id event)) ;;
     writeFile PendingDir (tempFileName (id event)) (JSON_stringify event) ;;
     rename PendingDir (tempFileName (id event))
            PendingDir (eventFileName (id event)))
    (fun _ => ret tt).

(** [processEvent] (lines 277-345).  With no handler registered the loop
    has nothing to call, which is the branch that only logs. *)
Definition processEvent (bus : EventBus) (event : BaseEvent) : M unit :=
  try_catch
    (observe (Dispatch event) ;;
     seen <- lift (includes (processedBy event) (agentId bus)) ;;
     if seen then ret tt
     else
       callHandlers event (handlers bus (type event)) 0 ;;
       pb <- lift (push (processedBy event) (agentId bus)) ;;
       let event := setProcessedBy pb event in
       let allAgentsProcessed := Nat.leb 3 (pb_length (processedBy event)) in
       if allAgentsProcessed then moveToProcessed (id event)
       else updatePending event)
    (fun error => throw error).

(** The filter of line 222. *)
Definition isEventFile (file : string) : bool :=
  endsWith file ".json" && negb (startsWith file ".").

(** The name [corrupted-${file}] of line 245. *)
Definition quarantineName (file : string) : string := "corrupted-" ++ file.

(** Lines 244-246: a file whose text does not parse is renamed into the
    processed directory under that name; the rename's own failure is
    swallowed. *)
Definition quarantine (file : string) : M unit :=
  try_catch
    (rename PendingDir file ProcessedDir (quarantineName file))
    (fun _ => ret tt).

(** One turn of the read loop of [poll] (lines 233-252): a file that
    cannot be read is passed over, a file whose text does not parse is
    quarantined. *)
Definition readOne (file : string) (events : list BaseEvent)
    : M (list BaseEvent) :=
  try_catch
    (content <- readFile PendingDir file ;;
     match JSON_parse content with
     | Ok event => ret (events ++ [event])
     | Throw _ => quarantine file ;; ret events
     end)
    (fun _ => ret events).

(** The read loop of [poll] (lines 231-253). *)
Fixpoint readEvents (files : list string) (events : list BaseEvent)
    : M (list BaseEvent) :=
  match files with
  | [] => ret events
  | file :: rest =>
      events' <- readOne file events ;;
      readEvents rest events'
  end.

(** The comparator of lines 257-258.  A missing date makes the difference
    [NaN], which [Array.prototype.sort] reads as [+0]. *)
Definition compareTimestamps (a b : BaseEvent) : Z :=
  match timestamp a, timestamp b with
  | Some x, Some y => (x - y)%Z
  | _, _ => 0%Z
  end.

(** [Array.prototype.sort] is a stable sort; on a comparator that is a
    total preorder every stable sort returns this list. *)
Fixpoint insert_event (x : BaseEvent) (l : list BaseEvent) : list BaseEvent :=
  match l with
  | [] => [x]
  | y :: rest =>
      if (compareTimestamps x y <=? 0)%Z then x :: y :: rest
      else y :: insert_event x rest
  end.

Definition sort_events (l : list BaseEvent) : list BaseEvent :=
  fold_right insert_event [] l.

(** The processing loop of lines 262-264. *)
Fixpoint processAll (bus : EventBus) (events : list BaseEvent) : M unit :=
  match events with
  | [] => ret tt
  | event :: rest => processEvent bus event ;; processAll bus rest
  end.

(** [poll] (lines 216-269). *)
Definition poll (bus : EventBus) : M unit :=
  try_catch
    (files <- readdir PendingDir ;;
     let eventFiles := filter isEventFile files in
     if Nat.eqb (List.length eventFiles) 0 then ret tt
     else
       events <- readEvents eventFiles [] ;;
       processAll bus (sort_events events))
    (fun error => throw error).

(** ** A first run: the end-to-end scenario of the specification *)

Definition emptyStore : World :=
  mkWorld (mkFS true true (Some []) (Some [])) [].

Definition jobCreated : BaseEvent :=
  mkEvent "event-1001-a" JOB_CREATED (Some 1000%Z) hiring None
          [("jobId", JString "job-1"); ("budget", JNumber 100)]
          (PBArray []) (Some pending).

Definition busOf (agent : string) : EventBus :=
  mkBus agent (fun _ => []) 5000 false None.

Definition run {A} (m : M A) (w : World) : World := snd (m w).

Definition endToEnd : World :=
  run (poll (busOf "arbitrator-1"))
    (run (poll (busOf "worker-1"))
       (run (poll (busOf "hiring-1"))
          (run (publish "fresh" 0 jobCreated) emptyStore))).

(** ** The polling timer

    [startPolling] and [stopPolling] (lines 166-201) over the event loop
    of the runtime.  A poll cycle is a promise: it is started by a call of
    [poll] and stays in flight until its awaited chain settles.  The loop
    is free to run a timer callback whenever the running code awaits. *)

Module Scheduler.

Record State : Type := mkState {
  bus : EventBus;
  (** the intervals [setInterval] has armed and [clearInterval] has not
      cleared *)
  timers : list nat;
  nextTimer : nat;
  (** calls of [startPolling] suspended at [await this.poll()], each
      with its initial cycle in flight *)
  starting : nat;
  (** cycles started by a timer callback and still in flight *)
  ticking : nat
}.

Definition inFlight (s : State) : nat := starting s + ticking s.

Definition setPolling (b : bool) (t : option nat) (e : EventBus) : EventBus :=
  mkBus (agentId e) (handlers e) (pollingInterval e) b t.

Inductive Step : Type :=
  | CallStart                (* startPolling() is called *)
  | InitialResolved          (* the poll awaited at line 176 resolves *)
  | InitialRejected          (* the poll awaited at line 176 rejects *)
  | Tick (t : nat)           (* the interval [t] fires its callback *)
  | CycleSettled             (* a cycle started by a callback settles *)
  | CallStop.                (* stopPolling() is called *)

Definition step (s : State) (l : Step) : option State :=
  match l with
  | CallStart =>
      if isPolling (bus s) then Some s
      else Some (mkState (setPolling true (pollingTimer (bus s)) (bus s))
                         (timers s) (nextTimer s)
                         (S (starting s)) (ticking s))
  | InitialResolved =>
      match starting s with
      | O => None
      | S k =>
          Some (mkState (setPolling (isPolling (bus s))
                                    (Some (nextTimer s)) (bus s))
                        (nextTimer s :: timers s) (S (nextTimer s))
                        k (ticking s))
      end
  | InitialRejected =>
      match starting s with
      | O => None
      | S k => Some (mkState (bus s) (timers s) (nextTimer s) k (ticking s))
      end
  | Tick t =>
      if existsb (Nat.eqb t) (timers s)
      then Some (mkState (bus s) (timers s) (nextTimer s)
                         (starting s) (S (ticking s)))
      else None
  | CycleSettled =>
      match ticking s with
      | O => None
      | S k => Some (mkState (bus s) (timers s) (nextTimer s) (starting s) k)
      end
  | CallStop =>
      if negb (isPolling (bus s)) then Some s
      else
        Some (mkState (setPolling false None (bus s))
                      (match pollingTimer (bus s) with
                       | Some t => filter (fun u => negb (Nat.eqb t u)) (timers s)
                       | None => timers s
                       end)
                      (nextTimer s) (starting s) (ticking s))
  end.

Fixpoint steps (s : State) (ls : list Step) : option State :=
  match ls with
  | [] => Some s
  | l :: rest =>
      match step s l with
      | Some s' => steps s' rest
      | None => None
      end
  end.

(** A bus fresh from its constructor. *)
Definition idle (agent : string) : State :=
  mkState (mkBus agent (fun _ => []) 5000 false None) [] 0 0 0.

Definition is_stop (l : Step) : bool :=
  match l with CallStop => true | _ => false end.

(** What holds of a bus started from idle and not stopped: the interval
    is armed only once the initial cycle has settled. *)
Definition started_once (s : State) : Prop :=
  (isPolling (bus s) = false ->
     starting s = 0 /\ timers s = [] /\ ticking s = 0) /\
  starting s <= 1 /\
  (starting s = 1 -> timers s = [] /\ ticking s = 0) /\
  List.length (timers s) <= 1.

End Scheduler.

(** ** The vocabulary of the properties *)

Definition pendingAt (name : string) (f : FS) : option Content :=
  match pending_files f with
  | Some d => lookup name d
  | None => None
  end.

Definition archiveAt (name : string) (f : FS) : option Content :=
  match processed_files f with
  | Some d => lookup name d
  | None => None
  end.

(** How many entries of a directory carry a name. *)
Definition occurrences (name : string) (d : Dir) : nat :=
  List.length (filter (fun entry => String.eqb name (fst entry)) d).

(** A property of the store that a handler keeps. *)
Definition handler_preserves (P : FS -> Prop) (h : EventHandler) : Prop :=
  forall e f, P f -> P (snd (h e f)).

Definition bus_preserves (P : FS -> Prop) (bus : EventBus) : Prop :=
  forall t, Forall (handler_preserves P) (handlers bus t).

(** The observations of calling handlers [k], [k+1], ... with [event]. *)
Fixpoint invocations (event : BaseEvent) (k : nat) (outcomes : list bool)
    : list Obs :=
  match outcomes with
  | [] => []
  | r :: rest => Invoked event k r :: invocations event (S k) rest
  end.

Definition dispatched (event : BaseEvent) (w : World) : World :=
  mkWorld (fs w) (trace w ++ [Dispatch event]).

Definition afterHandlers (bus : EventBus) (event : BaseEvent) (w : World)
    : World :=
  snd (callHandlers event (handlers bus (type event)) 0 (dispatched event w)).

(** The resource of a record is where it was read from, and there is an
    archive to move it to. *)
Definition in_place (event : BaseEvent) (f : FS) : Prop :=
  pendingAt (eventFileName (id event)) f = Some (Json event) /\
  processed_files f <> None.

Definition silent {A} (m : M A) : Prop :=
  forall w, trace (snd (m w)) = trace w.

Definition keeps {A} (P : FS -> Prop) (m : M A) : Prop :=
  forall w, P (fs w) -> P (fs (snd (m w))).

(** [P] survives what the bus of [agent] does to the store for a record
    in [Q]: moving its resource to the archive, and rewriting its pending
    resource with [agent] appended to [processedBy]. *)
Definition own_writes_keep (agent : string) (Q : BaseEvent -> Prop)
    (P : FS -> Prop) : Prop :=
  (forall e, Q e -> keeps P (moveToProcessed (id e))) /\
  (forall e ids, Q e -> processedBy e = PBArray ids ->
     keeps P (updatePending (setProcessedBy (PBArray (ids ++ [agent])) e))).

(** [P] survives the quarantine of a listed file. *)
Definition quarantine_keeps (P : FS -> Prop) : Prop :=
  forall file, isEventFile file = true -> keeps P (quarantine file).

(** The records [dispatches] and [invoked] pick out of a trace. *)
Definition dispatches (tr : list Obs) : list BaseEvent :=
  flat_map (fun o => match o with Dispatch e => [e] | _ => [] end) tr.

Definition invoked (tr : list Obs) : list BaseEvent :=
  flat_map (fun o => match o with Invoked e _ _ => [e] | _ => [] end) tr.

Definition jsonAt (name : string) (d : Dir) : option BaseEvent :=
  match lookup name d with
  | Some (Json e) => Some e
  | _ => None
  end.

(** The records the read loop collects from directory [d] when it walks
    [files]. *)
Definition parsed_events (d : Dir) (files : list string) : list BaseEvent :=
  flat_map (fun file => match jsonAt file d with
                        | Some e => [e]
                        | None => []
                        end) files.

Definition listed (d : Dir) : list string := filter isEventFile (map fst d).

(** A record in good order: its [processedBy] is an array. *)
Definition well_formed (e : BaseEvent) : Prop :=
  exists ids, processedBy e = PBArray ids.

Definition has_timestamp (e : BaseEvent) : Prop := timestamp e <> None.

(** [a] is dated strictly before [b]. *)
Definition ts_lt (a b : BaseEvent) : Prop :=
  exists x y, timestamp a = Some x /\ timestamp b = Some y /\ (x < y)%Z.

(** [a] is dated no later than [b]. *)
Definition ts_le (a b : BaseEvent) : Prop :=
  exists x y, timestamp a = Some x /\ timestamp b = Some y /\ (x <= y)%Z.

(** The records of the listed files of a directory, in listing order. *)
Definition events_of (d : Dir) : list BaseEvent :=
  flat_map (fun entry =>
              if isEventFile (fst entry)
              then match snd entry with Json e => [e] | Text _ => [] end
              else []) d.

(** A pending directory that holds a batch of records, one per listed
    file, in any enumeration order. *)
Definition holds_batch (d : Dir) (names : list string) (batch : list BaseEvent)
    : Prop :=
  Permutation d (combine names (map Json batch)) /\
  NoDup names /\
  List.length names = List.length batch /\
  Forall (fun n => isEventFile n = true) names.

(** [n] timer ticks, one after the other (lines 179-183): each tick runs
    [poll] and logs its rejection. *)
Fixpoint pollCycles (n : nat) (bus : EventBus) : M unit :=
  match n with
  | O => ret tt
  | S n' => try_catch (poll bus) (fun _ => ret tt) ;; pollCycles n' bus
  end.

(** Every listed pending resource that holds a record with id [eid] lists
    [agent] in the record's persisted [processedBy]. *)
Definition marked (eid agent : string) (f : FS) : Prop :=
  forall name e,
    isEventFile name = true ->
    pendingAt name f = Some (Json e) ->
    id e = eid ->
    includes (processedBy e) agent = Ok true.

(** Whether each handler of [hs], called in turn with [event] on the
    store the previous one left, resolved. *)
Fixpoint handlerOutcomes (event : BaseEvent) (hs : list EventHandler) (f : FS)
    : list bool :=
  match hs with
  | [] => []
  | h :: rest =>
      let '(r, f') := h event f in is_ok r :: handlerOutcomes event rest f'
  end.

(** The unparseable text [raw] of [file] waits in the pending directory,
    and there is an archive to move it to. *)
Definition waiting (file raw : string) (f : FS) : Prop :=
  pendingAt file f = Some (Text raw) /\ processed_files f <> None.

(** The text has left the pending directory and is kept in the archive
    under the quarantine name. *)
Definition quarantined (file raw : string) (f : FS) : Prop :=
  pendingAt file f = None /\
  archiveAt (quarantineName file) f = Some (Text raw).

(** The archive name of the record is not the quarantine name of [file]. *)
Definition no_collision (file : string) (e : BaseEvent) : Prop :=
  eventFileName (id e) <> quarantineName file.

(** A pending directory that holds one file of unparseable text besides a
    batch of records, one per listed file, in any enumeration order. *)
Definition holds_batch_and_garbage (d : Dir) (file raw : string)
    (names : list string) (batch : list BaseEvent) : Prop :=
  Permutation d ((file, Text raw) :: combine names (map Json batch)) /\
  NoDup (file :: names) /\
  List.length names = List.length batch /\
  Forall (fun n => isEventFile n = true) (file :: names).

(** The consumer cannot mark the record: [processedBy] is missing, or it
    is a string in which the consumer's id does not occur (so that the
    membership test passes and [push] is what fails). *)
Definition rejects (agent : string) (e : BaseEvent) : Prop :=
  processedBy e = PBMissing \/
  exists s, processedBy e = PBString s /\ str_includes s agent = false.

(** ** Concrete stores and buses *)

(** A store under a root where nothing exists and nothing may be
    created. *)
Definition lockedStore : World := mkWorld (mkFS false false None None) [].

(** A record whose [processedBy] is a string that contains the consumer's
    id. *)
Definition stringMarked : BaseEvent :=
  mkEvent "event-1002-b" JOB_CREATED (Some 2000%Z) hiring None []
          (PBString "hiring-1") (Some pending).

Definition failing : EventHandler :=
  fun _ f => (Throw (Error "handler failed"), f).

Definition quiet : EventHandler := fun _ f => (Ok tt, f).

(** A worker with two handlers for [JOB_CREATED]; the first one throws. *)
Definition workerBus : EventBus :=
  subscribe JOB_CREATED quiet (subscribe JOB_CREATED failing (busOf "worker-1")).

Definition published : World := run (publish "fresh" 0 jobCreated) emptyStore.

Definition afterHiring : World := run (poll (busOf "hiring-1")) published.

Definition afterWorker : World := run (poll workerBus) afterHiring.

Definition seenByHiring : BaseEvent :=
  setProcessedBy (PBArray ["hiring-1"]) jobCreated.

(** Idle, started twice, initial cycle resolved, two ticks. *)
Definition twoTicks : list Scheduler.Step :=
  [Scheduler.CallStart; Scheduler.CallStart; Scheduler.InitialResolved;
   Scheduler.Tick 0; Scheduler.Tick 0].

(** A second record, newer than [jobCreated]. *)
Definition jobAccepted : BaseEvent :=
  mkEvent "event-1002-b" JOB_ACCEPTED (Some 2000%Z) worker (Some hiring)
          [("jobId", JString "job-1"); ("workerId", JString "worker-1")]
          (PBArray []) (Some pending).

(** A third record, newer still. *)
Definition workSubmitted : BaseEvent :=
  mkEvent "event-1003-c" WORK_SUBMITTED (Some 3000%Z) worker (Some hiring)
          [("jobId", JString "job-1")] (PBArray []) (Some pending).

(** A record that parses but has no [processedBy]. *)
Definition unmarkable : BaseEvent :=
  mkEvent "event-1002-b" JOB_ACCEPTED (Some 2000%Z) worker (Some hiring)
          [("jobId", JString "job-1")] PBMissing (Some pending).

Definition storeOf (d : Dir) : World :=
  mkWorld (mkFS true true (Some d) (Some [])) [].

(** Two records, listed newest first. *)
Definition newestFirst : Dir :=
  [("event-1002-b.json", Json jobAccepted); ("event-1001-a.json", Json jobCreated)].

(** A pending directory with one file of unparseable text. *)
Definition withGarbage : Dir :=
  [("broken.json", Text "{ not json"); ("event-1001-a.json", Json jobCreated)].

(** Three records; the middle one cannot be marked. *)
Definition withUnmarkable : Dir :=
  [("event-1003-c.json", Json workSubmitted);
   ("event-1001-a.json", Json jobCreated);
   ("event-1002-b.json", Json unmarkable)].

(** ** AgentSubscriber.ts and the id generator of events.ts *)

(** [generateEventId] (events.ts, and again AgentSubscriber.ts line 105):
    [event-${timestamp}-${uuid}], for the decimal text of [Date.now()] and
    the text of [randomUUID()]. *)
Definition generateEventId (timestamp uuid : string) : string :=
  "event-" ++ timestamp ++ "-" ++ uuid.

Definition setSourceAgent (v : AgentType) (e : BaseEvent) : BaseEvent :=
  mkEvent (id e) (type e) (timestamp e) v (targetAgent e)
          (payload e) (processedBy e) (status e).

(** [class AgentSubscriber]: an agent type bound to a bus. *)
Record AgentSubscriber : Type := mkSubscriber {
  agentType : AgentType;
  subscriberId : string;
  eventBus : EventBus
}.

(** [publishEvent] (AgentSubscriber.ts lines 94-99): the source agent is
    overwritten with the agent's own type, then the bus publishes. *)
Definition publishEvent (sub : AgentSubscriber) (freshId : string) (now : Z)
    (event : BaseEvent) : M unit :=
  publish freshId now (setSourceAgent (agentType sub) event).

(** ** More vocabulary *)

(** A record that [publish] has nothing to add to. *)
Definition complete (e : BaseEvent) : Prop :=
  id e <> "" /\ timestamp e <> None /\ status e <> None /\
  exists ids, processedBy e = PBArray ids.

(** Every listed pending resource is named after the id of the record it
    holds. *)
Definition names_match (f : FS) : Prop :=
  forall name e,
    isEventFile name = true ->
    pendingAt name f = Some (Json e) ->
    name = eventFileName (id e).

(** No listed pending record lists a consumer twice. *)
Definition duplicate_free (f : FS) : Prop :=
  forall name e ids,
    isEventFile name = true ->
    pendingAt name f = Some (Json e) ->
    processedBy e = PBArray ids ->
    NoDup ids.

(** The record is dated [t]. *)
Definition dated (t : Z) (e : BaseEvent) : bool :=
  match timestamp e with
  | Some x => Z.eqb x t
  | None => false
  end.

(** The interval the bus remembers is the one interval that is armed. *)
Definition timer_tracked (s : Scheduler.State) : Prop :=
  Scheduler.timers s =
    match pollingTimer (Scheduler.bus s) with
    | Some t => [t]
    | None => []
    end.

(** A handler that leaves the store as it is. *)
Definition store_neutral (h : EventHandler) : Prop :=
  forall e f, snd (h e f) = f.

(** The entries of a directory, none while it does not exist. *)
Definition contents (o : option Dir) : Dir :=
  match o with
  | Some d => d
  | None => []
  end.

(** The three directories of the bus exist. *)
Definition directories_exist (f : FS) : Prop :=
  exists_dir EventsDir f = true /\
  exists_dir PendingDir f = true /\
  exists_dir ProcessedDir f = true.

(** The record lists no consumer twice. *)
Definition lists_once (e : BaseEvent) : Prop :=
  forall ids, processedBy e = PBArray ids -> NoDup ids.

(** The first of the three directories, in the order of lines 64-66,
    that does not exist. *)
Definition first_missing (f : FS) : option Loc :=
  if negb (exists_dir EventsDir f) then Some EventsDir
  else if negb (exists_dir PendingDir f) then Some PendingDir
  else if negb (exists_dir ProcessedDir f) then Some ProcessedDir
  else None.

(** The [mkdir] calls up to and including the one for [l], one each. *)
Definition attempts (l : Loc) : list Obs :=
  match l with
  | EventsDir => [Mkdir EventsDir]
  | PendingDir => [Mkdir EventsDir; Mkdir PendingDir]
  | ProcessedDir => [Mkdir EventsDir; Mkdir PendingDir; Mkdir ProcessedDir]
  end.

(** How often a trace calls the handler at position [k] with a record of
    id [eid]. *)
Definition is_call (eid : string) (k : nat) (o : Obs) : bool :=
  match o with
  | Invoked e k' _ => String.eqb (id e) eid && Nat.eqb k' k
  | _ => false
  end.

Definition calls (eid : string) (k : nat) (tr : list Obs) : nat :=
  List.length (filter (is_call eid k) tr).

Definition carries (eid : string) (e : BaseEvent) : bool :=
  String.eqb (id e) eid.

(** A store in which a consumer's mark on the record of id [eid] gets
    persisted: there is an archive directory, no two pending files have
    the same name, and a listed pending file that holds a record of that
    id is named after the id and holds an array for [processedBy]. *)
Definition persists (eid : string) (f : FS) : Prop :=
  processed_files f <> None /\
  (forall d, pending_files f = Some d -> NoDup (map fst d)) /\
  forall name e,
    isEventFile name = true ->
    pendingAt name f = Some (Json e) ->
    id e = eid ->
    name = eventFileName eid /\ well_formed e.

(** The handler calls a cycle of the consumer owes a record: one for each
    handler registered for its type, unless the record lists the
    consumer already. *)
Definition expected_calls (bus : EventBus) (e : BaseEvent) : list BaseEvent :=
  match includes (processedBy e) (agentId bus) with
  | Ok false => repeat e (List.length (handlers bus (type e)))
  | _ => []
  end.

(** What the store holds of a record once the consumer [agent] is done
    with it: the record as it was if it listed the consumer already;
    else the record with the consumer appended, still pending, or, with
    three entries reached, the text that was on disk, moved to the
    archive. *)
Definition handled (agent : string) (e : BaseEvent) (f : FS) : Prop :=
  let name := eventFileName (id e) in
  match processedBy e with
  | PBArray ids =>
      if existsb (String.eqb agent) ids
      then pendingAt name f = Some (Json e)
      else if Nat.leb 3 (List.length (ids ++ [agent]))
           then pendingAt name f = None /\ archiveAt name f = Some (Json e)
           else pendingAt name f =
                  Some (Json (setProcessedBy (PBArray (ids ++ [agent])) e))
  | _ => False
  end.

(** A handler that leaves the resources of these names alone, in both
    directories. *)
Definition leaves_alone (names : list string) (h : EventHandler) : Prop :=
  forall e f name,
    In name names ->
    pendingAt name (snd (h e f)) = pendingAt name f /\
    archiveAt name (snd (h e f)) = archiveAt name f.

(** Two stores that hold the same under these names. *)
Definition agree_on (names : list string) (f0 f : FS) : Prop :=
  forall name,
    In name names ->
    pendingAt name f = pendingAt name f0 /\
    archiveAt name f = archiveAt name f0.

(** * Properties

    ** Directories *)

Lemma lookup_app (name : string) (d1 d2 : Dir) :
  lookup name (d1 ++ d2) =
  match lookup name d1 with Some c => Some c | None => lookup name d2 end.
Proof.
  induction d1 as [|[n c] d1 IH]; simpl; [reflexivity|].
  destruct (String.eqb name n); [reflexivity | exact IH].
Qed.

Lemma lookup_remove_eq (name : string) (d : Dir) :
  lookup name (remove name d) = None.
Proof.
  induction d as [|[n c] d IH]; simpl; [reflexivity|].
  destruct (String.eqb name n) eqn:E; simpl; [exact IH|].
  rewrite E. exact IH.
Qed.

Lemma lookup_remove_ne (name other : string) (d : Dir) :
  name <> other -> lookup name (remove other d) = lookup name d.
Proof.
  intros Hne. induction d as [|[n c] d IH]; simpl; [reflexivity|].
  destruct (String.eqb other n) eqn:E; simpl.
  - apply String.eqb_eq in E. subst n.
    destruct (String.eqb_spec name other); [contradiction | exact IH].
  - destruct (String.eqb name n); [reflexivity | exact IH].
Qed.

Lemma lookup_write_eq (name : string) (c : Content) (d : Dir) :
  lookup name (write name c d) = Some c.
Proof.
  unfold write. rewrite lookup_app, lookup_remove_eq. simpl.
  rewrite String.eqb_refl. reflexivity.
Qed.

Lemma lookup_write_ne (name other : string) (c : Content) (d : Dir) :
  name <> other -> lookup name (write other c d) = lookup name d.
Proof.
  intros Hne. unfold write. rewrite lookup_app, lookup_remove_ne by assumption.
  destruct (lookup name d); [reflexivity|]. simpl.
  destruct (String.eqb_spec name other); [contradiction | reflexivity].
Qed.

Lemma occurrences_remove_eq (name : string) (d : Dir) :
  occurrences name (remove name d) = 0.
Proof.
  unfold occurrences, remove. induction d as [|[n c] d IH]; simpl; [reflexivity|].
  destruct (String.eqb name n) eqn:E; simpl; [exact IH|].
  rewrite E. exact IH.
Qed.

Lemma occurrences_write_eq (name : string) (c : Content) (d : Dir) :
  occurrences name (write name c d) = 1.
Proof.
  unfold write, occurrences. rewrite filter_app, length_app.
  fold (occurrences name (remove name d)). rewrite occurrences_remove_eq.
  simpl. rewrite String.eqb_refl. reflexivity.
Qed.

(** ** File names *)

Lemma length_append (s t : string) :
  String.length (s ++ t)%string = String.length s + String.length t.
Proof. induction s as [|a s IH]; simpl; [reflexivity | now rewrite IH]. Qed.

Lemma append_tail_inj (t t' : string) :
  String.length t = String.length t' ->
  forall s s' : string, (s ++ t = s' ++ t')%string -> s = s' /\ t = t'.
Proof.
  intros Hlen. induction s as [|a s IH]; intros [|a' s'] H; simpl in H.
  - split; [reflexivity | exact H].
  - exfalso. apply (f_equal String.length) in H. simpl in H.
    rewrite length_append in H. lia.
  - exfalso. apply (f_equal String.length) in H. simpl in H.
    rewrite length_append in H. lia.
  - injection H as Ha Hs. destruct (IH _ Hs) as [-> ->]. subst. split; reflexivity.
Qed.

Lemma append_assoc (a b c : string) : ((a ++ b) ++ c = a ++ (b ++ c))%string.
Proof. induction a as [|x a IH]; simpl; [reflexivity | now rewrite IH]. Qed.

Lemma temp_not_listed (a : string) : isEventFile (tempFileName a) = false.
Proof. unfold isEventFile. apply andb_false_intro2. reflexivity. Qed.

(** ** The store operations of the bus, by their effect *)

Ltac unfold_io :=
  unfold bind, try_catch, ret, throw, lift, observe, access, readFile,
    writeFile, unlink, rename, readdir, JSON_stringify in *.

(** Moving a pending resource: the archive receives the text found on
    disk, the pending entry goes away. *)
Lemma moveToProcessed_moves (eid : string) (w : World) (d a : Dir) (c : Content) :
  pending_files (fs w) = Some d ->
  processed_files (fs w) = Some a ->
  lookup (eventFileName eid) d = Some c ->
  moveToProcessed eid w =
    (Ok tt,
     mkWorld (mkFS (can_mkdir (fs w)) (events_exists (fs w))
                   (Some (remove (eventFileName eid) d))
                   (Some (write (eventFileName eid) c a)))
             (trace w)).
Proof.
  intros Hp Ha Hl. unfold moveToProcessed. unfold_io. simpl.
  repeat (rewrite ?Hp, ?Hl, ?Ha; simpl). reflexivity.
Qed.

Lemma moveToProcessed_gone (eid : string) (w : World) :
  pendingAt (eventFileName eid) (fs w) = None ->
  moveToProcessed eid w = (Ok tt, w).
Proof.
  unfold pendingAt, moveToProcessed. unfold_io. simpl. intros H.
  destruct (pending_files (fs w)) as [d|]; [rewrite H|]; reflexivity.
Qed.

Lemma swallow_never_throws (m : M unit) (w : World) :
  fst (try_catch m (fun _ => ret tt) w) = Ok tt.
Proof.
  unfold try_catch, ret. destruct (m w) as [[[]|e] w']; reflexivity.
Qed.

Lemma moveToProcessed_never_throws (eid : string) (w : World) :
  fst (moveToProcessed eid w) = Ok tt.
Proof. apply swallow_never_throws. Qed.

Lemma updatePending_writes (event : BaseEvent) (w : World) (d : Dir) (c : Content) :
  pending_files (fs w) = Some d ->
  lookup (eventFileName (id event)) d = Some c ->
  updatePending event w =
    (Ok tt,
     mkWorld (mkFS (can_mkdir (fs w)) (events_exists (fs w))
                   (Some (write (eventFileName (id event)) (Json event)
                            (remove (tempFileName (id event))
                               (write (tempFileName (id event)) (Json event) d))))
                   (processed_files (fs w)))
             (trace w)).
Proof.
  intros Hp Hl. unfold updatePending. unfold_io. simpl.
  repeat (rewrite ?Hp, ?Hl, ?lookup_write_eq; simpl). reflexivity.
Qed.

Lemma updatePending_gone (event : BaseEvent) (w : World) :
  pendingAt (eventFileName (id event)) (fs w) = None ->
  updatePending event w = (Ok tt, w).
Proof.
  unfold pendingAt, updatePending. unfold_io. simpl. intros H.
  destruct (pending_files (fs w)) as [d|]; [rewrite H|]; reflexivity.
Qed.

(** ** Handlers *)

(** The loop calls every handler, whatever the earlier ones did, and does
    not throw. *)
Lemma callHandlers_run (P : FS -> Prop) (event : BaseEvent)
    (hs : list EventHandler) :
  Forall (handler_preserves P) hs ->
  forall (k : nat) (w : World),
    P (fs w) ->
    exists outcomes f,
      List.length outcomes = List.length hs /\ P f /\
      callHandlers event hs k w =
        (Ok tt, mkWorld f (trace w ++ invocations event k outcomes)).
Proof.
  induction 1 as [|h hs Hh Hhs IH]; intros k w HP.
  - exists [], (fs w). simpl. rewrite app_nil_r. destruct w; auto.
  - simpl. unfold bind at 1, try_catch, invoke, ret.
    specialize (Hh event (fs w) HP).
    destruct (h event (fs w)) as [r f1] eqn:Eh. simpl in Hh.
    set (w1 := mkWorld f1 (trace w ++ [Invoked event k (is_ok r)])).
    destruct (IH (S k) w1 Hh) as (outs & f & Hlen & HPf & Hrun).
    exists (is_ok r :: outs), f. simpl.
    repeat split; [now rewrite Hlen | exact HPf |].
    destruct r as [[]|e]; fold w1; rewrite Hrun; simpl;
      now rewrite <- app_assoc.
Qed.

(** ** [processEvent], case by case *)

Lemma processEvent_skip (bus : EventBus) (event : BaseEvent) (w : World) :
  includes (processedBy event) (agentId bus) = Ok true ->
  processEvent bus event w = (Ok tt, dispatched event w).
Proof.
  intros H. unfold processEvent, try_catch, bind, observe, lift, ret.
  rewrite H. reflexivity.
Qed.

Lemma processEvent_no_includes (bus : EventBus) (event : BaseEvent)
    (w : World) (e : Err) :
  includes (processedBy event) (agentId bus) = Throw e ->
  processEvent bus event w = (Throw e, dispatched event w).
Proof.
  intros H. unfold processEvent, try_catch, bind, observe, lift, throw.
  rewrite H. reflexivity.
Qed.

Lemma callHandlers_ok (event : BaseEvent) (hs : list EventHandler)
    (k : nat) (w : World) :
  callHandlers event hs k w = (Ok tt, snd (callHandlers event hs k w)).
Proof.
  destruct (callHandlers_run (fun _ => True) event hs) with (k := k) (w := w)
    as (outs & f & _ & _ & ->); auto.
  apply Forall_forall. intros h _ e f _. exact I.
Qed.

Lemma processEvent_array (bus : EventBus) (event : BaseEvent)
    (ids : list string) (w : World) :
  processedBy event = PBArray ids ->
  existsb (String.eqb (agentId bus)) ids = false ->
  processEvent bus event w =
    (if Nat.leb 3 (List.length (ids ++ [agentId bus]))
     then moveToProcessed (id event)
     else updatePending (setProcessedBy (PBArray (ids ++ [agentId bus])) event))
      (afterHandlers bus event w).
Proof.
  intros Hpb Hnew. unfold processEvent, afterHandlers.
  unfold try_catch at 1. unfold bind at 1. unfold observe at 1.
  fold (dispatched event w). unfold bind at 1, lift at 1.
  rewrite Hpb. simpl includes. rewrite Hnew.
  unfold bind at 1. rewrite callHandlers_ok.
  set (w1 := snd (callHandlers _ _ _ _)).
  unfold bind, lift. simpl push. cbv iota beta.
  cbn [pb_length processedBy setProcessedBy id snd].
  destruct (Nat.leb 3 (List.length (ids ++ [agentId bus]))).
  - pose proof (moveToProcessed_never_throws (id event) w1) as H.
    destruct (moveToProcessed (id event) w1) as [r w2]. simpl in H. now subst r.
  - pose proof (swallow_never_throws
      (access PendingDir (eventFileName (id event)) ;;
       writeFile PendingDir (tempFileName (id event))
         (JSON_stringify (setProcessedBy (PBArray (ids ++ [agentId bus])) event)) ;;
       rename PendingDir (tempFileName (id event)) PendingDir
         (eventFileName (id event))) w1) as H.
    unfold updatePending. cbn [id setProcessedBy].
    destruct (try_catch _ _ w1) as [r w2]. simpl in H. now subst r.
Qed.

Lemma processEvent_string (bus : EventBus) (event : BaseEvent)
    (s : string) (w : World) :
  processedBy event = PBString s ->
  str_includes s (agentId bus) = false ->
  processEvent bus event w = (Throw TypeError, afterHandlers bus event w).
Proof.
  intros Hpb Hnew. unfold processEvent, afterHandlers.
  unfold try_catch at 1. unfold bind at 1. unfold observe at 1.
  fold (dispatched event w). unfold bind at 1, lift at 1.
  rewrite Hpb. simpl includes. rewrite Hnew.
  unfold bind at 1. rewrite callHandlers_ok.
  reflexivity.
Qed.

Lemma existsb_eqb_false (agent : string) (ids : list string) :
  ~ In agent ids -> existsb (String.eqb agent) ids = false.
Proof.
  intros Hn. destruct (existsb (String.eqb agent) ids) eqn:E; [|reflexivity].
  apply existsb_exists in E. destruct E as (x & Hx & Heq).
  apply String.eqb_eq in Heq. subst x. contradiction.
Qed.

Lemma existsb_eqb_true (agent : string) (ids : list string) :
  In agent ids -> existsb (String.eqb agent) ids = true.
Proof.
  intros Hin. apply existsb_exists. exists agent. split; [exact Hin|].
  apply String.eqb_refl.
Qed.

Lemma afterHandlers_keeps (P : FS -> Prop) (bus : EventBus)
    (event : BaseEvent) (w : World) :
  bus_preserves P bus -> P (fs w) -> P (fs (afterHandlers bus event w)).
Proof.
  intros Hb HP. unfold afterHandlers.
  destruct (callHandlers_run P event _ (Hb (type event)) 0 (dispatched event w) HP)
    as (outs & f & _ & HPf & ->). exact HPf.
Qed.

Section ArchivalThreshold.

Variable bus : EventBus.
Variable event : BaseEvent.
Variable ids : list string.
Variable w : World.

Hypothesis Hids : processedBy event = PBArray ids.
Hypothesis Hnodup : NoDup ids.
Hypothesis Hnew : ~ In (agentId bus) ids.
Hypothesis Hhandlers : bus_preserves (in_place event) bus.
Hypothesis Hplace : in_place event (fs w).

Let name := eventFileName (id event).
Let marked := setProcessedBy (PBArray (ids ++ [agentId bus])) event.
Let w' := snd (processEvent bus event w).

(** C3 (archival threshold).  A consumer processes a record it has not
    processed yet, whose resource is in place when its handlers are done.
    The list with the consumer appended is still duplicate-free, so its
    length is its cardinality.  If that reaches 3, the resource leaves
    the pending directory and the archive holds the record under the same
    name with every field, the payload among them, as it was on disk;
    below 3, the pending resource is the record with the consumer
    appended to [processedBy] and every other field unchanged, and the
    step leaves the archive alone. *)
Theorem archival_threshold :
  NoDup (ids ++ [agentId bus]) /\
  fst (processEvent bus event w) = Ok tt /\
  (3 <= List.length (ids ++ [agentId bus]) ->
     pendingAt name (fs w') = None /\
     archiveAt name (fs w') = Some (Json event)) /\
  (List.length (ids ++ [agentId bus]) < 3 ->
     pendingAt name (fs w') = Some (Json marked) /\
     processedBy marked = PBArray (ids ++ [agentId bus]) /\
     (id marked = id event /\ type marked = type event /\
      timestamp marked = timestamp event /\
      sourceAgent marked = sourceAgent event /\
      targetAgent marked = targetAgent event /\
      payload marked = payload event /\ status marked = status event) /\
     processed_files (fs w') =
       processed_files (fs (afterHandlers bus event w))).
Proof.
  pose proof (afterHandlers_keeps _ bus event w Hhandlers Hplace) as [Hp Ha].
  subst w'. rewrite (processEvent_array bus event ids w Hids)
    by (apply existsb_eqb_false; exact Hnew).
  set (w1 := afterHandlers bus event w) in *.
  unfold pendingAt in Hp.
  destruct (pending_files (fs w1)) as [d|] eqn:Ed; [|discriminate].
  destruct (processed_files (fs w1)) as [a|] eqn:Ea; [|contradiction].
  split.
  { apply NoDup_app; [exact Hnodup | constructor; [intros [] | constructor] |].
    intros x Hx [<-|[]]. contradiction. }
  destruct (Nat.leb 3 (List.length (ids ++ [agentId bus]))) eqn:E.
  - apply Nat.leb_le in E.
    rewrite (moveToProcessed_moves _ _ d a (Json event) Ed Ea Hp).
    split; [reflexivity|]. split; [|intros; lia]. intros _.
    unfold pendingAt, archiveAt. simpl.
    fold name. now rewrite lookup_remove_eq, lookup_write_eq.
  - apply Nat.leb_gt in E.
    fold marked.
    rewrite (updatePending_writes marked w1 d (Json event) Ed Hp).
    split; [reflexivity|]. split; [intros; lia|]. intros _.
    unfold pendingAt. simpl. fold name.
    rewrite lookup_write_eq. repeat split; try reflexivity.
    simpl. congruence.
Qed.

End ArchivalThreshold.

(** ** Computations that leave the trace, or a property of the store, alone *)

Lemma silent_bind {A B} (m : M A) (k : A -> M B) :
  silent m -> (forall a, silent (k a)) -> silent (bind m k).
Proof.
  intros Hm Hk w. unfold bind. specialize (Hm w).
  destruct (m w) as [[a|e] w1]; simpl in *; [|exact Hm].
  now rewrite Hk.
Qed.

Lemma silent_try {A} (m : M A) (h : Err -> M A) :
  silent m -> (forall e, silent (h e)) -> silent (try_catch m h).
Proof.
  intros Hm Hh w. unfold try_catch. specialize (Hm w).
  destruct (m w) as [[a|e] w1]; simpl in *; [exact Hm|].
  now rewrite Hh.
Qed.

Lemma silent_ret {A} (a : A) : silent (ret a).
Proof. intros w. reflexivity. Qed.

Lemma silent_throw {A} (e : Err) : silent (@throw A e).
Proof. intros w. reflexivity. Qed.

Lemma silent_access l n : silent (access l n).
Proof.
  intros w. unfold access. destruct (dirOf l (fs w)); [|reflexivity].
  destruct (lookup n d); reflexivity.
Qed.

Lemma silent_readFile l n : silent (readFile l n).
Proof.
  intros w. unfold readFile. destruct (dirOf l (fs w)); [|reflexivity].
  destruct (lookup n d); reflexivity.
Qed.

Lemma silent_writeFile l n c : silent (writeFile l n c).
Proof.
  intros w. unfold writeFile. destruct (dirOf l (fs w)); reflexivity.
Qed.

Lemma silent_unlink l n : silent (unlink l n).
Proof.
  intros w. unfold unlink. destruct (dirOf l (fs w)); [|reflexivity].
  destruct (lookup n d); reflexivity.
Qed.

Lemma silent_rename l1 n1 l2 n2 : silent (rename l1 n1 l2 n2).
Proof.
  intros w. unfold rename.
  destruct (dirOf l1 (fs w)); [|reflexivity].
  destruct (dirOf l2 (fs w)); [|reflexivity].
  destruct (lookup n1 d); [|reflexivity].
  destruct (dirOf l2 _); reflexivity.
Qed.

Create HintDb silent_db.
#[local] Hint Resolve silent_ret silent_throw silent_access silent_readFile
  silent_writeFile silent_unlink silent_rename : silent_db.

Ltac prove_silent :=
  repeat first
    [ apply silent_bind; [|intros ?]
    | apply silent_try; [|intros ?]
    | solve [auto with silent_db] ].

Lemma silent_moveToProcessed eid : silent (moveToProcessed eid).
Proof. unfold moveToProcessed. prove_silent. Qed.

Lemma silent_updatePending event : silent (updatePending event).
Proof. unfold updatePending. prove_silent. Qed.

Lemma keeps_bind {A B} P (m : M A) (k : A -> M B) :
  keeps P m -> (forall a, keeps P (k a)) -> keeps P (bind m k).
Proof.
  intros Hm Hk w HP. unfold bind. specialize (Hm w HP).
  destruct (m w) as [[a|e] w1]; simpl in *; [|exact Hm].
  now apply Hk.
Qed.

Lemma keeps_try {A} P (m : M A) (h : Err -> M A) :
  keeps P m -> (forall e, keeps P (h e)) -> keeps P (try_catch m h).
Proof.
  intros Hm Hh w HP. unfold try_catch. specialize (Hm w HP).
  destruct (m w) as [[a|e] w1]; simpl in *; [exact Hm|].
  now apply Hh.
Qed.

Lemma keeps_ret {A} P (a : A) : keeps P (ret a).
Proof. intros w HP. exact HP. Qed.

Lemma try_rethrow {A} (m : M A) (w : World) :
  try_catch m (fun e => throw e) w = m w.
Proof. unfold try_catch, throw. destruct (m w) as [[a|e] w1]; reflexivity. Qed.

(** ** Store properties that a poll cycle keeps *)

Lemma readOne_keeps (P : FS -> Prop) (file : string) (acc : list BaseEvent) :
  keeps P (quarantine file) -> keeps P (readOne file acc).
Proof.
  intros Hq. unfold readOne.
  apply keeps_try; [|intros _; apply keeps_ret].
  apply keeps_bind.
  - intros w HP. unfold readFile.
    destruct (dirOf PendingDir (fs w)); [|exact HP].
    destruct (lookup file d); exact HP.
  - intros c. destruct (JSON_parse c); [apply keeps_ret|].
    apply keeps_bind; [exact Hq | intros _; apply keeps_ret].
Qed.

Lemma readEvents_keeps (P : FS -> Prop) (files : list string) :
  Forall (fun file => keeps P (quarantine file)) files ->
  forall acc, keeps P (readEvents files acc).
Proof.
  induction 1 as [|file rest Hfile _ IH]; intros acc; simpl.
  - apply keeps_ret.
  - apply keeps_bind; [now apply readOne_keeps | intros a; apply IH].
Qed.

Section Keeping.

Variable bus : EventBus.
Variable Q : BaseEvent -> Prop.
Variable P : FS -> Prop.
Hypothesis Hown : own_writes_keep (agentId bus) Q P.
Hypothesis Hhandlers : bus_preserves P bus.

Lemma processEvent_keeps (event : BaseEvent) :
  Q event -> keeps P (processEvent bus event).
Proof.
  intros HQ w HP. destruct Hown as (Hmove & Hupd).
  destruct (processedBy event) as [ids| s | |] eqn:Epb.
  - destruct (existsb (String.eqb (agentId bus)) ids) eqn:Ein.
    + rewrite processEvent_skip by (rewrite Epb; simpl; now rewrite Ein).
      exact HP.
    + rewrite (processEvent_array bus event ids w Epb Ein).
      pose proof (afterHandlers_keeps P bus event w Hhandlers HP) as H1.
      destruct (Nat.leb 3 _).
      * now apply Hmove.
      * now apply Hupd.
  - destruct (str_includes s (agentId bus)) eqn:Ein.
    + rewrite processEvent_skip by (rewrite Epb; simpl; now rewrite Ein).
      exact HP.
    + rewrite (processEvent_string bus event s w Epb Ein). simpl.
      now apply afterHandlers_keeps.
  - rewrite (processEvent_no_includes bus event w TypeError)
      by now rewrite Epb.
    exact HP.
  - rewrite (processEvent_no_includes bus event w TypeError)
      by now rewrite Epb.
    exact HP.
Qed.

Lemma processAll_keeps (events : list BaseEvent) :
  Forall Q events -> keeps P (processAll bus events).
Proof.
  induction 1 as [|e rest He _ IH]; simpl.
  - apply keeps_ret.
  - apply keeps_bind; [now apply processEvent_keeps | intros _; exact IH].
Qed.

Lemma poll_keeps :
  (forall e, Q e) -> quarantine_keeps P -> keeps P (poll bus).
Proof.
  intros HQ Hq w HP. unfold poll. rewrite try_rethrow.
  revert w HP. apply keeps_bind.
  - intros w HP. unfold readdir. now destruct (dirOf PendingDir (fs w)).
  - intros files. destruct (Nat.eqb _ 0); [apply keeps_ret|].
    apply keeps_bind.
    + apply readEvents_keeps. apply Forall_forall. intros f Hf.
      apply filter_In in Hf. apply Hq. tauto.
    + intros evs. apply processAll_keeps. apply Forall_forall. auto.
Qed.

End Keeping.

(** ** What a poll cycle reads *)

Lemma quarantine_moves (file : string) (w : World) (d a : Dir) (c : Content) :
  pending_files (fs w) = Some d ->
  processed_files (fs w) = Some a ->
  lookup file d = Some c ->
  quarantine file w =
    (Ok tt,
     mkWorld (mkFS (can_mkdir (fs w)) (events_exists (fs w))
                   (Some (remove file d))
                   (Some (write (quarantineName file) c a)))
             (trace w)).
Proof.
  intros Hp Ha Hl. unfold quarantine, try_catch, rename. simpl.
  rewrite Hp, Ha, Hl. reflexivity.
Qed.

Lemma quarantine_no_archive (file : string) (w : World) :
  processed_files (fs w) = None -> quarantine file w = (Ok tt, w).
Proof.
  intros Ha. unfold quarantine, try_catch, rename. simpl. rewrite Ha.
  destruct (pending_files (fs w)); reflexivity.
Qed.

Lemma jsonAt_remove_text (file : string) (d : Dir) (raw : string) :
  lookup file d = Some (Text raw) ->
  forall f, jsonAt f (remove file d) = jsonAt f d.
Proof.
  intros Hl f. unfold jsonAt. destruct (String.eqb_spec f file) as [->|Hne].
  - now rewrite lookup_remove_eq, Hl.
  - now rewrite lookup_remove_ne.
Qed.

Lemma parsed_events_ext (d d' : Dir) (files : list string) :
  (forall f, jsonAt f d = jsonAt f d') ->
  parsed_events d files = parsed_events d' files.
Proof.
  intros H. unfold parsed_events. apply flat_map_ext. intros f. now rewrite H.
Qed.

(** The read loop never throws, leaves the trace alone, and returns the
    records of the files that parse, in listing order. *)
Lemma readEvents_run (files : list string) :
  forall (acc : list BaseEvent) (w : World) (d : Dir),
    pending_files (fs w) = Some d ->
    exists w',
      readEvents files acc w = (Ok (acc ++ parsed_events d files), w') /\
      trace w' = trace w /\
      exists d', pending_files (fs w') = Some d' /\
                 forall f, jsonAt f d' = jsonAt f d.
Proof.
  induction files as [|file rest IH]; intros acc w d Hp.
  - exists w. simpl. rewrite app_nil_r. eauto.
  - simpl. unfold bind at 1. unfold readOne. unfold try_catch at 1.
    unfold bind at 1.
    unfold readFile. simpl dirOf. rewrite Hp. unfold jsonAt at 1.
    destruct (lookup file d) as [[raw|e]|] eqn:El; simpl.
    + unfold bind at 1.
      destruct (processed_files (fs w)) as [a|] eqn:Ea.
      * rewrite (quarantine_moves file w d a (Text raw) Hp Ea El). simpl.
        match goal with |- context [readEvents rest acc ?w1] =>
          destruct (IH acc w1 (remove file d) eq_refl)
            as (w' & Hrun & Htr & d' & Hd' & Hjs)
        end.
        exists w'. rewrite Hrun.
        rewrite (parsed_events_ext _ _ rest (jsonAt_remove_text file d raw El)).
        split; [reflexivity|]. split; [exact Htr|].
        exists d'. split; [exact Hd'|]. intros f. rewrite Hjs.
        apply (jsonAt_remove_text file d raw El).
      * rewrite (quarantine_no_archive file w Ea). simpl.
        destruct (IH acc w d Hp) as (w' & Hrun & Htr & Hd).
        exists w'. rewrite Hrun. auto.
    + destruct (IH (acc ++ [e]) w d Hp) as (w' & Hrun & Htr & Hd).
      exists w'. rewrite Hrun, <- app_assoc. auto.
    + destruct (IH acc w d Hp) as (w' & Hrun & Htr & Hd).
      exists w'. rewrite Hrun. auto.
Qed.

(** [poll] is the processing loop over the sorted records that the read
    loop returns. *)
Lemma poll_unfold (bus : EventBus) (w : World) (d : Dir) :
  pending_files (fs w) = Some d ->
  poll bus w =
    processAll bus (sort_events (parsed_events d (listed d)))
      (snd (readEvents (listed d) [] w)).
Proof.
  intros Hp. unfold poll. rewrite try_rethrow.
  unfold bind at 1. unfold readdir. simpl dirOf. rewrite Hp.
  fold (listed d).
  destruct (readEvents_run (listed d) [] w d Hp) as (w' & Hrun & _).
  destruct (listed d) as [|f files] eqn:El.
  - reflexivity.
  - cbn [List.length Nat.eqb]. unfold bind at 1. rewrite Hrun. reflexivity.
Qed.

Lemma poll_no_directory (bus : EventBus) (w : World) :
  pending_files (fs w) = None -> poll bus w = (Throw ENOENT, w).
Proof.
  intros Hp. unfold poll. rewrite try_rethrow.
  unfold bind, readdir. simpl dirOf. now rewrite Hp.
Qed.

(** ** What a poll cycle leaves in the trace *)

Lemma dispatches_app (a b : list Obs) :
  dispatches (a ++ b) = dispatches a ++ dispatches b.
Proof. apply flat_map_app. Qed.

Lemma invoked_app (a b : list Obs) : invoked (a ++ b) = invoked a ++ invoked b.
Proof. apply flat_map_app. Qed.

Lemma dispatches_invocations (e : BaseEvent) (outs : list bool) :
  forall k, dispatches (invocations e k outs) = [].
Proof. induction outs as [|r outs IH]; intros k; simpl; auto. Qed.

Lemma invoked_invocations (e : BaseEvent) (outs : list bool) :
  forall k, invoked (invocations e k outs) = repeat e (List.length outs).
Proof.
  induction outs as [|r outs IH]; intros k; simpl; [reflexivity|].
  now rewrite IH.
Qed.

Lemma afterHandlers_trace (bus : EventBus) (event : BaseEvent) (w : World) :
  exists outcomes,
    List.length outcomes = List.length (handlers bus (type event)) /\
    trace (afterHandlers bus event w) =
      trace w ++ Dispatch event :: invocations event 0 outcomes.
Proof.
  unfold afterHandlers.
  destruct (callHandlers_run (fun _ => True) event (handlers bus (type event)))
    with (k := 0) (w := dispatched event w) as (outs & f & Hlen & _ & ->); auto.
  { apply Forall_forall. intros h _ e f _. exact I. }
  exists outs. split; [exact Hlen|]. simpl. now rewrite <- app_assoc.
Qed.

(** One record: the trace grows by the dispatch and by one call for each
    registered handler when the consumer is not yet listed, by the
    dispatch alone otherwise. *)
Lemma processEvent_trace (bus : EventBus) (event : BaseEvent) (w : World) :
  exists outcomes,
    trace (snd (processEvent bus event w)) =
      trace w ++ Dispatch event :: invocations event 0 outcomes /\
    (includes (processedBy event) (agentId bus) = Ok false ->
       List.length outcomes = List.length (handlers bus (type event))) /\
    (includes (processedBy event) (agentId bus) <> Ok false -> outcomes = []).
Proof.
  destruct (afterHandlers_trace bus event w) as (outs & Hlen & Htr).
  destruct (processedBy event) as [ids| s | |] eqn:Epb; simpl includes.
  - destruct (existsb (String.eqb (agentId bus)) ids) eqn:Ein.
    + exists []. rewrite processEvent_skip by (rewrite Epb; simpl; now rewrite Ein).
      repeat split; auto. discriminate.
    + exists outs. rewrite (processEvent_array bus event ids w Epb Ein).
      repeat split; auto; [|congruence].
      destruct (Nat.leb 3 _).
      * now rewrite silent_moveToProcessed.
      * now rewrite silent_updatePending.
  - destruct (str_includes s (agentId bus)) eqn:Ein.
    + exists []. rewrite processEvent_skip by (rewrite Epb; simpl; now rewrite Ein).
      repeat split; auto. discriminate.
    + exists outs. rewrite (processEvent_string bus event s w Epb Ein).
      repeat split; auto. congruence.
  - exists []. rewrite (processEvent_no_includes bus event w TypeError)
      by now rewrite Epb.
    repeat split; auto. discriminate.
  - exists []. rewrite (processEvent_no_includes bus event w TypeError)
      by now rewrite Epb.
    repeat split; auto. discriminate.
Qed.

Lemma processAll_cons (bus : EventBus) (event : BaseEvent)
    (rest : list BaseEvent) (w : World) :
  processAll bus (event :: rest) w =
    match fst (processEvent bus event w) with
    | Ok _ => processAll bus rest (snd (processEvent bus event w))
    | Throw e => (Throw e, snd (processEvent bus event w))
    end.
Proof.
  simpl. unfold bind. destruct (processEvent bus event w) as [[a|e] w1]; reflexivity.
Qed.

(** The loop dispatches a prefix of its list, all of it unless it throws,
    and calls handlers only with dispatched records that do not list the
    consumer yet. *)
Lemma processAll_run (bus : EventBus) (events : list BaseEvent) :
  forall w, exists tr done rest,
    trace (snd (processAll bus events w)) = trace w ++ tr /\
    events = done ++ rest /\
    dispatches tr = done /\
    (fst (processAll bus events w) = Ok tt -> rest = []) /\
    (forall x, In x (invoked tr) ->
       In x done /\ includes (processedBy x) (agentId bus) = Ok false).
Proof.
  induction events as [|e rest IH]; intros w.
  - exists [], [], []. simpl. rewrite app_nil_r. repeat split; auto; contradiction.
  - rewrite processAll_cons.
    destruct (processEvent_trace bus e w) as (outs & Htr & Hsome & Hnone).
    set (w1 := snd (processEvent bus e w)) in *.
    assert (Hinv : forall x, In x (invoked (Dispatch e :: invocations e 0 outs)) ->
                     x = e /\ includes (processedBy x) (agentId bus) = Ok false).
    { intros x Hx. simpl in Hx. rewrite invoked_invocations in Hx.
      apply repeat_spec in Hx as Hxe. subst x. split; [reflexivity|].
      destruct (includes (processedBy e) (agentId bus)) as [[|]|err] eqn:E;
        try reflexivity; rewrite Hnone in Hx by discriminate; contradiction. }
    destruct (fst (processEvent bus e w)) as [[]|err].
    + destruct (IH w1) as (tr & done & rest' & Htr' & Hsplit & Hd & Hok & Hi).
      exists ((Dispatch e :: invocations e 0 outs) ++ tr), (e :: done), rest'.
      rewrite Htr', Htr, <- app_assoc. split; [reflexivity|].
      split; [simpl; now rewrite Hsplit|].
      split; [rewrite dispatches_app; simpl; rewrite dispatches_invocations;
              simpl; now rewrite Hd|].
      split; [exact Hok|].
      intros x Hx. rewrite invoked_app in Hx. apply in_app_or in Hx as [Hx|Hx].
      * destruct (Hinv x Hx) as [-> H]. split; [now left | exact H].
      * destruct (Hi x Hx). split; [now right | assumption].
    + exists (Dispatch e :: invocations e 0 outs), [e], rest.
      simpl snd. simpl fst. split; [exact Htr|]. split; [reflexivity|].
      split; [simpl; now rewrite dispatches_invocations|].
      split; [discriminate|].
      intros x Hx. destruct (Hinv x Hx) as [-> H]. split; [now left | exact H].
Qed.

Lemma processEvent_well_formed (bus : EventBus) (event : BaseEvent) (w : World) :
  well_formed event -> fst (processEvent bus event w) = Ok tt.
Proof.
  intros [ids Epb].
  destruct (existsb (String.eqb (agentId bus)) ids) eqn:Ein.
  - rewrite processEvent_skip by (rewrite Epb; simpl; now rewrite Ein).
    reflexivity.
  - rewrite (processEvent_array bus event ids w Epb Ein).
    destruct (Nat.leb 3 _).
    + apply moveToProcessed_never_throws.
    + apply swallow_never_throws.
Qed.

Lemma processAll_well_formed (bus : EventBus) (events : list BaseEvent) :
  Forall well_formed events ->
  forall w, fst (processAll bus events w) = Ok tt.
Proof.
  induction 1 as [|e rest He _ IH]; intros w; [reflexivity|].
  rewrite processAll_cons, (processEvent_well_formed bus e w He). apply IH.
Qed.

(** ** The sort *)

Lemma insert_event_perm (x : BaseEvent) (l : list BaseEvent) :
  Permutation (insert_event x l) (x :: l).
Proof.
  induction l as [|y l IH]; simpl; [apply Permutation_refl|].
  destruct (compareTimestamps x y <=? 0)%Z; [apply Permutation_refl|].
  eapply Permutation_trans; [apply perm_skip, IH | apply perm_swap].
Qed.

Lemma sort_events_perm (l : list BaseEvent) : Permutation (sort_events l) l.
Proof.
  induction l as [|x l IH]; simpl; [constructor|].
  eapply Permutation_trans; [apply insert_event_perm | now apply perm_skip].
Qed.

Lemma insert_event_before_all (x : BaseEvent) (l : list BaseEvent) :
  Forall (ts_lt x) l -> insert_event x l = x :: l.
Proof.
  intros H. destruct l as [|y l]; [reflexivity|].
  inversion H as [|? ? (a & b & Ha & Hb & Hlt) _]; subst. simpl.
  unfold compareTimestamps. rewrite Ha, Hb.
  destruct (Z.leb_spec (a - b) 0); [reflexivity | lia].
Qed.

Lemma sort_events_sorted_id (l : list BaseEvent) :
  StronglySorted ts_lt l -> sort_events l = l.
Proof.
  induction 1 as [|x l Hs IH Hall]; simpl; [reflexivity|].
  rewrite IH. now apply insert_event_before_all.
Qed.

Lemma insert_event_comm (x y : BaseEvent) (l : list BaseEvent) :
  has_timestamp x -> has_timestamp y -> timestamp x <> timestamp y ->
  insert_event x (insert_event y l) = insert_event y (insert_event x l).
Proof.
  unfold has_timestamp. intros Hx Hy Hxy.
  destruct (timestamp x) as [a|] eqn:Ea; [|contradiction].
  destruct (timestamp y) as [b|] eqn:Eb; [|contradiction].
  assert (a <> b) by congruence.
  induction l as [|z l IH]; simpl.
  - unfold compareTimestamps. rewrite Ea, Eb.
    destruct (Z.leb_spec (a - b) 0), (Z.leb_spec (b - a) 0);
      try reflexivity; lia.
  - destruct (compareTimestamps y z <=? 0)%Z eqn:Eyz;
    destruct (compareTimestamps x z <=? 0)%Z eqn:Exz; simpl;
      rewrite ?Eyz, ?Exz;
      unfold compareTimestamps in *; rewrite ?Ea, ?Eb in *;
      destruct (timestamp z) as [c|];
      repeat match goal with
             | |- context [(?u <=? ?v)%Z] => destruct (Z.leb_spec u v)
             | H : (?u <=? ?v)%Z = _ |- _ =>
                 destruct (Z.leb_spec u v); try discriminate H; clear H
             end;
      try reflexivity; try lia.
    now rewrite IH.
Qed.

Lemma sort_events_permuted (l l' : list BaseEvent) :
  Permutation l l' ->
  Forall has_timestamp l -> NoDup (map timestamp l) ->
  sort_events l = sort_events l'.
Proof.
  induction 1 as [|x l l' Hp IH|x y l|l l' l'' Hp1 IH1 Hp2 IH2];
    intros Hts Hnd.
  - reflexivity.
  - simpl. inversion Hts; inversion Hnd; subst. now rewrite IH.
  - simpl. inversion Hts as [|? ? Hy Hts']; inversion Hts'; subst.
    inversion Hnd as [|? ? Hnin _]; subst.
    apply insert_event_comm; auto.
    intros Heq. apply Hnin. left. now symmetry.
  - rewrite IH1 by assumption. apply IH2.
    + eapply Permutation_Forall; eassumption.
    + eapply Permutation_NoDup; [apply Permutation_map; eassumption | assumption].
Qed.

Lemma ts_lt_distinct (l : list BaseEvent) :
  StronglySorted ts_lt l -> Forall has_timestamp l -> NoDup (map timestamp l).
Proof.
  induction 1 as [|x l Hs IH Hall]; intros Hts; simpl; constructor.
  - intros Hin. apply in_map_iff in Hin as (y & Heq & Hy).
    rewrite Forall_forall in Hall.
    destruct (Hall y Hy) as (a & b & Ha & Hb & Hlt). rewrite Ha, Hb in Heq.
    injection Heq as ->. lia.
  - apply IH. now inversion Hts.
Qed.

(** Whatever order a batch with distinct dates is read in, the sort hands
    it on oldest first. *)
Lemma sort_events_of_batch (batch read : list BaseEvent) :
  StronglySorted ts_lt batch -> Forall has_timestamp batch ->
  Permutation read batch ->
  sort_events read = batch.
Proof.
  intros Hs Hts Hp.
  rewrite <- (sort_events_sorted_id batch Hs). symmetry.
  apply sort_events_permuted; auto using Permutation_sym, ts_lt_distinct.
Qed.

(** ** Directories and their listings *)

Lemma lookup_in_nodup (d : Dir) (n : string) (c : Content) :
  NoDup (map fst d) -> In (n, c) d -> lookup n d = Some c.
Proof.
  induction d as [|[m c'] d IH]; simpl; intros Hnd Hin; [contradiction|].
  inversion Hnd as [|? ? Hnin Hnd']; subst.
  destruct Hin as [Heq|Hin].
  - injection Heq as -> ->. now rewrite String.eqb_refl.
  - destruct (String.eqb_spec n m) as [->|_]; [|now apply IH].
    exfalso. apply Hnin. apply in_map_iff. now exists (m, c).
Qed.

Lemma parsed_listed_sub (d0 d : Dir) :
  (forall n c, In (n, c) d -> lookup n d0 = Some c) ->
  parsed_events d0 (listed d) = events_of d.
Proof.
  induction d as [|[n c] d IH]; intros Hsub; [reflexivity|].
  unfold listed, events_of in *. simpl.
  destruct (isEventFile n) eqn:En; simpl.
  - unfold jsonAt at 1. rewrite (Hsub n c) by now left.
    rewrite <- IH by (intros; apply Hsub; now right).
    destruct c; reflexivity.
  - apply IH. intros; apply Hsub; now right.
Qed.

Lemma parsed_listed (d : Dir) :
  NoDup (map fst d) -> parsed_events d (listed d) = events_of d.
Proof.
  intros Hnd. apply parsed_listed_sub. intros n c. now apply lookup_in_nodup.
Qed.

Lemma events_of_combine (names : list string) :
  forall evs : list BaseEvent,
    List.length names = List.length evs ->
    Forall (fun n => isEventFile n = true) names ->
    events_of (combine names (map Json evs)) = evs.
Proof.
  induction names as [|n names IH]; intros [|e evs] Hlen Hall;
    try discriminate; [reflexivity|].
  inversion Hall as [|? ? Hn Hall']; subst.
  unfold events_of in *. simpl. rewrite Hn. simpl. f_equal.
  apply IH; auto.
Qed.

Lemma map_fst_combine (names : list string) :
  forall cs : list Content,
    List.length names = List.length cs -> map fst (combine names cs) = names.
Proof.
  induction names as [|n names IH]; intros [|c cs] Hlen;
    try discriminate; [reflexivity|].
  simpl. f_equal. apply IH. now injection Hlen.
Qed.

Lemma holds_batch_read (d : Dir) (names : list string) (batch : list BaseEvent) :
  holds_batch d names batch ->
  Permutation (parsed_events d (listed d)) batch.
Proof.
  intros (Hperm & Hnd & Hlen & Hall).
  assert (Hnames : map fst (combine names (map Json batch)) = names)
    by (apply map_fst_combine; now rewrite length_map).
  rewrite parsed_listed.
  - rewrite <- (events_of_combine names batch Hlen Hall).
    unfold events_of. now apply Permutation_flat_map.
  - eapply Permutation_NoDup;
      [apply Permutation_map, Permutation_sym, Hperm|].
    now rewrite Hnames.
Qed.

Lemma StronglySorted_prefix {A} (R : A -> A -> Prop) (l1 l2 : list A) :
  StronglySorted R (l1 ++ l2) -> StronglySorted R l1.
Proof.
  induction l1 as [|x l1 IH]; simpl; intros H; [constructor|].
  inversion H as [|? ? Hs Hall]; subst. constructor; [now apply IH|].
  apply Forall_app in Hall. tauto.
Qed.

Lemma StronglySorted_weaken {A} (R S : A -> A -> Prop) (l : list A) :
  (forall a b, R a b -> S a b) -> StronglySorted R l -> StronglySorted S l.
Proof.
  intros HRS. induction 1 as [|x l Hs IH Hall]; constructor; [exact IH|].
  eapply Forall_impl; [|exact Hall]. auto.
Qed.

Lemma ts_lt_le (a b : BaseEvent) : ts_lt a b -> ts_le a b.
Proof. intros (x & y & Ha & Hb & Hlt). exists x, y. repeat split; auto. lia. Qed.

(** The cycle of [poll] on a store whose pending directory is [d]. *)
Lemma poll_run (bus : EventBus) (w : World) (d : Dir) :
  pending_files (fs w) = Some d ->
  exists tr done rest,
    trace (snd (poll bus w)) = trace w ++ tr /\
    sort_events (parsed_events d (listed d)) = done ++ rest /\
    dispatches tr = done /\
    (fst (poll bus w) = Ok tt -> rest = []) /\
    (forall x, In x (invoked tr) ->
       In x done /\ includes (processedBy x) (agentId bus) = Ok false).
Proof.
  intros Hp. rewrite (poll_unfold bus w d Hp).
  destruct (readEvents_run (listed d) [] w d Hp) as (wq & Hrun & Htr & _).
  rewrite Hrun. simpl snd.
  destruct (processAll_run bus (sort_events (parsed_events d (listed d))) wq)
    as (tr & done & rest & H1 & H2 & H3 & H4 & H5).
  exists tr, done, rest. rewrite H1, Htr. auto.
Qed.

(** C8 (processing order).  The pending directory holds a batch of records
    dated [t1 < ... < tN], one per listed file, enumerated in any order.
    One poll cycle dispatches the records oldest first: the records it
    enters [processEvent] with are an initial segment of the batch in date
    order, hence in non-decreasing date order, and the whole batch unless
    the cycle throws, which it does not when every record is well formed. *)
Theorem processing_order (bus : EventBus) (w : World) (d : Dir)
    (names : list string) (batch : list BaseEvent) :
  pending_files (fs w) = Some d ->
  holds_batch d names batch ->
  Forall has_timestamp batch ->
  StronglySorted ts_lt batch ->
  exists tr done rest,
    trace (snd (poll bus w)) = trace w ++ tr /\
    dispatches tr = done /\
    batch = done ++ rest /\
    StronglySorted ts_le done /\
    (fst (poll bus w) = Ok tt -> rest = []) /\
    (Forall well_formed batch -> rest = []).
Proof.
  intros Hp Hb Hts Hs.
  destruct (poll_run bus w d Hp) as (tr & done & rest & H1 & H2 & H3 & H4 & _).
  rewrite (sort_events_of_batch batch _ Hs Hts (holds_batch_read _ _ _ Hb)) in H2.
  exists tr, done, rest. repeat split; auto.
  - apply (StronglySorted_weaken ts_lt ts_le); [exact ts_lt_le|].
    apply (StronglySorted_prefix _ done rest). now rewrite <- H2.
  - intros Hwf. apply H4.
    rewrite (poll_unfold bus w d Hp).
    apply processAll_well_formed.
    rewrite (sort_events_of_batch batch _ Hs Hts (holds_batch_read _ _ _ Hb)).
    exact Hwf.
Qed.

(** ** Further cycles *)

Lemma lookup_remove_some (name other : string) (d : Dir) (c : Content) :
  lookup name (remove other d) = Some c -> lookup name d = Some c.
Proof.
  destruct (String.eqb_spec name other) as [->|Hne].
  - rewrite lookup_remove_eq. discriminate.
  - now rewrite lookup_remove_ne.
Qed.

Lemma moveToProcessed_no_archive (eid : string) (w : World) :
  processed_files (fs w) = None -> moveToProcessed eid w = (Ok tt, w).
Proof.
  intros Ha. unfold moveToProcessed. unfold_io. simpl.
  destruct (pending_files (fs w)) as [d|] eqn:Ep; [|reflexivity].
  destruct (lookup (eventFileName eid) d) eqn:El; [|reflexivity].
  repeat (rewrite ?Ep, ?El, ?Ha; simpl). reflexivity.
Qed.

(** Archiving and quarantining only take resources out of the pending
    directory. *)
Lemma moveToProcessed_shrinks (eid : string) (w : World) (name : string)
    (c : Content) :
  pendingAt name (fs (snd (moveToProcessed eid w))) = Some c ->
  pendingAt name (fs w) = Some c.
Proof.
  destruct (pending_files (fs w)) as [d|] eqn:Ep.
  - destruct (lookup (eventFileName eid) d) as [c0|] eqn:El.
    + destruct (processed_files (fs w)) as [a|] eqn:Ea.
      * rewrite (moveToProcessed_moves eid w d a c0 Ep Ea El).
        unfold pendingAt. simpl. rewrite Ep. apply lookup_remove_some.
      * now rewrite (moveToProcessed_no_archive eid w Ea).
    + rewrite moveToProcessed_gone; [auto|].
      unfold pendingAt. now rewrite Ep.
  - rewrite moveToProcessed_gone; [auto|].
    unfold pendingAt. now rewrite Ep.
Qed.

Lemma quarantine_shrinks (file : string) (w : World) (name : string)
    (c : Content) :
  pendingAt name (fs (snd (quarantine file w))) = Some c ->
  pendingAt name (fs w) = Some c.
Proof.
  destruct (processed_files (fs w)) as [a|] eqn:Ea;
    [|now rewrite (quarantine_no_archive file w Ea)].
  destruct (pending_files (fs w)) as [d|] eqn:Ep.
  - destruct (lookup file d) as [c0|] eqn:El.
    + rewrite (quarantine_moves file w d a c0 Ep Ea El).
      unfold pendingAt. simpl. rewrite Ep. apply lookup_remove_some.
    + unfold quarantine, try_catch, rename. simpl.
      repeat (rewrite ?Ep, ?Ea, ?El; simpl). auto.
  - unfold quarantine, try_catch, rename. simpl. rewrite Ep. auto.
Qed.

(** Rewriting a pending resource changes that resource and nothing else
    that [poll] lists. *)
Lemma updatePending_lookup (event : BaseEvent) (w : World) (name : string)
    (c : Content) :
  isEventFile name = true ->
  pendingAt name (fs (snd (updatePending event w))) = Some c ->
  (name = eventFileName (id event) /\ c = Json event) \/
  pendingAt name (fs w) = Some c.
Proof.
  intros Hname.
  destruct (pendingAt (eventFileName (id event)) (fs w)) as [c0|] eqn:El;
    [|rewrite (updatePending_gone event w El); auto].
  unfold pendingAt in El.
  destruct (pending_files (fs w)) as [d|] eqn:Ep; [|discriminate].
  rewrite (updatePending_writes event w d c0 Ep El).
  unfold pendingAt. simpl. rewrite Ep.
  destruct (String.eqb_spec name (eventFileName (id event))) as [->|Hne].
  - rewrite lookup_write_eq. intros H. injection H as <-. now left.
  - rewrite lookup_write_ne by assumption.
    assert (name <> tempFileName (id event)).
    { intros ->. rewrite temp_not_listed in Hname. discriminate. }
    rewrite lookup_remove_ne, lookup_write_ne by assumption. now right.
Qed.

Lemma marked_own_writes (eid agent : string) :
  own_writes_keep agent (fun _ => True) (marked eid agent).
Proof.
  split.
  - intros e0 _ w Hm name e Hname Hl. apply (Hm name e Hname).
    now apply moveToProcessed_shrinks in Hl.
  - intros e0 ids _ Hpb w Hm name e Hname Hl Hid.
    apply updatePending_lookup in Hl as [[_ Heq]|Hl]; [|eauto|exact Hname].
    injection Heq as ->. simpl.
    rewrite existsb_eqb_true; [reflexivity|].
    apply in_or_app. right. now left.
Qed.

Lemma marked_quarantine (eid agent : string) :
  quarantine_keeps (marked eid agent).
Proof.
  intros file _ w Hm name e Hname Hl. apply (Hm name e Hname).
  now apply quarantine_shrinks in Hl.
Qed.

Lemma parsed_events_in (d : Dir) (files : list string) (e : BaseEvent) :
  In e (parsed_events d files) ->
  exists file, In file files /\ lookup file d = Some (Json e).
Proof.
  unfold parsed_events. intros H. apply in_flat_map in H as (file & Hf & He).
  exists file. split; [exact Hf|]. unfold jsonAt in He.
  destruct (lookup file d) as [[raw|e']|]; simpl in He; try contradiction.
  destruct He as [->|[]]. reflexivity.
Qed.

Lemma swallow_ok (m : M unit) (w : World) :
  try_catch m (fun _ => ret tt) w = (Ok tt, snd (m w)).
Proof. unfold try_catch, ret. destruct (m w) as [[[]|e] w']; reflexivity. Qed.

(** One cycle on a store where the record is marked calls no handler with
    it. *)
Lemma poll_skips_marked (bus : EventBus) (eid : string) (w : World) :
  marked eid (agentId bus) (fs w) ->
  exists tr,
    trace (snd (poll bus w)) = trace w ++ tr /\
    forall e, In e (invoked tr) -> id e <> eid.
Proof.
  intros Hm. destruct (pending_files (fs w)) as [d|] eqn:Ep.
  - destruct (poll_run bus w d Ep) as (tr & done & rest & H1 & H2 & H3 & _ & H5).
    exists tr. split; [exact H1|]. intros e He Hid.
    destruct (H5 e He) as [Hdone Hinc].
    assert (Hin : In e (parsed_events d (listed d))).
    { apply (Permutation_in e (sort_events_perm _)). rewrite H2.
      apply in_or_app. now left. }
    apply parsed_events_in in Hin as (file & Hfile & Hl).
    apply filter_In in Hfile as [_ Hname].
    assert (Hp : pendingAt file (fs w) = Some (Json e))
      by (unfold pendingAt; now rewrite Ep).
    rewrite (Hm file e Hname Hp Hid) in Hinc. discriminate.
  - exists []. rewrite (poll_no_directory bus w Ep), app_nil_r.
    split; [reflexivity | contradiction].
Qed.

Lemma updatePending_archive (event : BaseEvent) (w : World) :
  processed_files (fs (snd (updatePending event w))) = processed_files (fs w).
Proof.
  destruct (pendingAt (eventFileName (id event)) (fs w)) as [c|] eqn:El;
    [|now rewrite (updatePending_gone event w El)].
  unfold pendingAt in El.
  destruct (pending_files (fs w)) as [d|] eqn:Ed; [|discriminate].
  now rewrite (updatePending_writes event w d c Ed El).
Qed.

(** *** Counting handler calls *)

Lemma calls_app (eid : string) (k : nat) (a b : list Obs) :
  calls eid k (a ++ b) = calls eid k a + calls eid k b.
Proof. unfold calls. now rewrite filter_app, length_app. Qed.

Lemma calls_dispatch (eid : string) (k : nat) (e : BaseEvent) (tr : list Obs) :
  calls eid k (Dispatch e :: tr) = calls eid k tr.
Proof. reflexivity. Qed.

Lemma calls_invocations_other (eid : string) (k : nat) (e : BaseEvent)
    (outs : list bool) :
  id e <> eid -> forall j, calls eid k (invocations e j outs) = 0.
Proof.
  intros Hne. induction outs as [|r outs IH]; intros j; [reflexivity|].
  unfold calls in *. simpl.
  destruct (String.eqb_spec (id e) eid); [contradiction|]. simpl. apply IH.
Qed.

Lemma calls_invocations (eid : string) (k : nat) (e : BaseEvent)
    (outs : list bool) :
  forall j,
    calls eid k (invocations e j outs) <= 1 /\
    (k < j -> calls eid k (invocations e j outs) = 0).
Proof.
  induction outs as [|r outs IH]; intros j; [split; auto|].
  destruct (IH (S j)) as [H1 H2]. unfold calls in *. simpl.
  destruct (String.eqb (id e) eid); simpl.
  - destruct (Nat.eqb_spec j k) as [->|Hne]; simpl.
    + rewrite H2 by lia. split; [lia | intros; lia].
    + split; [exact H1 | intros Hlt; apply H2; lia].
  - split; [exact H1 | intros Hlt; apply H2; lia].
Qed.

Lemma calls_none (eid : string) (k : nat) (tr : list Obs) :
  (forall e, In e (invoked tr) -> id e <> eid) -> calls eid k tr = 0.
Proof.
  induction tr as [|o tr IH]; intros H; [reflexivity|].
  destruct o as [e|e k' r|l].
  - apply IH, H.
  - unfold calls in *. simpl.
    destruct (String.eqb_spec (id e) eid) as [Heq|Hne].
    + exfalso. apply (H e); [now left | exact Heq].
    + simpl. apply IH. intros x Hx. apply H. now right.
  - apply IH, H.
Qed.

(** One record: each handler position is called at most once, and not at
    all with another id or for a record that lists the consumer. *)
Lemma processEvent_calls (bus : EventBus) (eid : string) (e : BaseEvent)
    (w : World) :
  exists tr,
    trace (snd (processEvent bus e w)) = trace w ++ tr /\
    (forall k, calls eid k tr <= 1) /\
    (id e <> eid -> forall k, calls eid k tr = 0) /\
    (includes (processedBy e) (agentId bus) <> Ok false ->
     forall k, calls eid k tr = 0).
Proof.
  destruct (processEvent_trace bus e w) as (outs & Htr & _ & Hnone).
  exists (Dispatch e :: invocations e 0 outs). split; [exact Htr|].
  split; [|split].
  - intros k. rewrite calls_dispatch. apply calls_invocations.
  - intros Hne k. rewrite calls_dispatch. now apply calls_invocations_other.
  - intros Hseen k. now rewrite (Hnone Hseen).
Qed.

Lemma processAll_others (bus : EventBus) (eid : string) (evs : list BaseEvent) :
  Forall (fun e => id e <> eid) evs ->
  forall w, exists tr,
    trace (snd (processAll bus evs w)) = trace w ++ tr /\
    forall k, calls eid k tr = 0.
Proof.
  intros Hall w.
  destruct (processAll_run bus evs w)
    as (tr & done & rest & H1 & H2 & _ & _ & H5).
  exists tr. split; [exact H1|]. intros k. apply calls_none. intros e He.
  destruct (H5 e He) as [Hd _]. rewrite Forall_forall in Hall. apply Hall.
  rewrite H2. apply in_or_app. now left.
Qed.

(** *** Stores that persist the mark *)

Lemma NoDup_remove (name : string) (d : Dir) :
  NoDup (map fst d) -> NoDup (map fst (remove name d)).
Proof.
  unfold remove. induction d as [|[n c] d IH]; simpl; intros H; [constructor|].
  inversion H as [|? ? Hn Hd]; subst.
  destruct (negb (String.eqb name n)); simpl; [|now apply IH].
  constructor; [|now apply IH]. intros Hin. apply Hn.
  apply in_map_iff in Hin as ([n' c'] & Heq & Hin). simpl in Heq. subst n'.
  apply filter_In in Hin as [Hin _]. apply in_map_iff. now exists (n, c').
Qed.

Lemma remove_not_in (name : string) (d : Dir) :
  ~ In name (map fst (remove name d)).
Proof.
  intros Hin. apply in_map_iff in Hin as ([n c] & Heq & Hin).
  simpl in Heq. subst n. apply filter_In in Hin as [_ H]. simpl in H.
  rewrite String.eqb_refl in H. discriminate H.
Qed.

Lemma NoDup_write (name : string) (c : Content) (d : Dir) :
  NoDup (map fst d) -> NoDup (map fst (write name c d)).
Proof.
  intros H. unfold write. rewrite map_app. simpl.
  apply NoDup_app; [now apply NoDup_remove | repeat constructor; intros [] |].
  intros x Hx [<-|[]]. now apply remove_not_in in Hx.
Qed.

Lemma quarantine_absent (file : string) (w : World) :
  pendingAt file (fs w) = None -> quarantine file w = (Ok tt, w).
Proof.
  intros H. unfold quarantine, try_catch, rename, pendingAt in *. simpl.
  destruct (pending_files (fs w)) as [d|]; [|reflexivity].
  destruct (processed_files (fs w)); [|reflexivity].
  rewrite H. reflexivity.
Qed.

Lemma persists_moveToProcessed (eid eid0 : string) :
  keeps (persists eid) (moveToProcessed eid0).
Proof.
  intros w (Ha & Hnd & Hrec).
  destruct (pendingAt (eventFileName eid0) (fs w)) as [c|] eqn:El;
    [|rewrite (moveToProcessed_gone eid0 w El); exact (conj Ha (conj Hnd Hrec))].
  unfold pendingAt in El.
  destruct (pending_files (fs w)) as [d|] eqn:Ep; [|discriminate].
  destruct (processed_files (fs w)) as [a|] eqn:Ea; [|contradiction].
  rewrite (moveToProcessed_moves eid0 w d a c Ep Ea El).
  unfold persists, pendingAt. simpl. split; [discriminate|]. split.
  - intros d' Hd'. injection Hd' as <-. now apply NoDup_remove, Hnd.
  - intros name e Hn Hl Hid. apply (Hrec name e Hn); [|exact Hid].
    unfold pendingAt. rewrite Ep. now apply lookup_remove_some in Hl.
Qed.

Lemma persists_updatePending (eid : string) (e : BaseEvent) :
  well_formed e -> keeps (persists eid) (updatePending e).
Proof.
  intros Hwf w (Ha & Hnd & Hrec).
  destruct (pendingAt (eventFileName (id e)) (fs w)) as [c|] eqn:El;
    [|rewrite (updatePending_gone e w El); exact (conj Ha (conj Hnd Hrec))].
  split; [rewrite updatePending_archive; exact Ha|]. split.
  - unfold pendingAt in El.
    destruct (pending_files (fs w)) as [d|] eqn:Ep; [|discriminate].
    rewrite (updatePending_writes e w d c Ep El). simpl.
    intros d' Hd'. injection Hd' as <-.
    now apply NoDup_write, NoDup_remove, NoDup_write, Hnd.
  - intros name e0 Hn Hl Hid.
    destruct (updatePending_lookup e w name (Json e0) Hn Hl) as [[Hname Heq]|Hold].
    + injection Heq as ->. split; [now rewrite Hname, Hid | exact Hwf].
    + exact (Hrec name e0 Hn Hold Hid).
Qed.

Lemma persists_own_writes (eid agent : string) :
  own_writes_keep agent (fun _ => True) (persists eid).
Proof.
  split.
  - intros e _. apply persists_moveToProcessed.
  - intros e ids _ _. apply persists_updatePending.
    now exists (ids ++ [agent]).
Qed.

Lemma persists_quarantine (eid : string) : quarantine_keeps (persists eid).
Proof.
  intros file _ w (Ha & Hnd & Hrec).
  destruct (pendingAt file (fs w)) as [c|] eqn:El;
    [|rewrite (quarantine_absent file w El); exact (conj Ha (conj Hnd Hrec))].
  unfold pendingAt in El.
  destruct (pending_files (fs w)) as [d|] eqn:Ep; [|discriminate].
  destruct (processed_files (fs w)) as [a|] eqn:Ea; [|contradiction].
  rewrite (quarantine_moves file w d a c Ep Ea El).
  unfold persists, pendingAt. simpl. split; [discriminate|]. split.
  - intros d' Hd'. injection Hd' as <-. now apply NoDup_remove, Hnd.
  - intros name e Hn Hl Hid. apply (Hrec name e Hn); [|exact Hid].
    unfold pendingAt. rewrite Ep. now apply lookup_remove_some in Hl.
Qed.

(** Where the file named after the id is gone, no pending record of that
    id is left to mark. *)
Lemma marked_when_gone (eid agent : string) (f : FS) :
  persists eid f ->
  pendingAt (eventFileName eid) f = None ->
  marked eid agent f.
Proof.
  intros (_ & _ & Hrec) Hgone name e Hn Hl Hid.
  destruct (Hrec name e Hn Hl Hid) as [-> _]. rewrite Hgone in Hl. discriminate.
Qed.

Lemma moveToProcessed_removes (eid : string) (w : World) :
  processed_files (fs w) <> None ->
  pendingAt (eventFileName eid) (fs (snd (moveToProcessed eid w))) = None.
Proof.
  intros Ha.
  destruct (pendingAt (eventFileName eid) (fs w)) as [c|] eqn:El;
    [|now rewrite (moveToProcessed_gone eid w El)].
  unfold pendingAt in El.
  destruct (pending_files (fs w)) as [d|] eqn:Ep; [|discriminate].
  destruct (processed_files (fs w)) as [a|] eqn:Ea; [|contradiction].
  rewrite (moveToProcessed_moves eid w d a c Ep Ea El).
  unfold pendingAt. simpl. apply lookup_remove_eq.
Qed.

(** Processing the record of id [eid] for the first time leaves it
    marked, or gone from the pending directory. *)
Lemma processEvent_marks (bus : EventBus) (e : BaseEvent) (ids : list string)
    (w : World) :
  bus_preserves (persists (id e)) bus ->
  processedBy e = PBArray ids ->
  ~ In (agentId bus) ids ->
  persists (id e) (fs w) ->
  marked (id e) (agentId bus) (fs (snd (processEvent bus e w))).
Proof.
  intros Hb Hids Hnew Hp.
  rewrite (processEvent_array bus e ids w Hids)
    by now apply existsb_eqb_false.
  pose proof (afterHandlers_keeps _ bus e w Hb Hp) as Hp1.
  set (w1 := afterHandlers bus e w) in *.
  destruct (Nat.leb 3 _).
  - apply marked_when_gone; [now apply persists_moveToProcessed|].
    apply moveToProcessed_removes. apply Hp1.
  - set (e' := setProcessedBy (PBArray (ids ++ [agentId bus])) e).
    assert (Hp2 : persists (id e) (fs (snd (updatePending e' w1)))).
    { apply persists_updatePending; [|exact Hp1].
      now exists (ids ++ [agentId bus]). }
    destruct (pendingAt (eventFileName (id e)) (fs w1)) as [c|] eqn:El.
    + intros name e0 Hn Hl Hid.
      destruct Hp2 as (_ & _ & Hrec).
      destruct (Hrec name e0 Hn Hl Hid) as [-> _].
      assert (Hnow : pendingAt (eventFileName (id e))
                       (fs (snd (updatePending e' w1))) = Some (Json e')).
      { unfold pendingAt in El.
        destruct (pending_files (fs w1)) as [d|] eqn:Ep; [|discriminate].
        rewrite (updatePending_writes e' w1 d c Ep El).
        unfold pendingAt. simpl. apply lookup_write_eq. }
      rewrite Hnow in Hl. injection Hl as <-. simpl.
      rewrite existsb_eqb_true; [reflexivity|].
      apply in_or_app. right. now left.
    + apply marked_when_gone; [exact Hp2|].
      rewrite (updatePending_gone e' w1); assumption.
Qed.

Lemma filter_nil_forall {A} (p : A -> bool) (l : list A) :
  filter p l = [] -> Forall (fun x => p x = false) l.
Proof.
  induction l as [|x l IH]; simpl; [constructor|].
  destruct (p x) eqn:E; [discriminate|]. constructor; auto.
Qed.

Lemma Permutation_filter_length {A} (p : A -> bool) (l l' : list A) :
  Permutation l l' -> List.length (filter p l) = List.length (filter p l').
Proof.
  induction 1 as [|x l l' _ IH|x y l|l l' l'' _ IH1 _ IH2]; simpl.
  - reflexivity.
  - destruct (p x); simpl; now rewrite IH.
  - destruct (p x), (p y); reflexivity.
  - now rewrite IH1.
Qed.

(** Among the records read from files with distinct names, at most one
    comes from the file named after the id. *)
Lemma parsed_events_count (eid : string) (d : Dir) (files : list string) :
  NoDup files ->
  (forall file e, In file files -> lookup file d = Some (Json e) ->
                  id e = eid -> file = eventFileName eid) ->
  List.length (filter (carries eid) (parsed_events d files)) <= 1 /\
  (~ In (eventFileName eid) files ->
   List.length (filter (carries eid) (parsed_events d files)) = 0).
Proof.
  induction 1 as [|file files Hnotin Hnd IH]; intros Hname; [split; auto|].
  destruct IH as [IH1 IH2]; [intros; eapply Hname; eauto; now right|].
  unfold parsed_events in *. simpl. rewrite filter_app, length_app.
  unfold jsonAt at 1 3.
  destruct (lookup file d) as [[raw|e]|] eqn:El; simpl;
    try (split; [exact IH1 | intros Hn; apply IH2; tauto]).
  unfold carries at 1 3.
  destruct (String.eqb_spec (id e) eid) as [Heq|Hne]; simpl.
  - assert (file = eventFileName eid)
      by (apply (Hname file e); [now left | exact El | exact Heq]).
    subst file. rewrite IH2 by exact Hnotin. split; [lia|].
    intros Hn. exfalso. apply Hn. now left.
  - split; [exact IH1 | intros Hn; apply IH2; tauto].
Qed.

Section ExactlyOnce.

Variable bus : EventBus.
Variable eid : string.

(** Handlers do not take the consumer's mark off the record, *)
Hypothesis Hhandlers : bus_preserves (marked eid (agentId bus)) bus.

(** and they leave the store one that persists the mark. *)
Hypothesis Hstore : bus_preserves (persists eid) bus.

Lemma cycles_skip_marked (n : nat) (w : World) :
  marked eid (agentId bus) (fs w) ->
  exists tr,
    trace (snd (pollCycles n bus w)) = trace w ++ tr /\
    (forall e, In e (invoked tr) -> id e <> eid) /\
    marked eid (agentId bus) (fs (snd (pollCycles n bus w))).
Proof using Hhandlers.
  revert w. induction n as [|n IH]; intros w Hm.
  - exists []. simpl. rewrite app_nil_r. repeat split; auto.
  - simpl. unfold bind. rewrite swallow_ok.
    destruct (poll_skips_marked bus eid w Hm) as (tr1 & Htr1 & Hinv1).
    pose proof (poll_keeps bus _ _ (marked_own_writes eid (agentId bus))
                  Hhandlers (fun _ => I)
                  (marked_quarantine eid (agentId bus)) w Hm) as Hm1.
    destruct (IH _ Hm1) as (tr2 & Htr2 & Hinv2 & Hm2).
    exists (tr1 ++ tr2). rewrite Htr2, Htr1, <- app_assoc.
    repeat split; auto.
    intros e He. rewrite invoked_app in He.
    apply in_app_or in He as [He|He]; auto.
Qed.

(** The processing loop over a batch that holds the record at most once:
    either no handler is called with it, or each at most once and the
    record is marked afterwards. *)
Lemma processAll_once (evs : list BaseEvent) :
  forall w,
    List.length (filter (carries eid) evs) <= 1 ->
    Forall (fun e => id e = eid -> well_formed e) evs ->
    persists eid (fs w) ->
    exists tr,
      trace (snd (processAll bus evs w)) = trace w ++ tr /\
      persists eid (fs (snd (processAll bus evs w))) /\
      ((forall k, calls eid k tr = 0) \/
       ((forall k, calls eid k tr <= 1) /\
        marked eid (agentId bus) (fs (snd (processAll bus evs w))))).
Proof using Hhandlers Hstore.
  induction evs as [|e rest IH]; intros w Hcount Hwf Hp.
  - exists []. simpl. rewrite app_nil_r. auto.
  - inversion Hwf as [|? ? He Hrest]; subst.
    rewrite processAll_cons.
    destruct (processEvent_calls bus eid e w) as (tr1 & Htr1 & Hle & Hother & Hseen).
    pose proof (processEvent_keeps bus (fun _ => True) (persists eid)
                  (persists_own_writes eid (agentId bus)) Hstore e I w Hp) as Hp1.
    set (w1 := snd (processEvent bus e w)) in *.
    simpl in Hcount. unfold carries at 1 in Hcount.
    destruct (String.eqb_spec (id e) eid) as [Heq|Hne].
    + simpl in Hcount.
      assert (Hnone : Forall (fun x => id x <> eid) rest).
      { assert (Hnil : filter (carries eid) rest = [])
          by (destruct (filter (carries eid) rest); [reflexivity | simpl in Hcount; lia]).
        apply filter_nil_forall in Hnil.
        eapply Forall_impl; [|exact Hnil]. intros x Hx Hid.
        unfold carries in Hx. rewrite Hid, String.eqb_refl in Hx. discriminate. }
      destruct (He Heq) as [ids Hids].
      rewrite (processEvent_well_formed bus e w (He Heq)).
      destruct (processAll_others bus eid rest Hnone w1) as (tr2 & Htr2 & Hz).
      exists (tr1 ++ tr2). rewrite Htr2. subst w1. rewrite Htr1, <- app_assoc.
      split; [reflexivity|].
      split.
      { apply (processAll_keeps bus (fun _ => True) (persists eid)
                 (persists_own_writes eid (agentId bus)) Hstore rest);
          [apply Forall_forall; auto | exact Hp1]. }
      destruct (existsb (String.eqb (agentId bus)) ids) eqn:Ein.
      * left. intros k. rewrite calls_app, Hz, Hseen; [reflexivity|].
        rewrite Hids. simpl. rewrite Ein. discriminate.
      * right. split.
        { intros k. rewrite calls_app, Hz. specialize (Hle k). lia. }
        apply (processAll_keeps bus (fun _ => True) (marked eid (agentId bus))
                 (marked_own_writes eid (agentId bus)) Hhandlers rest);
          [apply Forall_forall; auto|].
        subst eid. apply (processEvent_marks bus e ids w Hstore Hids); [|exact Hp].
        intros Hin. apply existsb_eqb_true in Hin. congruence.
    + destruct (fst (processEvent bus e w)) as [[]|err] eqn:Er.
      * destruct (IH w1 Hcount Hrest Hp1) as (tr2 & Htr2 & Hp2 & Hcases).
        exists (tr1 ++ tr2). rewrite Htr2. subst w1. rewrite Htr1, <- app_assoc.
        split; [reflexivity|]. split; [exact Hp2|].
        destruct Hcases as [Hz|[Hle2 Hm]].
        { left. intros k. now rewrite calls_app, Hz, (Hother Hne). }
        { right. split; [|exact Hm]. intros k.
          rewrite calls_app, (Hother Hne). apply Hle2. }
      * exists tr1. simpl snd. split; [exact Htr1|]. split; [exact Hp1|].
        left. now apply Hother.
Qed.

Lemma poll_once (w : World) :
  persists eid (fs w) ->
  exists tr,
    trace (snd (poll bus w)) = trace w ++ tr /\
    persists eid (fs (snd (poll bus w))) /\
    ((forall k, calls eid k tr = 0) \/
     ((forall k, calls eid k tr <= 1) /\
      marked eid (agentId bus) (fs (snd (poll bus w))))).
Proof using Hhandlers Hstore.
  intros Hp.
  destruct (pending_files (fs w)) as [d|] eqn:Ep.
  - rewrite (poll_unfold bus w d Ep).
    destruct (readEvents_run (listed d) [] w d Ep) as (w0 & Hrun & Htr0 & _).
    assert (Hp0 : persists eid (fs (snd (readEvents (listed d) [] w)))).
    { apply (readEvents_keeps (persists eid)); [|exact Hp].
      apply Forall_forall. intros f Hf. apply filter_In in Hf as [_ Hf].
      now apply persists_quarantine. }
    rewrite Hrun in Hp0 |- *. simpl snd in Hp0 |- *.
    destruct Hp as (_ & Hnd & Hrec).
    destruct (processAll_once (sort_events (parsed_events d (listed d))) w0)
      as (tr & Htr & Hrest); [| |exact Hp0|].
    + rewrite (Permutation_filter_length _ _ _ (sort_events_perm _)).
      apply parsed_events_count.
      * unfold listed. now apply NoDup_filter, Hnd.
      * intros file e Hf Hl Hid. apply filter_In in Hf as [_ Hf].
        apply (Hrec file e Hf); [|exact Hid].
        unfold pendingAt. now rewrite Ep.
    + apply (Permutation_Forall (Permutation_sym (sort_events_perm _))).
      apply Forall_forall. intros e He Hid.
      apply parsed_events_in in He as (file & Hf & Hl).
      apply filter_In in Hf as [_ Hf].
      apply (Hrec file e Hf); [|exact Hid].
      unfold pendingAt. now rewrite Ep.
    + exists tr. rewrite Htr, Htr0. auto.
  - rewrite (poll_no_directory bus w Ep). exists []. simpl.
    rewrite app_nil_r. auto.
Qed.

(** The id is a plain file name. *)
Hypothesis Hplain : plain_id eid = true.

(** C2, as amended.  (a) Once the consumer's identity is in the persisted
    [processedBy] of the record with id [eid], any number [n] of further
    poll cycles of that consumer call no handler with a record of that
    id: [processEvent] returns before the handler loop.  (b) On a store
    that persists the mark (there is an archive directory, and the
    record is filed under its id, a plain file name, with an array for
    [processedBy]), any number [n] of poll cycles run one after the
    other call each handler of the consumer at most once with a record
    of that id. *)
Theorem exactly_once_per_consumer (n : nat) (w : World) :
  (marked eid (agentId bus) (fs w) ->
   exists tr,
     trace (snd (pollCycles n bus w)) = trace w ++ tr /\
     (forall e, In e (invoked tr) -> id e <> eid) /\
     marked eid (agentId bus) (fs (snd (pollCycles n bus w)))) /\
  (persists eid (fs w) ->
   exists tr,
     trace (snd (pollCycles n bus w)) = trace w ++ tr /\
     forall k, calls eid k tr <= 1).
Proof using Hplain Hhandlers Hstore.
  split; [apply cycles_skip_marked|].
  revert w. induction n as [|n IH]; intros w Hp.
  - exists []. simpl. rewrite app_nil_r. split; [reflexivity|].
    intros k. unfold calls. simpl. lia.
  - simpl. unfold bind. rewrite swallow_ok.
    destruct (poll_once w Hp) as (tr1 & Htr1 & Hp1 & [Hz|[Hle Hm]]).
    + destruct (IH _ Hp1) as (tr2 & Htr2 & Hle2).
      exists (tr1 ++ tr2). rewrite Htr2, Htr1, <- app_assoc.
      split; [reflexivity|]. intros k. rewrite calls_app, Hz. apply Hle2.
    + destruct (cycles_skip_marked n _ Hm) as (tr2 & Htr2 & Hinv & _).
      exists (tr1 ++ tr2). rewrite Htr2, Htr1, <- app_assoc.
      split; [reflexivity|]. intros k.
      rewrite calls_app, (calls_none eid k tr2 Hinv). specialize (Hle k). lia.
Qed.

End ExactlyOnce.

Lemma handlerOutcomes_length (event : BaseEvent) (hs : list EventHandler) :
  forall f, List.length (handlerOutcomes event hs f) = List.length hs.
Proof.
  induction hs as [|h hs IH]; intros f; simpl; [reflexivity|].
  destruct (h event f) as [r f']. simpl. now rewrite IH.
Qed.

Lemma callHandlers_outcomes (event : BaseEvent) (hs : list EventHandler) :
  forall (k : nat) (w : World),
    trace (snd (callHandlers event hs k w)) =
      trace w ++ invocations event k (handlerOutcomes event hs (fs w)).
Proof.
  induction hs as [|h hs IH]; intros k w; simpl.
  - now rewrite app_nil_r.
  - unfold bind, try_catch, invoke, ret.
    destruct (h event (fs w)) as [r f1] eqn:Eh.
    destruct r as [[]|e]; rewrite IH; simpl; now rewrite <- app_assoc.
Qed.

Section HandlerFailure.

Variable bus : EventBus.
Variable event : BaseEvent.
Variable ids : list string.
Variable rest : list BaseEvent.
Variable w : World.

Hypothesis Hids : processedBy event = PBArray ids.
Hypothesis Hnew : ~ In (agentId bus) ids.
Hypothesis Hhandlers : bus_preserves (in_place event) bus.
Hypothesis Hplace : in_place event (fs w).

Let name := eventFileName (id event).
Let marked_event := setProcessedBy (PBArray (ids ++ [agentId bus])) event.
Let w' := snd (processEvent bus event w).

(** C9 (handler failure isolation).  Whatever the handlers registered
    for the record's type do, resolve or throw, each of them is called,
    in registration order: the trace has one call per handler, with the
    outcome of each, a throwing one included.  The record is then
    persisted with the consumer appended to [processedBy], or archived,
    and the cycle goes on with the records after it. *)
Theorem handler_failure_isolation :
  let outcomes := handlerOutcomes event (handlers bus (type event)) (fs w) in
  List.length outcomes = List.length (handlers bus (type event)) /\
  trace w' = trace w ++ Dispatch event :: invocations event 0 outcomes /\
  (pendingAt name (fs w') = Some (Json marked_event) \/
   (pendingAt name (fs w') = None /\
    archiveAt name (fs w') = Some (Json event))) /\
  processAll bus (event :: rest) w = processAll bus rest w'.
Proof.
  assert (Hfresh : existsb (String.eqb (agentId bus)) ids = false)
    by (apply existsb_eqb_false; exact Hnew).
  split; [apply handlerOutcomes_length|]. split; [|split].
  - subst w'. rewrite (processEvent_array bus event ids w Hids Hfresh).
    assert (Htr : trace (afterHandlers bus event w) =
                  trace w ++ Dispatch event ::
                    invocations event 0
                      (handlerOutcomes event (handlers bus (type event)) (fs w))).
    { unfold afterHandlers. rewrite callHandlers_outcomes. simpl.
      now rewrite <- app_assoc. }
    destruct (Nat.leb 3 _).
    + now rewrite silent_moveToProcessed.
    + now rewrite silent_updatePending.
  - pose proof (afterHandlers_keeps _ bus event w Hhandlers Hplace) as [Hp Ha].
    subst w'. rewrite (processEvent_array bus event ids w Hids Hfresh).
    set (w1 := afterHandlers bus event w) in *.
    unfold pendingAt in Hp.
    destruct (pending_files (fs w1)) as [d|] eqn:Ed; [|discriminate].
    destruct (processed_files (fs w1)) as [a|] eqn:Ea; [|contradiction].
    destruct (Nat.leb 3 _).
    + right. rewrite (moveToProcessed_moves _ _ d a (Json event) Ed Ea Hp).
      unfold pendingAt, archiveAt. simpl. fold name.
      now rewrite lookup_remove_eq, lookup_write_eq.
    + left. fold marked_event.
      rewrite (updatePending_writes marked_event w1 d (Json event) Ed Hp).
      unfold pendingAt. simpl. fold name. now rewrite lookup_write_eq.
  - rewrite processAll_cons.
    rewrite processEvent_well_formed by (exists ids; exact Hids).
    reflexivity.
Qed.

End HandlerFailure.

(** ** Quarantine *)

Lemma quarantineName_inj (a b : string) :
  quarantineName a = quarantineName b -> a = b.
Proof. unfold quarantineName. simpl. intros H. now injection H. Qed.

Lemma quarantine_quarantines (file raw : string) (w : World) :
  waiting file raw (fs w) -> quarantined file raw (fs (snd (quarantine file w))).
Proof.
  intros [Hp Ha]. unfold pendingAt in Hp.
  destruct (pending_files (fs w)) as [d|] eqn:Ed; [|discriminate].
  destruct (processed_files (fs w)) as [a|] eqn:Ea; [|contradiction].
  rewrite (quarantine_moves file w d a (Text raw) Ed Ea Hp).
  unfold quarantined, pendingAt, archiveAt. simpl.
  now rewrite lookup_remove_eq, lookup_write_eq.
Qed.

(** Quarantining one file leaves the rest of both directories alone. *)
Lemma quarantine_other (file : string) (w : World) (name : string) :
  name <> file ->
  pendingAt name (fs (snd (quarantine file w))) = pendingAt name (fs w) /\
  archiveAt (quarantineName name) (fs (snd (quarantine file w))) =
    archiveAt (quarantineName name) (fs w) /\
  (processed_files (fs w) <> None ->
   processed_files (fs (snd (quarantine file w))) <> None).
Proof.
  intros Hne.
  destruct (processed_files (fs w)) as [a|] eqn:Ea;
    [|rewrite (quarantine_no_archive file w Ea); simpl; auto].
  destruct (pendingAt file (fs w)) as [c|] eqn:El.
  - unfold pendingAt in El.
    destruct (pending_files (fs w)) as [d|] eqn:Ed; [|discriminate].
    rewrite (quarantine_moves file w d a c Ed Ea El).
    unfold pendingAt, archiveAt. simpl. rewrite Ed, Ea.
    rewrite lookup_remove_ne by assumption.
    rewrite lookup_write_ne; [repeat split; discriminate|].
    intros H. now apply quarantineName_inj in H.
  - assert (Hsame : quarantine file w = (Ok tt, w)).
    { unfold quarantine, try_catch, rename, pendingAt in *. simpl.
      destruct (pending_files (fs w)) as [d|]; [|reflexivity].
      rewrite Ea, El. reflexivity. }
    rewrite Hsame. simpl. rewrite Ea. auto.
Qed.

Lemma quarantined_quarantine (file raw : string) :
  quarantine_keeps (quarantined file raw).
Proof.
  intros other _ w [Hp Ha]. destruct (String.eqb_spec file other) as [<-|Hne].
  - assert (Hsame : quarantine file w = (Ok tt, w)).
    { unfold quarantine, try_catch, rename, pendingAt in *. simpl.
      destruct (pending_files (fs w)) as [d|]; [|reflexivity].
      destruct (processed_files (fs w)); [|reflexivity].
      rewrite Hp. reflexivity. }
    rewrite Hsame. now split.
  - destruct (quarantine_other other w file Hne) as (H1 & H2 & _).
    split; [now rewrite H1 | now rewrite H2].
Qed.

Lemma readOne_waiting (file raw other : string) (acc : list BaseEvent) :
  other <> file -> keeps (waiting file raw) (readOne other acc).
Proof.
  intros Hne. apply readOne_keeps. intros w [Hp Ha].
  assert (Hne' : file <> other) by congruence.
  destruct (quarantine_other other w file Hne') as (H1 & _ & H3).
  split; [now rewrite H1 | now apply H3].
Qed.

Lemma readOne_quarantines (file raw : string) (acc : list BaseEvent) (w : World) :
  waiting file raw (fs w) ->
  quarantined file raw (fs (snd (readOne file acc w))).
Proof.
  intros Hw. pose proof Hw as [Hp _].
  unfold readOne, try_catch, bind, readFile. simpl dirOf.
  unfold pendingAt in Hp.
  destruct (pending_files (fs w)) as [d|] eqn:Ed; [|discriminate].
  rewrite Hp. simpl.
  pose proof (quarantine_quarantines file raw w Hw) as Hq.
  destruct (quarantine file w) as [[[]|e] w1]; exact Hq.
Qed.

(** The read loop quarantines the unparseable file it meets. *)
Lemma readEvents_quarantines (file raw : string) (files : list string) :
  In file files ->
  Forall (fun name => isEventFile name = true) files ->
  forall acc w,
    waiting file raw (fs w) ->
    quarantined file raw (fs (snd (readEvents files acc w))).
Proof.
  induction files as [|g files IH]; intros Hin Hall acc w Hw; [contradiction|].
  inversion Hall as [|? ? Hg Hall']; subst.
  simpl. unfold bind.
  destruct (String.eqb_spec g file) as [->|Hne].
  - pose proof (readOne_quarantines file raw acc w Hw) as Hq.
    destruct (readOne file acc w) as [[evs|e] w1]; simpl in Hq; [|exact Hq].
    apply (readEvents_keeps (quarantined file raw)); [|exact Hq].
    eapply Forall_impl; [|exact Hall']. intros name Hname.
    now apply quarantined_quarantine.
  - pose proof (readOne_waiting file raw g acc Hne w Hw) as Hw1.
    destruct (readOne g acc w) as [[evs|e] w1] eqn:E1; simpl in Hw1.
    + apply IH; auto. destruct Hin; [contradiction | assumption].
    + exfalso. unfold readOne in E1.
      pose proof (f_equal fst E1) as H. simpl in H.
      unfold try_catch, ret in H.
      destruct (bind (readFile PendingDir g) _ w) as [[x|x] y]; discriminate.
Qed.

Lemma moveToProcessed_archive_frame (eid : string) (w : World) (g : string) :
  g <> eventFileName eid ->
  archiveAt g (fs (snd (moveToProcessed eid w))) = archiveAt g (fs w).
Proof.
  intros Hne.
  destruct (pendingAt (eventFileName eid) (fs w)) as [c|] eqn:El;
    [|now rewrite (moveToProcessed_gone eid w El)].
  unfold pendingAt in El.
  destruct (pending_files (fs w)) as [d|] eqn:Ed; [|discriminate].
  destruct (processed_files (fs w)) as [a|] eqn:Ea;
    [|now rewrite (moveToProcessed_no_archive eid w Ea)].
  rewrite (moveToProcessed_moves eid w d a c Ed Ea El).
  unfold archiveAt. simpl. rewrite Ea. now apply lookup_write_ne.
Qed.

(** Ids in the format of [generateEventId] do not collide with a
    quarantine name. *)
Lemma generated_id_no_collision (file : string) (e : BaseEvent) :
  startsWith (id e) "event-" = true -> no_collision file e.
Proof.
  unfold no_collision, eventFileName, quarantineName.
  destruct (id e) as [|c s]; simpl; [discriminate|].
  intros H Heq. injection Heq as Hc _. subst c. discriminate H.
Qed.

(** *** What the processing loop leaves of a batch *)

Lemma leaves_alone_agree (names : list string) (bus : EventBus) (f0 : FS) :
  (forall t, Forall (leaves_alone names) (handlers bus t)) ->
  bus_preserves (agree_on names f0) bus.
Proof.
  intros H t. eapply Forall_impl; [|apply H]. intros h Hh e f Hag name Hin.
  destruct (Hh e f name Hin) as [-> ->]. now apply Hag.
Qed.

Lemma moveToProcessed_pending_frame (eid : string) (w : World) (other : string) :
  other <> eventFileName eid ->
  pendingAt other (fs (snd (moveToProcessed eid w))) = pendingAt other (fs w).
Proof.
  intros Hne.
  destruct (pendingAt (eventFileName eid) (fs w)) as [c|] eqn:El;
    [|now rewrite (moveToProcessed_gone eid w El)].
  destruct (processed_files (fs w)) as [a|] eqn:Ea;
    [|now rewrite (moveToProcessed_no_archive eid w Ea)].
  unfold pendingAt in El.
  destruct (pending_files (fs w)) as [d|] eqn:Ed; [|discriminate].
  rewrite (moveToProcessed_moves eid w d a c Ed Ea El).
  unfold pendingAt. simpl. rewrite Ed. now apply lookup_remove_ne.
Qed.

Lemma updatePending_pending_frame (e : BaseEvent) (w : World) (other : string) :
  other <> eventFileName (id e) ->
  other <> tempFileName (id e) ->
  pendingAt other (fs (snd (updatePending e w))) = pendingAt other (fs w).
Proof.
  intros H1 H2.
  destruct (pendingAt (eventFileName (id e)) (fs w)) as [c|] eqn:El;
    [|now rewrite (updatePending_gone e w El)].
  unfold pendingAt in El.
  destruct (pending_files (fs w)) as [d|] eqn:Ed; [|discriminate].
  rewrite (updatePending_writes e w d c Ed El).
  unfold pendingAt. simpl. rewrite Ed.
  now rewrite lookup_write_ne, lookup_remove_ne, lookup_write_ne.
Qed.

Lemma handled_ext (agent : string) (e : BaseEvent) (f f' : FS) :
  pendingAt (eventFileName (id e)) f' = pendingAt (eventFileName (id e)) f ->
  archiveAt (eventFileName (id e)) f' = archiveAt (eventFileName (id e)) f ->
  handled agent e f -> handled agent e f'.
Proof.
  intros Hp Ha. unfold handled. cbv zeta. rewrite Hp, Ha. auto.
Qed.

(** The trace of the loop over records that are all in good order: each
    is dispatched, and the handlers owed to it are called. *)
Lemma processAll_calls (bus : EventBus) (evs : list BaseEvent) :
  Forall well_formed evs ->
  forall w, exists tr,
    trace (snd (processAll bus evs w)) = trace w ++ tr /\
    dispatches tr = evs /\
    invoked tr = flat_map (expected_calls bus) evs.
Proof.
  induction 1 as [|e rest He _ IH]; intros w.
  - exists []. simpl. now rewrite app_nil_r.
  - rewrite processAll_cons, (processEvent_well_formed bus e w He).
    destruct (processEvent_trace bus e w) as (outs & Htr & Hsome & Hnone).
    destruct (IH (snd (processEvent bus e w))) as (tr & Htr' & Hd & Hi).
    exists ((Dispatch e :: invocations e 0 outs) ++ tr).
    rewrite Htr', Htr, <- app_assoc. split; [reflexivity|]. split.
    + rewrite dispatches_app. simpl. rewrite dispatches_invocations.
      simpl. now rewrite Hd.
    + rewrite invoked_app. simpl. rewrite invoked_invocations, Hi.
      f_equal. unfold expected_calls. destruct He as [ids Hids].
      rewrite Hids in *. simpl in *.
      destruct (existsb (String.eqb (agentId bus)) ids).
      * rewrite Hnone by discriminate. reflexivity.
      * now rewrite Hsome.
Qed.

Section Handling.

Variable bus : EventBus.
Variable names : list string.

Hypothesis Hleave : forall t, Forall (leaves_alone names) (handlers bus t).
Hypothesis Hnot_temp : forall n x, In n names -> n <> tempFileName x.

(** One record whose resource is in place: it is handled, and no other
    resource under the names the handlers leave alone changes. *)
Lemma processEvent_handles (e : BaseEvent) (w : World) (q : string) :
  well_formed e ->
  In (eventFileName (id e)) names ->
  In q names ->
  archiveAt q (fs w) <> None ->
  pendingAt (eventFileName (id e)) (fs w) = Some (Json e) ->
  handled (agentId bus) e (fs (snd (processEvent bus e w))) /\
  forall n, In n names -> n <> eventFileName (id e) ->
    pendingAt n (fs (snd (processEvent bus e w))) = pendingAt n (fs w) /\
    archiveAt n (fs (snd (processEvent bus e w))) = archiveAt n (fs w).
Proof.
  intros [ids Hids] Hin Hq Harch Hplace.
  unfold handled. cbv zeta. rewrite Hids.
  destruct (existsb (String.eqb (agentId bus)) ids) eqn:Ein.
  - rewrite processEvent_skip by (rewrite Hids; simpl; now rewrite Ein).
    simpl. auto.
  - rewrite (processEvent_array bus e ids w Hids Ein).
    assert (Hag : agree_on names (fs w) (fs (afterHandlers bus e w))).
    { apply afterHandlers_keeps; [now apply leaves_alone_agree|].
      intros n _. auto. }
    set (w1 := afterHandlers bus e w) in *.
    assert (Hplace1 : pendingAt (eventFileName (id e)) (fs w1) = Some (Json e))
      by (rewrite (proj1 (Hag _ Hin)); exact Hplace).
    assert (Harch1 : processed_files (fs w1) <> None).
    { destruct (Hag q Hq) as [_ Ha]. intros Hn. apply Harch.
      rewrite <- Ha. unfold archiveAt. now rewrite Hn. }
    unfold pendingAt in Hplace1.
    destruct (pending_files (fs w1)) as [d|] eqn:Ed; [|discriminate].
    destruct (processed_files (fs w1)) as [a|] eqn:Ea; [|contradiction].
    destruct (Nat.leb 3 (List.length (ids ++ [agentId bus]))) eqn:E3.
    + split.
      * rewrite (moveToProcessed_moves (id e) w1 d a (Json e) Ed Ea Hplace1).
        unfold pendingAt, archiveAt. simpl.
        now rewrite lookup_remove_eq, lookup_write_eq.
      * intros n Hn Hne.
        rewrite moveToProcessed_pending_frame, moveToProcessed_archive_frame
          by assumption.
        now apply Hag.
    + set (e' := setProcessedBy (PBArray (ids ++ [agentId bus])) e).
      split.
      * rewrite (updatePending_writes e' w1 d (Json e) Ed Hplace1).
        unfold pendingAt. simpl. apply lookup_write_eq.
      * intros n Hn Hne.
        rewrite (updatePending_pending_frame e' w1 n Hne (Hnot_temp n _ Hn)).
        unfold archiveAt. rewrite updatePending_archive. now apply Hag.
Qed.

(** The loop over records whose resources are in place, under distinct
    names. *)
Lemma processAll_handles (q : string) (todo : list BaseEvent) :
  forall w,
    NoDup (map (fun e => eventFileName (id e)) todo) ->
    Forall well_formed todo ->
    Forall (fun e => In (eventFileName (id e)) names) todo ->
    In q names ->
    Forall (fun e => q <> eventFileName (id e)) todo ->
    archiveAt q (fs w) <> None ->
    Forall (fun e => pendingAt (eventFileName (id e)) (fs w) = Some (Json e)) todo ->
    Forall (fun e => handled (agentId bus) e (fs (snd (processAll bus todo w)))) todo /\
    forall n, In n names ->
      Forall (fun e => n <> eventFileName (id e)) todo ->
      pendingAt n (fs (snd (processAll bus todo w))) = pendingAt n (fs w) /\
      archiveAt n (fs (snd (processAll bus todo w))) = archiveAt n (fs w).
Proof.
  induction todo as [|e rest IH]; intros w Hnd Hwf Hin Hq Hqne Harch Hplace.
  - split; [constructor | auto].
  - inversion Hnd as [|? ? Hfresh Hnd']; subst.
    inversion Hwf as [|? ? He Hwf']; subst.
    inversion Hin as [|? ? Hine Hin']; subst.
    inversion Hqne as [|? ? Hqe Hqne']; subst.
    inversion Hplace as [|? ? Hpe Hplace']; subst.
    rewrite processAll_cons, (processEvent_well_formed bus e w He).
    destruct (processEvent_handles e w q He Hine Hq Harch Hpe) as [Hdone Hframe].
    set (w1 := snd (processEvent bus e w)) in *.
    assert (Hother : Forall (fun x => eventFileName (id x) <> eventFileName (id e)) rest).
    { apply Forall_forall. intros x Hx Heq. apply Hfresh. rewrite <- Heq.
      now apply (in_map (fun e => eventFileName (id e))). }
    destruct (IH w1 Hnd' Hwf' Hin' Hq Hqne') as [Hrest Hframe'].
    + destruct (Hframe q Hq) as [_ Ha]; [congruence|]. now rewrite Ha.
    + apply Forall_forall. intros x Hx.
      rewrite Forall_forall in Hplace', Hin', Hother.
      destruct (Hframe _ (Hin' x Hx) (Hother x Hx)) as [Hp _].
      rewrite Hp. now apply Hplace'.
    + split.
      * constructor; [|exact Hrest].
        destruct (Hframe' _ Hine) as [Hp Ha].
        { eapply Forall_impl; [|exact Hother]. intros x Hx Heq. now apply Hx. }
        now apply (handled_ext _ e (fs w1)).
      * intros n Hn Hne. inversion Hne as [|? ? Hne1 Hne2]; subst.
        destruct (Hframe' n Hn Hne2) as [Hp Ha].
        destruct (Hframe n Hn Hne1) as [Hp0 Ha0].
        split; congruence.
Qed.

End Handling.

Lemma in_combine_map {A B C} (f : A -> B) (g : A -> C) (l : list A) (x : A) :
  In x l -> In (f x, g x) (combine (map f l) (map g l)).
Proof.
  induction l as [|y l IH]; simpl; [auto|].
  intros [->|Hin]; [now left | right; auto].
Qed.

Section CorruptedInput.

Variable bus : EventBus.
Variable w : World.
Variables (d a : Dir) (file raw : string).
Variable names : list string.
Variable batch : list BaseEvent.

Hypothesis Hpending : pending_files (fs w) = Some d.
Hypothesis Harchive : processed_files (fs w) = Some a.
Hypothesis Hd : holds_batch_and_garbage d file raw names batch.
Hypothesis Hvalid : Forall well_formed batch.
Hypothesis Hnames : Forall (no_collision file) batch.

(** Each record is filed under its id, a plain file name. *)
Hypothesis Hfiled : names = map (fun e => eventFileName (id e)) batch.
Hypothesis Hplain : Forall (fun e => plain_id (id e) = true) batch.

(** The handlers leave the files of the batch, the unparseable file and
    its quarantine name alone. *)
Hypothesis Hhandlers :
  forall t, Forall (leaves_alone (file :: quarantineName file :: names))
                   (handlers bus t).

Let w' := snd (poll bus w).

Lemma garbage_read : Permutation (parsed_events d (listed d)) batch.
Proof using Hd.
  destruct Hd as (Hperm & Hnd & Hlen & Hall).
  apply Forall_cons_iff in Hall as [Hfile Hall'].
  assert (Hfst : map fst ((file, Text raw) :: combine names (map Json batch))
                 = file :: names).
  { simpl. f_equal. apply map_fst_combine. now rewrite length_map. }
  rewrite parsed_listed.
  - assert (Hev : events_of ((file, Text raw) :: combine names (map Json batch))
                  = batch).
    { unfold events_of. simpl. rewrite Hfile. simpl.
      apply (events_of_combine names batch Hlen Hall'). }
    apply (Permutation_trans
             (l' := events_of ((file, Text raw) :: combine names (map Json batch))));
      [|rewrite Hev; apply Permutation_refl].
    unfold events_of. now apply Permutation_flat_map.
  - eapply Permutation_NoDup;
      [apply Permutation_map, Permutation_sym, Hperm|].
    now rewrite Hfst.
Qed.


End CorruptedInput.

(** ** Records that parse but are not in good order *)

Lemma processEvent_rejects (bus : EventBus) (event : BaseEvent) (w : World) :
  rejects (agentId bus) event ->
  fst (processEvent bus event w) = Throw TypeError.
Proof.
  intros [Hpb|(s & Hpb & Hs)].
  - rewrite (processEvent_no_includes bus event w TypeError); [reflexivity|].
    now rewrite Hpb.
  - now rewrite (processEvent_string bus event s w Hpb Hs).
Qed.

(** The loop stops at the first record it cannot mark. *)
Lemma processAll_stops (bus : EventBus) (bad : BaseEvent)
    (later : list BaseEvent) (before : list BaseEvent) :
  Forall well_formed before ->
  rejects (agentId bus) bad ->
  forall w,
    fst (processAll bus (before ++ bad :: later) w) = Throw TypeError /\
    exists tr,
      trace (snd (processAll bus (before ++ bad :: later) w)) = trace w ++ tr /\
      dispatches tr = before ++ [bad].
Proof.
  intros Hwf Hbad. induction Hwf as [|e before He _ IH]; intros w.
  - simpl app. rewrite processAll_cons.
    rewrite (processEvent_rejects bus bad w Hbad). split; [reflexivity|].
    destruct (processEvent_trace bus bad w) as (outs & Htr & _).
    exists (Dispatch bad :: invocations bad 0 outs). split; [exact Htr|].
    simpl. now rewrite dispatches_invocations.
  - simpl app. rewrite processAll_cons.
    rewrite (processEvent_well_formed bus e w He).
    destruct (IH (snd (processEvent bus e w))) as (Hthrow & tr & Htr & Hd).
    split; [exact Hthrow|].
    destruct (processEvent_trace bus e w) as (outs & Htr1 & _).
    exists ((Dispatch e :: invocations e 0 outs) ++ tr).
    rewrite Htr, Htr1, <- app_assoc. split; [reflexivity|].
    rewrite dispatches_app. simpl. rewrite dispatches_invocations. simpl.
    now rewrite Hd.
Qed.

(** When every listed file parses, the read loop leaves the store as it
    found it. *)
Lemma readEvents_all_parse (d : Dir) (files : list string) :
  (forall file, In file files -> exists e, lookup file d = Some (Json e)) ->
  forall acc w,
    pending_files (fs w) = Some d ->
    readEvents files acc w = (Ok (acc ++ parsed_events d files), w).
Proof.
  induction files as [|file rest IH]; intros Hall acc w Hp.
  - simpl. now rewrite app_nil_r.
  - destruct (Hall file (or_introl eq_refl)) as [e He].
    simpl. unfold bind at 1. unfold readOne, try_catch, bind, readFile.
    simpl dirOf. rewrite Hp, He. simpl.
    rewrite IH; auto; [|intros; apply Hall; now right].
    unfold jsonAt. rewrite He. simpl. now rewrite <- app_assoc.
Qed.

Lemma holds_batch_parses (d : Dir) (names : list string) (batch : list BaseEvent) :
  holds_batch d names batch ->
  forall file, In file (listed d) -> exists e, lookup file d = Some (Json e).
Proof.
  intros (Hperm & Hnd & Hlen & Hall) file Hin.
  apply filter_In in Hin as [Hin _].
  apply in_map_iff in Hin as ([n c] & Hn & Hin). simpl in Hn. subst n.
  assert (Hc : In (file, c) (combine names (map Json batch)))
    by (eapply Permutation_in; eassumption).
  apply in_combine_r in Hc. apply in_map_iff in Hc as (e & <- & _).
  exists e. apply lookup_in_nodup; [|exact Hin].
  eapply Permutation_NoDup; [apply Permutation_map, Permutation_sym, Hperm|].
  rewrite map_fst_combine by now rewrite length_map. exact Hnd.
Qed.

Section UnmarkableRecord.

Variable bus : EventBus.
Variable w : World.
Variable d : Dir.
Variable names : list string.
Variables (before later : list BaseEvent) (bad : BaseEvent).

Hypothesis Hpending : pending_files (fs w) = Some d.
Hypothesis Hd : holds_batch d names (before ++ bad :: later).
Hypothesis Hts : Forall has_timestamp (before ++ bad :: later).
Hypothesis Horder : StronglySorted ts_lt (before ++ bad :: later).
Hypothesis Hbefore : Forall well_formed before.
Hypothesis Hbad : rejects (agentId bus) bad.


End UnmarkableRecord.

(** ** [publish] *)

Lemma publish_never_throws (freshId : string) (now : Z) (event : BaseEvent)
    (w : World) :
  fst (publish freshId now event w) = Ok tt.
Proof. apply swallow_never_throws. Qed.

(** A record whose id is pending already: nothing happens. *)
Lemma publish_duplicate (freshId : string) (now : Z) (event : BaseEvent)
    (w : World) (c : Content) :
  pendingAt (eventFileName (id (withDefaults freshId now event))) (fs w) = Some c ->
  publish freshId now event w = (Ok tt, w).
Proof.
  unfold pendingAt. intros H.
  destruct (pending_files (fs w)) as [d|] eqn:Ed; [|discriminate].
  unfold publish. unfold_io. simpl. rewrite Ed, H. reflexivity.
Qed.

(** A record whose id is not pending: its text is written under the
    temporary name and renamed to the event file. *)
Lemma publish_new (freshId : string) (now : Z) (event : BaseEvent)
    (w : World) (d : Dir) :
  let ev := withDefaults freshId now event in
  pending_files (fs w) = Some d ->
  lookup (eventFileName (id ev)) d = None ->
  publish freshId now event w =
    (Ok tt,
     mkWorld (mkFS (can_mkdir (fs w)) (events_exists (fs w))
                   (Some (write (eventFileName (id ev)) (Json ev)
                            (remove (tempFileName (id ev))
                               (write (tempFileName (id ev)) (Json ev) d))))
                   (processed_files (fs w)))
             (trace w)).
Proof.
  intros ev Hp Hl. unfold publish. fold ev. unfold_io. simpl.
  repeat (rewrite ?Hp, ?Hl, ?lookup_write_eq; simpl). reflexivity.
Qed.

Section IdempotentPublish.

Variables (fresh1 fresh2 : string) (now1 now2 : Z).
Variables (first second : BaseEvent).
Variable w : World.
Variable d : Dir.

Let ev1 := withDefaults fresh1 now1 first.
Let ev2 := withDefaults fresh2 now2 second.
Let name := eventFileName (id ev1).
Let w1 := snd (publish fresh1 now1 first w).
Let w2 := snd (publish fresh2 now2 second w1).

Hypothesis Hpending : pending_files (fs w) = Some d.
Hypothesis Hnew : lookup name d = None.
Hypothesis Hsame : id ev2 = id ev1.
Hypothesis Hplain : plain_id (id ev1) = true.

(** C4, as amended.  A record is published under an id that is a plain
    file name and is not pending, then a second record under the same id
    while the first is still pending.  Neither call throws; the second
    changes nothing; the pending directory holds exactly one resource
    under that id, and it is the text of the first record. *)
Theorem idempotent_publish :
  fst (publish fresh1 now1 first w) = Ok tt /\
  fst (publish fresh2 now2 second w1) = Ok tt /\
  w2 = w1 /\
  pendingAt name (fs w2) = Some (Json ev1) /\
  exists d2, pending_files (fs w2) = Some d2 /\ occurrences name d2 = 1.
Proof using Hpending Hnew Hsame Hplain.
  split; [apply publish_never_throws|]. split; [apply publish_never_throws|].
  assert (H1 : pendingAt name (fs w1) = Some (Json ev1)).
  { subst w1. rewrite (publish_new fresh1 now1 first w d Hpending Hnew).
    unfold pendingAt. simpl. apply lookup_write_eq. }
  assert (H2 : w2 = w1).
  { subst w2. rewrite (publish_duplicate fresh2 now2 second w1 (Json ev1));
      [reflexivity|].
    fold ev2. rewrite Hsame. exact H1. }
  split; [exact H2|]. rewrite H2. split; [exact H1|].
  subst w1. rewrite (publish_new fresh1 now1 first w d Hpending Hnew). simpl.
  eexists. split; [reflexivity|]. apply occurrences_write_eq.
Qed.

End IdempotentPublish.

Module SchedulerFacts.
Import Scheduler.

Ltac settle :=
repeat split; intros;
try discriminate; try lia;
try solve [intuition (try discriminate; try lia; try congruence)].

Lemma step_started_once (s s' : State) (l : Step) :
is_stop l = false -> step s l = Some s' ->
started_once s -> started_once s'.
Proof.
intros Hl Hstep (HA & HB & HC & HD). unfold started_once.
destruct s as [b ts nt st tk]. simpl in *.
destruct l; simpl in Hstep; try discriminate Hl.
- destruct (isPolling b) eqn:E; injection Hstep as <-; simpl.
  + rewrite E. settle.
  + destruct (HA eq_refl) as (-> & -> & ->). simpl. settle.
- destruct st as [|k]; [discriminate|].
  injection Hstep as <-. simpl.
  assert (k = 0) by lia. subst k. destruct (HC eq_refl) as [-> ->].
  simpl. settle.
- destruct st as [|k]; [discriminate|].
  injection Hstep as <-. simpl.
  assert (k = 0) by lia. subst k. destruct (HC eq_refl) as [-> ->].
  simpl. settle.
- destruct (existsb (Nat.eqb t) ts) eqn:E; [|discriminate].
  injection Hstep as <-. simpl.
  assert (Hne : ts <> []) by (intros H0; rewrite H0 in E; discriminate).
  settle.
- destruct tk as [|k]; [discriminate|].
  injection Hstep as <-. simpl. settle.
Qed.

Lemma steps_started_once (ls : list Step) :
forall s s',
  forallb (fun l => negb (is_stop l)) ls = true ->
  steps s ls = Some s' ->
  started_once s -> started_once s'.
Proof.
induction ls as [|l ls IH]; intros s s' Hns Hsteps Hinv; simpl in *.
- now injection Hsteps as <-.
- apply andb_prop in Hns as [Hl Hns].
  destruct (step s l) as [s1|] eqn:E; [|discriminate].
  apply (IH s1 s' Hns Hsteps).
  apply (step_started_once s s1 l); auto.
  now destruct (is_stop l).
Qed.

(** C5, as amended.  A bus is started from idle and not stopped.  The
  timer is armed only when the initial cycle has settled: while that
  cycle is in flight there is no interval and no other cycle, a repeated
  [startPolling] starts nothing, and at most one interval is ever armed.
  A tick of the armed interval, however, starts a cycle whatever is in
  flight: it is neither skipped nor queued. *)
Theorem timer_armed_after_initial_cycle (agent : string) (ls : list Step)
  (s : State) :
forallb (fun l => negb (is_stop l)) ls = true ->
steps (idle agent) ls = Some s ->
starting s <= 1 /\
(starting s = 1 -> timers s = [] /\ ticking s = 0) /\
List.length (timers s) <= 1 /\
(isPolling (bus s) = true -> step s CallStart = Some s) /\
(forall t, In t (timers s) ->
   exists s', step s (Tick t) = Some s' /\ inFlight s' = S (inFlight s)).
Proof.
intros Hns Hsteps.
assert (Hidle : started_once (idle agent))
  by (unfold started_once; simpl; repeat split; auto).
destruct (steps_started_once ls _ _ Hns Hsteps Hidle) as (_ & HB & HC & HD).
repeat split; auto; try (now apply HC).
- intros Hp. simpl. now rewrite Hp.
- intros t Ht. simpl.
  assert (E : existsb (Nat.eqb t) (timers s) = true).
  { apply existsb_exists. exists t. split; [exact Ht | apply Nat.eqb_refl]. }
  rewrite E. eexists. split; [reflexivity|].
  unfold inFlight. simpl. lia.
Qed.

(** The claim as stated fails: two ticks of the interval while the first
  cycle is still awaiting leave two cycles of the same bus in flight. *)
Lemma timer_cycles_overlap :
~ (forall ls s, steps (idle "worker-1") ls = Some s -> inFlight s <= 1).
Proof.
intros H.
specialize (H [CallStart; InitialResolved; Tick 0; Tick 0] _ eq_refl).
vm_compute in H. lia.
Qed.

End SchedulerFacts.

(** ** Start-up *)

Lemma ensureDirectories_fails (w : World) (l : Loc) :
  first_missing (fs w) = Some l ->
  can_mkdir (fs w) = false ->
  ensureDirectories w =
    (Throw EACCES, mkWorld (fs w) (trace w ++ attempts l)).
Proof.
  destruct w as [[c ev p a] tr]. unfold first_missing. simpl.
  intros Hl Hc. subst c.
  unfold ensureDirectories, try_catch, bind, mkdir, throw. simpl.
  destruct ev; simpl in *.
  - destruct p as [d1|]; simpl in *.
    + destruct a as [d2|]; simpl in *; [discriminate|].
      injection Hl as <-. simpl. now rewrite <- !app_assoc.
    + injection Hl as <-. simpl. now rewrite <- !app_assoc.
  - injection Hl as <-. reflexivity.
Qed.

Lemma ensureDirectories_resolved (w w' : World) :
  ensureDirectories w = (Ok tt, w') -> directories_exist (fs w').
Proof.
  destruct w as [[c ev p a] tr].
  unfold ensureDirectories, try_catch, bind, mkdir, throw, directories_exist.
  simpl.
  destruct ev, c, p as [d1|], a as [d2|]; simpl; intros H;
    try discriminate H; injection H as <-; simpl; auto.
Qed.



(** ** The end-to-end scenario *)

(** C1, on the code.  After the publish and one poll cycle of each of the
    three consumers the record has left the pending directory and is in
    the archive, but the archived text lists only the first two consumers:
    [moveToProcessed] copies the pending file, to which the third
    consumer's id was never written. *)
Theorem end_to_end_archive_misses_last_consumer :
  pendingAt (eventFileName (id jobCreated)) (fs endToEnd) = None /\
  archiveAt (eventFileName (id jobCreated)) (fs endToEnd) =
    Some (Json (setProcessedBy (PBArray ["hiring-1"; "worker-1"]) jobCreated)) /\
  dispatches (trace endToEnd) = 
    [jobCreated;
     setProcessedBy (PBArray ["hiring-1"]) jobCreated;
     setProcessedBy (PBArray ["hiring-1"; "worker-1"]) jobCreated].
Proof. vm_compute. repeat split; reflexivity. Qed.

(** ** Where the claims as stated fail *)

(** C4 as stated fails: an id the store has seen but that is no longer
    pending is published again.  The archived record of the end-to-end
    scenario is published a second time: the call is not a no-op, and the
    store ends with two resources under the id. *)
Lemma republish_after_archival :
  let name := eventFileName (id jobCreated) in
  let w2 := run (publish "fresh" 0 jobCreated) endToEnd in
  archiveAt name (fs endToEnd) <> None /\
  pendingAt name (fs endToEnd) = None /\
  pendingAt name (fs w2) = Some (Json jobCreated) /\
  archiveAt name (fs w2) <> None /\
  w2 <> endToEnd.
Proof.
  vm_compute. repeat split; try reflexivity; discriminate.
Qed.

(** C2 as stated fails: a record whose mark is never persisted, here
    because its file is not named after its id, so that the update of
    lines 320-339 finds no file to rewrite, is handed to the handlers
    again in every cycle, while nothing in the store changes. *)
Lemma unpersisted_mark_refires :
  let w := storeOf [("foo.json", Json jobCreated)] in
  let w' := snd (pollCycles 2 workerBus w) in
  fs w' = fs w /\
  trace w' =
    [Dispatch jobCreated; Invoked jobCreated 0 false; Invoked jobCreated 1 true;
     Dispatch jobCreated; Invoked jobCreated 0 false; Invoked jobCreated 1 true] /\
  calls "event-1001-a" 0 (trace w') = 2.
Proof. repeat split; reflexivity. Qed.


(** ** The theorems at work on concrete stores *)

Lemma workerBus_preserves (P : FS -> Prop) : bus_preserves P workerBus.
Proof.
  intros t. destruct t; simpl; repeat constructor; intros e f H; exact H.
Qed.

Lemma afterWorker_pending :
  pending_files (fs afterWorker) =
    Some [("event-1001-a.json",
           Json (setProcessedBy (PBArray ["hiring-1"; "worker-1"]) jobCreated))].
Proof. reflexivity. Qed.

Lemma afterWorker_marked : marked "event-1001-a" "worker-1" (fs afterWorker).
Proof.
  intros name e _ Hl _. unfold pendingAt in Hl.
  rewrite afterWorker_pending in Hl. cbn [lookup] in Hl.
  destruct (String.eqb name "event-1001-a.json"); [|discriminate].
  injection Hl as <-. reflexivity.
Qed.

Lemma afterHiring_persists : persists "event-1001-a" (fs afterHiring).
Proof.
  split; [discriminate|]. split.
  - intros d Hd.
    change (pending_files (fs afterHiring))
      with (Some [("event-1001-a.json", Json seenByHiring)]) in Hd.
    injection Hd as <-. repeat constructor. intros [].
  - intros name e _ Hl _. unfold pendingAt in Hl.
    change (pending_files (fs afterHiring))
      with (Some [("event-1001-a.json", Json seenByHiring)]) in Hl.
    cbn [lookup] in Hl.
    destruct (String.eqb_spec name "event-1001-a.json") as [->|]; [|discriminate].
    injection Hl as <-. split; [reflexivity | now exists ["hiring-1"]].
Qed.

(** The worker polls three times: after it has marked the record, and
    from the store the hiring agent left. *)
Lemma exactly_once_per_consumer_witness :
  (exists tr,
     trace (snd (pollCycles 3 workerBus afterWorker)) = trace afterWorker ++ tr /\
     forall e, In e (invoked tr) -> id e <> "event-1001-a") /\
  (exists tr,
     trace (snd (pollCycles 3 workerBus afterHiring)) = trace afterHiring ++ tr /\
     calls "event-1001-a" 0 tr <= 1 /\ calls "event-1001-a" 1 tr <= 1).
Proof.
  destruct (exactly_once_per_consumer workerBus "event-1001-a"
              (workerBus_preserves _) (workerBus_preserves _) eq_refl
              3 afterWorker) as [HA _].
  destruct (exactly_once_per_consumer workerBus "event-1001-a"
              (workerBus_preserves _) (workerBus_preserves _) eq_refl
              3 afterHiring) as [_ HB].
  split.
  - destruct (HA afterWorker_marked) as (tr & Htr & Hinv & _).
    exists tr. split; [exact Htr | exact Hinv].
  - destruct (HB afterHiring_persists) as (tr & Htr & Hle).
    exists tr. split; [exact Htr|]. split; apply Hle.
Defined.

Lemma seenByHiring_in_place : in_place seenByHiring (fs afterHiring).
Proof. split; [reflexivity | discriminate]. Qed.

Lemma worker_is_new : ~ In (agentId workerBus) ["hiring-1"].
Proof. intros [H|[]]. discriminate H. Qed.

(** The worker is the second consumer of the record, the arbitrator the
    third. *)
Lemma archival_threshold_witness :
  (let w' := snd (processEvent workerBus seenByHiring afterHiring) in
   pendingAt "event-1001-a.json" (fs w') =
     Some (Json (setProcessedBy (PBArray ["hiring-1"; "worker-1"]) jobCreated))) /\
  (let seen := setProcessedBy (PBArray ["hiring-1"; "worker-1"]) jobCreated in
   let w' := snd (processEvent (busOf "arbitrator-1") seen afterWorker) in
   pendingAt "event-1001-a.json" (fs w') = None /\
   archiveAt "event-1001-a.json" (fs w') = Some (Json seen)).
Proof.
  split.
  - destruct (archival_threshold workerBus seenByHiring ["hiring-1"] afterHiring)
      as (_ & _ & _ & Hbelow).
    + reflexivity.
    + repeat constructor. intros [].
    + exact worker_is_new.
    + apply workerBus_preserves.
    + exact seenByHiring_in_place.
    + apply Hbelow. simpl. lia.
  - destruct (archival_threshold (busOf "arbitrator-1")
                (setProcessedBy (PBArray ["hiring-1"; "worker-1"]) jobCreated)
                ["hiring-1"; "worker-1"] afterWorker)
      as (_ & _ & Hreached & _).
    + reflexivity.
    + repeat constructor; simpl; intuition discriminate.
    + simpl. intuition discriminate.
    + intros t. constructor.
    + split; [reflexivity | discriminate].
    + apply Hreached. simpl. lia.
Defined.

Lemma handler_failure_isolation_witness :
  let w' := snd (processEvent workerBus seenByHiring afterHiring) in
  trace w' =
    trace afterHiring ++
      [Dispatch seenByHiring;
       Invoked seenByHiring 0 false; Invoked seenByHiring 1 true] /\
  processAll workerBus [seenByHiring] afterHiring = (Ok tt, w').
Proof.
  destruct (handler_failure_isolation workerBus seenByHiring ["hiring-1"] []
              afterHiring) as (_ & Htr & _ & Hnext).
  - reflexivity.
  - exact worker_is_new.
  - apply workerBus_preserves.
  - exact seenByHiring_in_place.
  - split; [exact Htr | exact Hnext].
Defined.

Lemma idempotent_publish_witness :
  let w1 := snd (publish "event-1" 10 jobCreated emptyStore) in
  snd (publish "event-2" 20 seenByHiring w1) = w1 /\
  pendingAt "event-1001-a.json" (fs w1) = Some (Json jobCreated).
Proof.
  destruct (idempotent_publish "event-1" "event-2" 10 20 jobCreated seenByHiring
              emptyStore []) as (_ & _ & Hsame & Hone & _).
  - reflexivity.
  - reflexivity.
  - reflexivity.
  - reflexivity.
  - split; [exact Hsame|]. rewrite <- Hsame. exact Hone.
Defined.

Lemma timer_armed_after_initial_cycle_witness :
  exists s,
    Scheduler.steps (Scheduler.idle "worker-1") twoTicks = Some s /\
    List.length (Scheduler.timers s) <= 1 /\ Scheduler.inFlight s = 2.
Proof.
  eexists. split; [reflexivity|].
  destruct (SchedulerFacts.timer_armed_after_initial_cycle "worker-1" twoTicks
              _ eq_refl eq_refl) as (_ & _ & Hone & _).
  split; [exact Hone | reflexivity].
Defined.

Lemma newestFirst_batch :
  holds_batch newestFirst ["event-1001-a.json"; "event-1002-b.json"]
              [jobCreated; jobAccepted].
Proof.
  repeat split.
  - apply perm_swap.
  - repeat constructor; simpl; intuition discriminate.
  - repeat constructor.
Qed.

Lemma ts_lt_eval (a b : BaseEvent) (x y : Z) :
  timestamp a = Some x -> timestamp b = Some y -> (x < y)%Z -> ts_lt a b.
Proof. intros Ha Hb Hlt. now exists x, y. Qed.

Lemma processing_order_witness :
  dispatches (trace (snd (poll workerBus (storeOf newestFirst)))) =
    [jobCreated; jobAccepted].
Proof.
  destruct (processing_order workerBus (storeOf newestFirst) newestFirst
              ["event-1001-a.json"; "event-1002-b.json"] [jobCreated; jobAccepted])
    as (tr & done & rest & Htr & Hdone & Hsplit & _ & _ & Hall).
  - reflexivity.
  - exact newestFirst_batch.
  - repeat constructor; discriminate.
  - repeat constructor. apply (ts_lt_eval _ _ 1000 2000); reflexivity.
  - rewrite Htr. simpl app.
    rewrite Hdone, Hsplit, Hall, app_nil_r; [reflexivity|].
    repeat constructor; now exists [].
Defined.

Lemma workerBus_leaves_alone (names : list string) :
  forall t, Forall (leaves_alone names) (handlers workerBus t).
Proof.
  intros t. destruct t; simpl; repeat constructor; intros e f n _; auto.
Qed.


Lemma withUnmarkable_batch :
  holds_batch withUnmarkable
    ["event-1001-a.json"; "event-1002-b.json"; "event-1003-c.json"]
    ([jobCreated] ++ unmarkable :: [workSubmitted]).
Proof.
  repeat split.
  - apply (Permutation_cons_append
             [("event-1001-a.json", Json jobCreated);
              ("event-1002-b.json", Json unmarkable)]
             ("event-1003-c.json", Json workSubmitted)).
  - repeat constructor; simpl; intuition discriminate.
  - repeat constructor.
Qed.


(** * Further properties of the bus

    ** [subscribe] *)

Lemma EventType_eqb_eq (a b : EventType) : EventType_eqb a b = true <-> a = b.
Proof. destruct a, b; simpl; split; intros H; try reflexivity; discriminate H. Qed.

Lemma callHandlers_app (e : BaseEvent) (hs1 hs2 : list EventHandler) :
  forall (k : nat) (w : World),
    callHandlers e (hs1 ++ hs2) k w =
    callHandlers e hs2 (k + List.length hs1) (snd (callHandlers e hs1 k w)).
Proof.
  induction hs1 as [|h hs1 IH]; intros k w; simpl.
  - now rewrite Nat.add_0_r.
  - unfold bind. rewrite swallow_ok. rewrite IH.
    now rewrite Nat.add_succ_r.
Qed.

Lemma callHandlers_one (e : BaseEvent) (h : EventHandler) (k : nat) (w : World) :
  snd (callHandlers e [h] k w) =
    mkWorld (snd (h e (fs w)))
            (trace w ++ [Invoked e k (is_ok (fst (h e (fs w))))]).
Proof.
  simpl. unfold bind. rewrite swallow_ok. unfold ret, invoke. simpl.
  destruct (h e (fs w)) as [r f]. reflexivity.
Qed.

(** X1 ([subscribe]).  Subscribing a handler [h] to a type keeps the
    identity of the bus and leaves the processing of records of every
    other type exactly as it was.  A record of that type that the
    consumer has not marked is processed as before, except that [h] is
    called last, after all the handlers registered before it and on the
    store they left; the final archive or update happens on the store
    that [h] left. *)
Theorem subscribe_appends (bus : EventBus) (t : EventType) (h : EventHandler)
    (e : BaseEvent) (ids : list string) (w : World) :
  agentId (subscribe t h bus) = agentId bus /\
  (type e <> t ->
     processEvent (subscribe t h bus) e w = processEvent bus e w) /\
  (type e = t -> processedBy e = PBArray ids -> ~ In (agentId bus) ids ->
     let finish :=
       if Nat.leb 3 (List.length (ids ++ [agentId bus]))
       then moveToProcessed (id e)
       else updatePending (setProcessedBy (PBArray (ids ++ [agentId bus])) e) in
     let w1 := afterHandlers bus e w in
     let r := h e (fs w1) in
     processEvent bus e w = finish w1 /\
     processEvent (subscribe t h bus) e w =
       finish (mkWorld (snd r)
                 (trace w1 ++
                    [Invoked e (List.length (handlers bus t)) (is_ok (fst r))]))).
Proof.
  split; [reflexivity|]. split.
  - intros Hne. unfold processEvent. simpl.
    destruct (EventType_eqb (type e) t) eqn:E; [|reflexivity].
    apply EventType_eqb_eq in E. contradiction.
  - intros Ht Hids Hnew finish w1 r.
    assert (Hin : existsb (String.eqb (agentId bus)) ids = false)
      by now apply existsb_eqb_false.
    split; [exact (processEvent_array bus e ids w Hids Hin)|].
    rewrite (processEvent_array (subscribe t h bus) e ids w Hids Hin).
    change (agentId (subscribe t h bus)) with (agentId bus). fold finish.
    assert (Hafter : afterHandlers (subscribe t h bus) e w =
                     mkWorld (snd r)
                       (trace w1 ++
                          [Invoked e (List.length (handlers bus t))
                             (is_ok (fst r))])).
    { unfold afterHandlers. simpl handlers. rewrite Ht.
      assert (E : EventType_eqb t t = true) by now apply EventType_eqb_eq.
      rewrite E, callHandlers_app, callHandlers_one. simpl Nat.add.
      subst r w1. unfold afterHandlers. now rewrite Ht. }
    now rewrite Hafter.
Qed.

(** A handler that throws is subscribed after the two of the worker. *)
Lemma subscribe_appends_witness :
  trace (snd (processEvent (subscribe JOB_CREATED failing workerBus)
                seenByHiring afterHiring)) =
    trace (snd (processEvent workerBus seenByHiring afterHiring)) ++
      [Invoked seenByHiring 2 false].
Proof.
  destruct (subscribe_appends workerBus JOB_CREATED failing seenByHiring
              ["hiring-1"] afterHiring) as (_ & _ & H).
  destruct H as [H1 H2]; [reflexivity | reflexivity | exact worker_is_new |].
  rewrite H1, H2. reflexivity.
Defined.

(** ** [publish] and its defaults *)

Lemma temp_is_no_event_file (a b : string) : tempFileName a <> eventFileName b.
Proof.
  unfold tempFileName, eventFileName. intros H.
  change (b ++ ".json")%string with (b ++ ("." ++ "json"))%string in H.
  rewrite <- (append_assoc b "." "json") in H.
  change ("." ++ a ++ ".tmp")%string with (("." ++ a) ++ ".tmp")%string in H.
  apply (append_tail_inj ".tmp" "json" eq_refl) in H.
  destruct H as [_ H]. discriminate H.
Qed.

Section PublishStores.

Variables (freshId : string) (now : Z) (event : BaseEvent).
Variable w : World.
Variable d : Dir.

Let ev := withDefaults freshId now event.
Let name := eventFileName (id ev).
Let temp := tempFileName (id ev).
Let w' := snd (publish freshId now event w).

Hypothesis Hpending : pending_files (fs w) = Some d.
Hypothesis Hnew : lookup name d = None.
Hypothesis Hplain : plain_id (id ev) = true.

(** X2 ([publish], a new id).  Publishing a record whose id is a plain
    file name and is not pending puts the record, with its defaults
    filled in, under [<id>.json]; the temporary file is gone afterwards,
    even one left behind earlier; no other pending resource, nothing in
    the archive and nothing in the trace changes. *)
Theorem publish_stores_record :
  pendingAt name (fs w') = Some (Json ev) /\
  pendingAt temp (fs w') = None /\
  (forall other, other <> name -> other <> temp ->
     pendingAt other (fs w') = pendingAt other (fs w)) /\
  processed_files (fs w') = processed_files (fs w) /\
  trace w' = trace w.
Proof using Hpending Hnew Hplain.
  subst w'. rewrite (publish_new freshId now event w d Hpending Hnew).
  fold ev. fold name. fold temp. unfold pendingAt. simpl. rewrite Hpending.
  assert (Hne : temp <> name) by apply temp_is_no_event_file.
  repeat split.
  - apply lookup_write_eq.
  - rewrite lookup_write_ne by exact Hne. apply lookup_remove_eq.
  - intros other H1 H2.
    now rewrite lookup_write_ne, lookup_remove_ne, lookup_write_ne.
Qed.

End PublishStores.

Lemma publish_stores_record_witness :
  pendingAt "event-1001-a.json" (fs published) = Some (Json jobCreated) /\
  pendingAt ".event-1001-a.tmp" (fs published) = None.
Proof.
  destruct (publish_stores_record "fresh" 0 jobCreated emptyStore [])
    as (H1 & H2 & _); [reflexivity | reflexivity | reflexivity |].
  split; [exact H1 | exact H2].
Defined.

(** X3 ([publish], no pending directory).  Where the pending directory
    does not exist, [publish] of a record whose id is a plain file name
    resolves all the same and leaves the store and the trace as they
    were: the record is dropped without a sign to the caller. *)
Theorem publish_without_directory (freshId : string) (now : Z)
    (event : BaseEvent) (w : World) :
  pending_files (fs w) = None ->
  plain_id (id (withDefaults freshId now event)) = true ->
  publish freshId now event w = (Ok tt, w).
Proof.
  intros Hp _. unfold publish. unfold_io. simpl.
  repeat (rewrite ?Hp; simpl). reflexivity.
Qed.

Lemma publish_without_directory_witness :
  publish "event-1" 0 jobCreated lockedStore = (Ok tt, lockedStore).
Proof. apply publish_without_directory; reflexivity. Defined.

Lemma withDefaults_of_complete (freshId : string) (now : Z) (e : BaseEvent) :
  complete e -> withDefaults freshId now e = e.
Proof.
  destruct e as [i ty ts sa ta pl pb st]. unfold complete, withDefaults. simpl.
  intros (Hi & Ht & Hs & ids & Hp). subst pb.
  destruct (String.eqb_spec i "") as [E|_]; [contradiction|].
  destruct ts as [t|]; [|contradiction].
  destruct st as [x|]; [|contradiction]. reflexivity.
Qed.

Lemma withDefaults_complete (freshId : string) (now : Z) (e : BaseEvent) :
  freshId <> "" ->
  processedBy e <> PBOther ->
  (forall s, processedBy e = PBString s -> s = "") ->
  complete (withDefaults freshId now e).
Proof.
  destruct e as [i ty ts sa ta pl pb st]. unfold complete, withDefaults. simpl.
  intros Hf Ho Hs.
  assert (Hpb : (exists ids, pb = PBArray ids) \/ pb = PBString "" \/ pb = PBMissing).
  { destruct pb as [ids|s| |]; eauto; [|contradiction].
    right. left. now rewrite (Hs s eq_refl). }
  destruct (String.eqb_spec i "") as [->|Hi]; destruct ts as [t|];
    destruct st as [x|];
    destruct Hpb as [[ids ->]|[->| ->]]; simpl;
    repeat split; try assumption; try discriminate; eexists; reflexivity.
Qed.

Lemma withDefaults_processedBy (freshId : string) (now : Z) (e : BaseEvent) :
  processedBy (withDefaults freshId now e) =
    match processedBy e with
    | PBMissing | PBString "" => PBArray []
    | PBArray _ | PBString _ | PBOther => processedBy e
    end.
Proof.
  destruct e as [i ty ts sa ta pl pb st]. unfold withDefaults. simpl.
  destruct (String.eqb i ""); simpl; destruct ts; simpl;
    destruct pb as [ids|[|c s]| |]; simpl; destruct st; reflexivity.
Qed.

(** X4 (the defaults of [publish]).  Filling in the defaults twice is
    filling them in once; a record that is complete is published as it
    is; with a non-empty generated id the defaults complete a record
    exactly when its [processedBy] is an array, missing, falsy or the
    empty string: a non-empty string and any other truthy value are
    stored as they are.  The type, the agents and the payload are never
    touched. *)
Theorem withDefaults_completes (freshId : string) (now : Z) (e : BaseEvent) :
  let e' := withDefaults freshId now e in
  withDefaults freshId now e' = e' /\
  (complete e -> e' = e) /\
  (freshId <> "" ->
   (complete e' <->
    processedBy e <> PBOther /\
    forall s, processedBy e = PBString s -> s = "")) /\
  type e' = type e /\ sourceAgent e' = sourceAgent e /\
  targetAgent e' = targetAgent e /\ payload e' = payload e.
Proof.
  intros e'. split; [|split; [|split]].
  - subst e'. destruct e as [i ty ts sa ta pl pb st]. unfold withDefaults. simpl.
    destruct (String.eqb_spec i "") as [->|Hi]; simpl;
      destruct ts as [t|]; simpl;
      destruct pb as [ids|[|c s]| |]; simpl;
      destruct st as [x|]; simpl;
      repeat match goal with
             | |- context [String.eqb ?a ""] =>
                 destruct (String.eqb_spec a ""); simpl
             end;
      try reflexivity; try contradiction; subst; reflexivity.
  - apply withDefaults_of_complete.
  - intros Hf. split.
    + intros (_ & _ & _ & ids & Hpb). subst e'.
      rewrite withDefaults_processedBy in Hpb.
      destruct (processedBy e) as [ids'|[|c s]| |]; try discriminate Hpb;
        (split; [discriminate | intros s' Hs'; now injection Hs' as <-])
        || (split; [discriminate | intros s' Hs'; discriminate Hs']).
    + intros [Ho Hs]. now apply withDefaults_complete.
  - subst e'. destruct e as [i ty ts sa ta pl pb st]. unfold withDefaults. simpl.
    destruct (String.eqb i ""); simpl; destruct ts; simpl;
      destruct pb as [ids|[|c s]| |]; simpl; destruct st; simpl;
      repeat split; reflexivity.
Qed.

(** ** What [poll] reads and dispatches *)

(** X5 ([poll], nothing to do).  Without a pending directory [poll]
    rejects with the error of [readdir] and changes nothing; with a
    pending directory in which no file is listed (it may hold temporary,
    hidden or other files) it resolves and changes nothing. *)
Theorem poll_nothing_listed (bus : EventBus) (w : World) :
  (pending_files (fs w) = None -> poll bus w = (Throw ENOENT, w)) /\
  (forall d, pending_files (fs w) = Some d -> listed d = [] ->
             poll bus w = (Ok tt, w)).
Proof.
  split; [apply poll_no_directory|].
  intros d Hp Hl. rewrite (poll_unfold bus w d Hp), Hl. reflexivity.
Qed.

Section PollDispatches.

Variable bus : EventBus.
Variable w : World.
Variable d : Dir.

Hypothesis Hpending : pending_files (fs w) = Some d.
Hypothesis Hnames : NoDup (map fst d).

(** X6 ([poll], what is dispatched).  Every record a cycle enters
    [processEvent] with is the record of a listed, parseable pending
    file; and a cycle that resolves has dispatched the record of every
    such file, once each. *)
Theorem poll_dispatches_listed_records :
  exists tr,
    trace (snd (poll bus w)) = trace w ++ tr /\
    (forall e, In e (dispatches tr) -> In e (events_of d)) /\
    (fst (poll bus w) = Ok tt -> Permutation (dispatches tr) (events_of d)).
Proof.
  destruct (poll_run bus w d Hpending)
    as (tr & done & rest & H1 & H2 & H3 & H4 & _).
  rewrite (parsed_listed d Hnames) in H2.
  exists tr. split; [exact H1|]. split.
  - intros e He. rewrite H3 in He.
    apply (Permutation_in e (sort_events_perm (events_of d))).
    rewrite H2. apply in_or_app. now left.
  - intros Hok. rewrite (H4 Hok), app_nil_r in H2.
    rewrite H3, <- H2. apply sort_events_perm.
Qed.

End PollDispatches.

Lemma poll_dispatches_listed_records_witness :
  exists tr,
    trace (snd (poll workerBus (storeOf withUnmarkable))) = tr /\
    forall e, In e (dispatches tr) -> In e (events_of withUnmarkable).
Proof.
  destruct (poll_dispatches_listed_records workerBus (storeOf withUnmarkable)
              withUnmarkable) as (tr & Htr & Hin & _).
  - reflexivity.
  - repeat constructor; simpl; intuition discriminate.
  - exists tr. split; [exact Htr | exact Hin].
Defined.

Section ReadLoop.

Variable w : World.
Variable d : Dir.
Hypothesis Hpending : pending_files (fs w) = Some d.

(** X7 (the read loop and unlisted files).  The read loop of [poll]
    neither changes nor removes a pending file that the filter does not
    list, whatever its text; the temporary file of a write in progress is
    such a file. *)
Theorem read_loop_ignores_unlisted (name : string) (acc : list BaseEvent) :
  isEventFile name = false ->
  pendingAt name (fs (snd (readEvents (listed d) acc w))) =
    pendingAt name (fs w) /\
  forall eid, isEventFile (tempFileName eid) = false.
Proof.
  intros Hname. split; [|apply temp_not_listed].
  apply (readEvents_keeps (fun f => pendingAt name f = pendingAt name (fs w)));
    [|reflexivity].
  apply Forall_forall. intros file Hfile w0 H0.
  apply filter_In in Hfile as [_ Hlisted].
  assert (Hne : name <> file) by (intros ->; congruence).
  destruct (quarantine_other file w0 name Hne) as (H1 & _).
  now rewrite H1.
Qed.

(** X9 (the read loop without an archive).  Where the processed directory
    does not exist the rename of an unparseable file fails and is
    swallowed: the read loop returns the records that parse and leaves
    the store as it found it, the unparseable file still pending. *)
Theorem read_loop_without_archive (files : list string) :
  processed_files (fs w) = None ->
  forall acc,
    readEvents files acc w = (Ok (acc ++ parsed_events d files), w).
Proof.
  intros Ha. induction files as [|file rest IH]; intros acc.
  - simpl. now rewrite app_nil_r.
  - simpl. unfold bind at 1. unfold readOne, try_catch, bind, readFile.
    simpl dirOf. rewrite Hpending. unfold jsonAt at 1.
    destruct (lookup file d) as [[raw|e]|]; simpl.
    + rewrite (quarantine_no_archive file w Ha). simpl. apply IH.
    + rewrite IH. now rewrite <- app_assoc.
    + apply IH.
Qed.

End ReadLoop.

(** A pending directory with a stale temporary file and a hidden file. *)
Lemma read_loop_ignores_unlisted_witness :
  pendingAt ".event-1001-a.tmp"
    (fs (snd (readEvents (listed withGarbage) []
                (storeOf ((".event-1001-a.tmp", Text "{ half") :: withGarbage)))))
  = Some (Text "{ half").
Proof.
  destruct (read_loop_ignores_unlisted
              (storeOf ((".event-1001-a.tmp", Text "{ half") :: withGarbage))
              ((".event-1001-a.tmp", Text "{ half") :: withGarbage)
              ".event-1001-a.tmp" [] eq_refl) as [H _].
  exact H.
Defined.

Lemma read_loop_without_archive_witness :
  readEvents ["broken.json"; "event-1001-a.json"] []
    (mkWorld (mkFS true true (Some withGarbage) None) []) =
  (Ok [jobCreated], mkWorld (mkFS true true (Some withGarbage) None) []).
Proof.
  apply (read_loop_without_archive
           (mkWorld (mkFS true true (Some withGarbage) None) []) withGarbage
           eq_refl ["broken.json"; "event-1001-a.json"] eq_refl []).
Defined.

(** ** Moving, and losing the race for a record *)

(** X8 ([moveToProcessed]).  For an id that is a plain file name the move
    never throws and never loses the text: a pending resource ends up in
    the archive under the same name, replacing whatever the archive held
    there, and is removed from pending; without an archive directory, or
    without the pending resource, nothing changes at all.  No other
    resource of either directory is touched. *)
Theorem moveToProcessed_conserves (eid : string) (w : World) :
  plain_id eid = true ->
  let name := eventFileName eid in
  let w' := snd (moveToProcessed eid w) in
  fst (moveToProcessed eid w) = Ok tt /\
  (forall c, pendingAt name (fs w) = Some c ->
     processed_files (fs w) <> None ->
     pendingAt name (fs w') = None /\ archiveAt name (fs w') = Some c) /\
  (pendingAt name (fs w) = None \/ processed_files (fs w) = None -> w' = w) /\
  (forall other, other <> name ->
     pendingAt other (fs w') = pendingAt other (fs w) /\
     archiveAt other (fs w') = archiveAt other (fs w)).
Proof.
  intros _ name w'. split; [apply moveToProcessed_never_throws|].
  split; [|split].
  - intros c Hc Ha. subst w'. unfold pendingAt in Hc.
    destruct (pending_files (fs w)) as [d|] eqn:Ed; [|discriminate].
    destruct (processed_files (fs w)) as [a|] eqn:Ea; [|contradiction].
    rewrite (moveToProcessed_moves eid w d a c Ed Ea Hc).
    unfold pendingAt, archiveAt. simpl.
    now rewrite lookup_remove_eq, lookup_write_eq.
  - subst w'. intros [H|H].
    + now rewrite (moveToProcessed_gone eid w H).
    + now rewrite (moveToProcessed_no_archive eid w H).
  - intros other Hne. subst w'.
    split; [|now apply moveToProcessed_archive_frame].
    destruct (pendingAt name (fs w)) as [c|] eqn:El;
      [|now rewrite (moveToProcessed_gone eid w El)].
    destruct (processed_files (fs w)) as [a|] eqn:Ea;
      [|now rewrite (moveToProcessed_no_archive eid w Ea)].
    unfold pendingAt in El.
    destruct (pending_files (fs w)) as [d|] eqn:Ed; [|discriminate].
    rewrite (moveToProcessed_moves eid w d a c Ed Ea El).
    unfold pendingAt. simpl. rewrite Ed. now apply lookup_remove_ne.
Qed.

(** X10 ([processEvent], the lost race).  A consumer runs its handlers
    for a record, with a plain file name for an id, whose pending
    resource is gone by the time they are done (another consumer
    archived it).  Whether the consumer would have archived or updated
    the record, [processEvent] resolves having written nothing: the
    store is as the handlers left it, and the record does not come back
    to the pending directory. *)
Theorem processEvent_lost_race (bus : EventBus) (event : BaseEvent)
    (ids : list string) (w : World) :
  plain_id (id event) = true ->
  processedBy event = PBArray ids ->
  ~ In (agentId bus) ids ->
  pendingAt (eventFileName (id event)) (fs (afterHandlers bus event w)) = None ->
  processEvent bus event w = (Ok tt, afterHandlers bus event w).
Proof.
  intros _ Hids Hnew Hgone.
  rewrite (processEvent_array bus event ids w Hids)
    by now apply existsb_eqb_false.
  destruct (Nat.leb 3 _).
  - now apply moveToProcessed_gone.
  - now apply updatePending_gone.
Qed.

Lemma processEvent_lost_race_witness :
  processEvent workerBus seenByHiring emptyStore =
    (Ok tt, afterHandlers workerBus seenByHiring emptyStore).
Proof.
  apply (processEvent_lost_race workerBus seenByHiring ["hiring-1"] emptyStore).
  - reflexivity.
  - reflexivity.
  - exact worker_is_new.
  - reflexivity.
Defined.

(** ** A record that can never be marked *)

Lemma callHandlers_neutral (event : BaseEvent) (hs : list EventHandler)
    (k : nat) (w : World) :
  Forall store_neutral hs ->
  fs (snd (callHandlers event hs k w)) = fs w.
Proof.
  intros Hn.
  destruct (callHandlers_run (fun f => f = fs w) event hs) with (k := k) (w := w)
    as (outs & f & _ & Hf & ->); auto.
  eapply Forall_impl; [|exact Hn]. intros h Hh e f ->. apply Hh.
Qed.

Section Refire.

Variable bus : EventBus.
Variable d : Dir.
Variable name : string.
Variable bad : BaseEvent.
Variable s : string.

Hypothesis Hd : holds_batch d [name] [bad].
Hypothesis Hstring : processedBy bad = PBString s.
Hypothesis Hmiss : str_includes s (agentId bus) = false.
Hypothesis Hneutral : forall t, Forall store_neutral (handlers bus t).

Let hs := handlers bus (type bad).

Lemma refire_cycle (w : World) :
  pending_files (fs w) = Some d ->
  poll bus w =
    (Throw TypeError,
     mkWorld (fs w)
       (trace w ++ Dispatch bad ::
          invocations bad 0 (handlerOutcomes bad hs (fs w)))).
Proof.
  intros Hp. rewrite (poll_unfold bus w d Hp).
  rewrite (readEvents_all_parse d (listed d) (holds_batch_parses d _ _ Hd) [] w Hp).
  simpl snd.
  pose proof (holds_batch_read d _ _ Hd) as Hperm.
  apply Permutation_sym, Permutation_length_1_inv in Hperm. rewrite Hperm.
  simpl sort_events. rewrite processAll_cons.
  rewrite (processEvent_string bus bad s w Hstring Hmiss). simpl fst. simpl snd.
  f_equal. unfold afterHandlers.
  pose proof (callHandlers_neutral bad hs 0 (dispatched bad w) (Hneutral _)) as Hfs.
  pose proof (callHandlers_outcomes bad hs 0 (dispatched bad w)) as Htr.
  fold hs.
  destruct (snd (callHandlers bad hs 0 (dispatched bad w))) as [f tr].
  simpl in *. subst f. rewrite Htr, <- app_assoc. reflexivity.
Qed.


End Refire.


(** ** Starting and stopping *)

Module TimerFacts.
Import Scheduler.

Lemma step_timer_tracked (s s' : State) (l : Step) :
  is_stop l = false -> step s l = Some s' ->
  started_once s -> timer_tracked s -> timer_tracked s'.
Proof.
  intros Hl Hstep (HA & HB & HC & HD) Ht. unfold timer_tracked in *.
  destruct s as [b ts nt st tk]. simpl in *.
  destruct l; simpl in Hstep; try discriminate Hl.
  - destruct (isPolling b); injection Hstep as <-; simpl; exact Ht.
  - destruct st as [|k]; [discriminate|]. injection Hstep as <-. simpl.
    assert (k = 0) by lia. subst k. destruct (HC eq_refl) as [-> _].
    reflexivity.
  - destruct st as [|k]; [discriminate|]. injection Hstep as <-. exact Ht.
  - destruct (existsb (Nat.eqb t) ts); [|discriminate].
    injection Hstep as <-. exact Ht.
  - destruct tk as [|k]; [discriminate|]. injection Hstep as <-. exact Ht.
Qed.

Lemma steps_tracked (ls : list Step) :
  forall s s',
    forallb (fun l => negb (is_stop l)) ls = true ->
    steps s ls = Some s' ->
    started_once s /\ timer_tracked s ->
    started_once s' /\ timer_tracked s'.
Proof.
  induction ls as [|l ls IH]; intros s s' Hns Hsteps Hinv; simpl in *.
  - now injection Hsteps as <-.
  - apply andb_prop in Hns as [Hl Hns].
    destruct (step s l) as [s1|] eqn:E; [|discriminate].
    assert (Hl' : is_stop l = false) by now destruct (is_stop l).
    apply (IH s1 s' Hns Hsteps). destruct Hinv as [H1 H2]. split.
    + now apply (SchedulerFacts.step_started_once s s1 l).
    + now apply (step_timer_tracked s s1 l).
Qed.

Lemma idle_tracked (agent : string) :
  started_once (idle agent) /\ timer_tracked (idle agent).
Proof. unfold started_once, timer_tracked. simpl. repeat split; auto. Qed.

(** X12 ([stopPolling]).  On a bus started from idle, [stopPolling] leaves
    no interval armed, so that no tick follows, and marks the bus as not
    polling; the cycles in flight are not cancelled; a second
    [stopPolling] does nothing. *)
Theorem stop_disarms_timer (agent : string) (ls : list Step) (s : State) :
  forallb (fun l => negb (is_stop l)) ls = true ->
  steps (idle agent) ls = Some s ->
  exists s',
    step s CallStop = Some s' /\
    timers s' = [] /\
    (forall t, step s' (Tick t) = None) /\
    isPolling (bus s') = false /\
    inFlight s' = inFlight s /\
    step s' CallStop = Some s'.
Proof.
  intros Hns Hsteps.
  destruct (steps_tracked ls _ _ Hns Hsteps (idle_tracked agent))
    as ((HA & HB & HC & HD) & Ht).
  unfold timer_tracked in Ht. destruct s as [b ts nt st tk]. simpl in *.
  destruct (isPolling b) eqn:Ep; simpl.
  - eexists. split; [reflexivity|]. simpl.
    assert (Hts : match pollingTimer b with
                  | Some t => filter (fun u => negb (Nat.eqb t u)) ts
                  | None => ts
                  end = []).
    { destruct (pollingTimer b) as [t|]; subst ts; simpl;
        [now rewrite Nat.eqb_refl | reflexivity]. }
    rewrite Hts. repeat split; reflexivity.
  - destruct (HA eq_refl) as (-> & -> & ->).
    eexists. split; [reflexivity|]. simpl.
    repeat split; try reflexivity; now rewrite Ep.
Qed.

Lemma stop_disarms_timer_witness :
  exists s s',
    steps (idle "worker-1") twoTicks = Some s /\
    step s CallStop = Some s' /\ timers s' = [] /\ inFlight s' = 2.
Proof.
  destruct (stop_disarms_timer "worker-1" twoTicks _ eq_refl eq_refl)
    as (s' & Hstep & Hts & _ & _ & Hfl & _).
  eexists. exists s'. split; [reflexivity|].
  split; [exact Hstep|]. split; [exact Hts | exact Hfl].
Defined.

(** X13 ([stopPolling] during the initial poll).  [startPolling] arms the
    interval after its awaited poll without looking at [isPolling] again.
    If the bus was stopped while that poll was in flight, the interval is
    armed on a bus that is not polling: [stopPolling] returns at its
    guard, any number of times, and the interval keeps firing cycles. *)
Theorem stop_during_initial_poll_leaves_timer (s : State) (k : nat) :
  starting s = S k ->
  isPolling (bus s) = false ->
  exists s',
    step s InitialResolved = Some s' /\
    isPolling (bus s') = false /\
    In (nextTimer s) (timers s') /\
    (forall n, steps s' (repeat CallStop n) = Some s') /\
    exists s'', step s' (Tick (nextTimer s)) = Some s'' /\
                ticking s'' = S (ticking s').
Proof.
  intros Hst Hp. destruct s as [b ts nt st tk]. simpl in *. subst st.
  eexists. split; [reflexivity|]. simpl. rewrite Hp.
  split; [reflexivity|]. split; [now left|]. split.
  - induction n as [|n IH]; simpl; [reflexivity|]. rewrite ?Hp. simpl. exact IH.
  - rewrite Nat.eqb_refl. simpl. eexists. split; reflexivity.
Qed.

Lemma stop_during_initial_poll_leaves_timer_witness :
  exists s s',
    steps (idle "worker-1") [CallStart; CallStop] = Some s /\
    step s InitialResolved = Some s' /\
    timers s' = [0] /\ steps s' [CallStop; CallStop; Tick 0] <> None.
Proof.
  eexists. 
  destruct (stop_during_initial_poll_leaves_timer
              (mkState (setPolling false None
                          (setPolling true None
                             (mkBus "worker-1" (fun _ => []) 5000 false None)))
                       [] 0 1 0) 0 eq_refl eq_refl)
    as (s' & Hstep & _).
  exists s'. split; [reflexivity|]. split; [exact Hstep|].
  simpl in Hstep. injection Hstep as <-. split; [reflexivity | discriminate].
Defined.

(** X14 (a rejected initial poll).  If the poll that [startPolling] awaits
    rejects, [startPolling] rejects before arming the interval but after
    setting [isPolling]: the bus is left marked as polling with no
    interval and no cycle in flight.  Nothing but [stopPolling] changes
    that state: a further [startPolling] returns at its guard. *)
Theorem rejected_initial_poll_strands_bus (agent : string) (ls : list Step)
    (s : State) :
  forallb (fun l => negb (is_stop l)) ls = true ->
  steps (idle agent) ls = Some s ->
  starting s = 1 ->
  exists s',
    step s InitialRejected = Some s' /\
    isPolling (bus s') = true /\ timers s' = [] /\ inFlight s' = 0 /\
    step s' CallStart = Some s' /\
    forall l, is_stop l = false -> l <> CallStart -> step s' l = None.
Proof.
  intros Hns Hsteps H1.
  destruct (SchedulerFacts.steps_started_once ls _ _ Hns Hsteps)
    as (HA & HB & HC & HD).
  { unfold started_once. simpl. repeat split; auto. }
  destruct (HC H1) as [Hts Htk].
  destruct s as [b ts nt st tk]. simpl in *. subst st ts tk.
  assert (Hp : isPolling b = true).
  { destruct (isPolling b); [reflexivity|].
    destruct (HA eq_refl) as (H0 & _). discriminate H0. }
  eexists. split; [reflexivity|]. simpl. rewrite Hp.
  repeat split.
  intros l Hl Hne. destruct l; simpl; try reflexivity;
    try discriminate Hl. contradiction.
Qed.

Lemma rejected_initial_poll_strands_bus_witness :
  exists s',
    steps (idle "worker-1") [CallStart; InitialRejected] = Some s' /\
    isPolling (bus s') = true /\ timers s' = [].
Proof.
  destruct (rejected_initial_poll_strands_bus "worker-1" [CallStart]
              _ eq_refl eq_refl eq_refl) as (s' & Hstep & Hp & Hts & _).
  exists s'. split; [exact Hstep|]. split; [exact Hp | exact Hts].
Defined.

End TimerFacts.

(** ** Ids and file names *)

Lemma substring_all (t : string) : String.substring 0 (String.length t) t = t.
Proof. induction t as [|c t IH]; simpl; [reflexivity | now rewrite IH]. Qed.

Lemma substring_after (a t : string) :
  String.substring (String.length a) (String.length t) (a ++ t)%string = t.
Proof. induction a as [|c a IH]; simpl; [apply substring_all | exact IH]. Qed.

Lemma endsWith_append (a t : string) : endsWith (a ++ t)%string t = true.
Proof.
  unfold endsWith. rewrite length_append.
  replace (Nat.leb (String.length t) (String.length a + String.length t))
    with true by (symmetry; apply Nat.leb_le; lia).
  replace (String.length a + String.length t - String.length t)
    with (String.length a) by lia.
  rewrite substring_after. apply String.eqb_refl.
Qed.

Lemma startsWith_dot (eid : string) :
  eid <> "" -> startsWith (eventFileName eid) "." = startsWith eid ".".
Proof. destruct eid as [|c eid]; [contradiction | reflexivity]. Qed.

(** X15 ([generateEventId]).  An id in the generated format is not empty,
    so [publish] keeps it; its event file is one that [poll] lists; and
    that file is neither a temporary file nor the quarantine name of any
    file. *)
Theorem generated_id_is_listed (timestamp uuid : string) :
  let eid := generateEventId timestamp uuid in
  eid <> "" /\
  isEventFile (eventFileName eid) = true /\
  (forall other, eventFileName eid <> tempFileName other) /\
  (forall file, eventFileName eid <> quarantineName file).
Proof.
  intros eid. split; [discriminate|]. split; [|split].
  - unfold isEventFile, eventFileName. rewrite endsWith_append. reflexivity.
  - intros other H. symmetry in H. revert H. apply temp_is_no_event_file.
  - intros file. discriminate.
Qed.

Lemma events_of_app (d1 d2 : Dir) :
  events_of (d1 ++ d2) = events_of d1 ++ events_of d2.
Proof. apply flat_map_app. Qed.

Lemma events_of_remove_unlisted (name : string) (d : Dir) :
  isEventFile name = false -> events_of (remove name d) = events_of d.
Proof.
  intros Hname. unfold events_of, remove.
  induction d as [|[n c] d IH]; simpl; [reflexivity|].
  destruct (String.eqb_spec name n) as [<-|Hne]; simpl.
  - rewrite Hname. exact IH.
  - now rewrite IH.
Qed.

Lemma events_of_write_unlisted (name : string) (c : Content) (d : Dir) :
  isEventFile name = false -> events_of (write name c d) = events_of d.
Proof.
  intros Hname. unfold write.
  rewrite events_of_app, (events_of_remove_unlisted name d Hname).
  unfold events_of at 2. simpl. rewrite Hname. apply app_nil_r.
Qed.

Section HiddenId.

Variables (freshId : string) (now : Z) (event : BaseEvent).
Variable w : World.
Variable d : Dir.

Let ev := withDefaults freshId now event.
Let name := eventFileName (id ev).
Let w' := snd (publish freshId now event w).

Hypothesis Hpending : pending_files (fs w) = Some d.
Hypothesis Hnew : lookup name d = None.
Hypothesis Hdot : startsWith (id ev) "." = true.
Hypothesis Hplain : plain_id (id ev) = true.

(** X16 (an id that begins with a dot).  A record published under an id
    that is a plain file name beginning with a dot is written to the
    pending directory, but its file is one the filter of [poll] passes
    over: the records that a cycle reads are the same as before the
    publish, so no consumer is ever handed the record. *)
Theorem dotted_id_is_never_read :
  exists d',
    pending_files (fs w') = Some d' /\
    lookup name d' = Some (Json ev) /\
    ~ In name (listed d') /\
    events_of d' = events_of d.
Proof using Hpending Hnew Hdot Hplain.
  assert (Hname : isEventFile name = false).
  { unfold isEventFile. apply andb_false_intro2.
    subst name. rewrite startsWith_dot; [now rewrite Hdot|].
    intros H. rewrite H in Hdot. discriminate. }
  subst w'. rewrite (publish_new freshId now event w d Hpending Hnew).
  fold ev. fold name. simpl. eexists. split; [reflexivity|].
  split; [apply lookup_write_eq|]. split.
  - intros Hin. apply filter_In in Hin as [_ H]. congruence.
  - rewrite (events_of_write_unlisted name _ _ Hname).
    rewrite (events_of_remove_unlisted _ _ (temp_not_listed (id ev))).
    apply events_of_write_unlisted, temp_not_listed.
Qed.

End HiddenId.

Lemma dotted_id_is_never_read_witness :
  exists d',
    pending_files (fs (snd (publish "fresh" 0 (setId ".draft" jobCreated)
                              (storeOf newestFirst)))) = Some d' /\
    events_of d' = events_of newestFirst.
Proof.
  destruct (dotted_id_is_never_read "fresh" 0 (setId ".draft" jobCreated)
              (storeOf newestFirst) newestFirst eq_refl eq_refl eq_refl eq_refl)
    as (d' & Hd' & _ & _ & Hev).
  exists d'. split; [exact Hd' | exact Hev].
Defined.

(** ** [AgentSubscriber.publishEvent] *)

Section PublishEvent.

Variable sub : AgentSubscriber.
Variables (freshId : string) (now : Z) (event : BaseEvent).
Variable w : World.
Variable d : Dir.

Let ev := withDefaults freshId now (setSourceAgent (agentType sub) event).
Let name := eventFileName (id (withDefaults freshId now event)).
Let w' := snd (publishEvent sub freshId now event w).

Hypothesis Hpending : pending_files (fs w) = Some d.
Hypothesis Hnew : lookup name d = None.
Hypothesis Hplain : plain_id (id (withDefaults freshId now event)) = true.

(** X17 ([publishEvent]).  Whatever source agent the caller wrote into
    the record, the resource an agent publishes (under an id that is a
    plain file name and is not pending) names the agent's own type as
    its source; the id it is published under and every other field are
    those [publish] would have given the caller's record. *)
Theorem publishEvent_stamps_source :
  pendingAt name (fs w') = Some (Json ev) /\
  sourceAgent ev = agentType sub /\
  ev = setSourceAgent (agentType sub) (withDefaults freshId now event).
Proof using Hpending Hnew Hplain.
  assert (Hcomm : ev = setSourceAgent (agentType sub)
                         (withDefaults freshId now event)).
  { subst ev. destruct event as [i ty ts sa ta pl pb st].
    unfold withDefaults, setSourceAgent. simpl.
    destruct (String.eqb i ""); simpl; destruct ts; simpl;
      destruct pb as [ids|[|c s]| |]; simpl; destruct st; reflexivity. }
  assert (Hid : eventFileName (id ev) = name) by (rewrite Hcomm; reflexivity).
  split; [|split; [rewrite Hcomm; reflexivity | exact Hcomm]].
  subst w'. unfold publishEvent.
  rewrite (publish_new freshId now _ w d Hpending);
    [|fold ev; rewrite Hid; exact Hnew].
  fold ev. unfold pendingAt. simpl. rewrite Hid. apply lookup_write_eq.
Qed.

End PublishEvent.

Lemma publishEvent_stamps_source_witness :
  let sub := mkSubscriber worker "worker-1" workerBus in
  pendingAt "event-1001-a.json"
    (fs (snd (publishEvent sub "fresh" 0 jobCreated emptyStore))) =
  Some (Json (setSourceAgent worker jobCreated)).
Proof.
  destruct (publishEvent_stamps_source (mkSubscriber worker "worker-1" workerBus)
              "fresh" 0 jobCreated emptyStore [] eq_refl eq_refl eq_refl)
    as (H & _).
  exact H.
Defined.

(** ** The sort, with ties *)

Lemma ts_le_trans (a b c : BaseEvent) : ts_le a b -> ts_le b c -> ts_le a c.
Proof.
  intros (x & y & Ha & Hb & H1) (y' & z & Hb' & Hc & H2).
  rewrite Hb in Hb'. injection Hb' as <-. exists x, z. repeat split; auto. lia.
Qed.

Lemma insert_event_sorted (x : BaseEvent) (l : list BaseEvent) :
  has_timestamp x -> Forall has_timestamp l ->
  StronglySorted ts_le l -> StronglySorted ts_le (insert_event x l).
Proof.
  unfold has_timestamp. intros Hx Hl Hs.
  destruct (timestamp x) as [a|] eqn:Ea; [|contradiction].
  induction Hs as [|y l Hs IH Hall]; simpl.
  - repeat constructor.
  - inversion Hl as [|? ? Hy Hl']; subst.
    destruct (timestamp y) as [b|] eqn:Eb; [|contradiction].
    unfold compareTimestamps. rewrite Ea, Eb.
    destruct (Z.leb_spec (a - b) 0).
    + assert (Hxy : ts_le x y) by (exists a, b; repeat split; auto; lia).
      constructor; [now constructor|]. constructor; [exact Hxy|].
      eapply Forall_impl; [|exact Hall]. intros z Hz.
      now apply (ts_le_trans x y z).
    + constructor; [now apply IH|].
      apply (Permutation_Forall (Permutation_sym (insert_event_perm x l))).
      constructor; [|exact Hall].
      exists b, a. repeat split; auto. lia.
Qed.

Lemma insert_event_dated (t : Z) (x : BaseEvent) (l : list BaseEvent) :
  has_timestamp x -> Forall has_timestamp l ->
  filter (dated t) (insert_event x l) = filter (dated t) (x :: l).
Proof.
  unfold has_timestamp. intros Hx Hl.
  destruct (timestamp x) as [a|] eqn:Ea; [|contradiction].
  induction Hl as [|y l Hy Hl IH]; [reflexivity|].
  destruct (timestamp y) as [b|] eqn:Eb; [|contradiction].
  simpl insert_event. unfold compareTimestamps. rewrite Ea, Eb.
  destruct (Z.leb_spec (a - b) 0); [reflexivity|].
  simpl filter at 1. rewrite IH. simpl. unfold dated. rewrite Ea, Eb.
  destruct (Z.eqb_spec a t), (Z.eqb_spec b t); try reflexivity. lia.
Qed.

(** X18 (the sort of [poll]).  On records that all carry a date the sort
    returns the same records in non-decreasing date order, and it is
    stable: records with the same date stay in the order in which their
    files were listed. *)
Theorem sort_events_sorted_stable (l : list BaseEvent) :
  Forall has_timestamp l ->
  Permutation (sort_events l) l /\
  StronglySorted ts_le (sort_events l) /\
  forall t, filter (dated t) (sort_events l) = filter (dated t) l.
Proof.
  intros Hl. split; [apply sort_events_perm|].
  assert (Hts : Forall has_timestamp (sort_events l))
    by (apply (Permutation_Forall (Permutation_sym (sort_events_perm l))), Hl).
  clear Hts. induction Hl as [|x l Hx Hl IH]; simpl.
  - split; [constructor | reflexivity].
  - destruct IH as [Hs Hst].
    assert (Hts : Forall has_timestamp (sort_events l))
      by (apply (Permutation_Forall (Permutation_sym (sort_events_perm l))), Hl).
    split; [now apply insert_event_sorted|].
    intros t. rewrite (insert_event_dated t x _ Hx Hts). simpl.
    now rewrite Hst.
Qed.

(** Two records with the same date, and an older one listed last. *)
Lemma sort_events_sorted_stable_witness :
  sort_events [jobAccepted; unmarkable; jobCreated] =
    [jobCreated; jobAccepted; unmarkable] /\
  filter (dated 2000) (sort_events [jobAccepted; unmarkable; jobCreated]) =
    [jobAccepted; unmarkable].
Proof.
  destruct (sort_events_sorted_stable [jobAccepted; unmarkable; jobCreated])
    as (_ & _ & Hst).
  - repeat constructor; discriminate.
  - split; [reflexivity | exact (Hst 2000%Z)].
Defined.

(** ** [ensureDirectories] where it succeeds *)

(** X19 ([ensureDirectories], lines 62-71).  Where the process may create
    directories, or the three directories exist already, the call
    resolves after three [mkdir] calls; the three directories exist
    afterwards; a directory that existed keeps its files and a new one is
    empty; and a second call changes nothing in the store. *)
Theorem ensureDirectories_creates (w : World) :
  can_mkdir (fs w) = true \/ directories_exist (fs w) ->
  let w' := snd (ensureDirectories w) in
  fst (ensureDirectories w) = Ok tt /\
  trace w' = trace w ++ [Mkdir EventsDir; Mkdir PendingDir; Mkdir ProcessedDir] /\
  directories_exist (fs w') /\
  pending_files (fs w') = Some (contents (pending_files (fs w))) /\
  processed_files (fs w') = Some (contents (processed_files (fs w))) /\
  fs (snd (ensureDirectories w')) = fs w'.
Proof.
  destruct w as [[c ev p a] tr]. simpl fs. simpl trace. intros H.
  assert (Hcase : c = true \/
                  (c = false /\ ev = true /\ exists d1 d2, p = Some d1 /\ a = Some d2)).
  { destruct c; [now left | right]. destruct H as [H|(H1 & H2 & H3)];
      [discriminate|]. simpl in *.
    destruct p as [d1|]; [|discriminate]. destruct a as [d2|]; [|discriminate].
    split; [reflexivity|]. split; [exact H1|]. now exists d1, d2. }
  clear H. unfold directories_exist.
  destruct Hcase as [->|(-> & -> & d1 & d2 & -> & ->)].
  - destruct ev, p as [d1|], a as [d2|];
      unfold ensureDirectories, try_catch, bind, mkdir, throw; simpl;
      rewrite <- ?app_assoc; repeat split; reflexivity.
  - unfold ensureDirectories, try_catch, bind, mkdir, throw. simpl.
    rewrite <- ?app_assoc. repeat split; reflexivity.
Qed.

(** A root with nothing under it, where directories may be created. *)
Lemma ensureDirectories_creates_witness :
  let w := mkWorld (mkFS true false None None) [] in
  fst (ensureDirectories w) = Ok tt /\
  fs (snd (ensureDirectories w)) = mkFS true true (Some []) (Some []).
Proof.
  destruct (ensureDirectories_creates (mkWorld (mkFS true false None None) []))
    as (Hok & _).
  - left. reflexivity.
  - split; [exact Hok | reflexivity].
Defined.

(** ** Invariants of the pending directory *)

Lemma keeps_shrinking {A} (P : FS -> Prop) (m : M A) :
  (forall f, P f ->
     forall f', (forall name c, pendingAt name f' = Some c -> pendingAt name f = Some c) ->
     P f') ->
  (forall w name c,
     pendingAt name (fs (snd (m w))) = Some c -> pendingAt name (fs w) = Some c) ->
  keeps P m.
Proof. intros HP Hm w Hw. apply (HP (fs w) Hw). apply Hm. Qed.

Lemma names_match_shrinks (f : FS) :
  names_match f ->
  forall f', (forall name c, pendingAt name f' = Some c -> pendingAt name f = Some c) ->
  names_match f'.
Proof. intros H f' Hsub name e Hn Hl. apply (H name e Hn). now apply Hsub. Qed.

Lemma duplicate_free_shrinks (f : FS) :
  duplicate_free f ->
  forall f', (forall name c, pendingAt name f' = Some c -> pendingAt name f = Some c) ->
  duplicate_free f'.
Proof.
  intros H f' Hsub name e ids Hn Hl. apply (H name e ids Hn). now apply Hsub.
Qed.

Lemma names_match_own_writes (agent : string) :
  own_writes_keep agent (fun _ => True) names_match.
Proof.
  split.
  - intros e _. apply (keeps_shrinking _ _ names_match_shrinks).
    intros w. apply moveToProcessed_shrinks.
  - intros e ids _ _ w H name e' Hn Hl.
    destruct (updatePending_lookup _ w name (Json e') Hn Hl) as [[-> Heq]|Hold].
    + injection Heq as ->. reflexivity.
    + now apply (H name e').
Qed.

Lemma names_match_quarantine : quarantine_keeps names_match.
Proof.
  intros file _. apply (keeps_shrinking _ _ names_match_shrinks).
  intros w. apply quarantine_shrinks.
Qed.

Lemma publish_lookup (freshId : string) (now : Z) (event : BaseEvent)
    (w : World) (name : string) (c : Content) :
  isEventFile name = true ->
  pendingAt name (fs (snd (publish freshId now event w))) = Some c ->
  (name = eventFileName (id (withDefaults freshId now event)) /\
   c = Json (withDefaults freshId now event)) \/
  pendingAt name (fs w) = Some c.
Proof.
  intros Hname.
  set (ev := withDefaults freshId now event).
  destruct (pendingAt (eventFileName (id ev)) (fs w)) as [c0|] eqn:El.
  - rewrite (publish_duplicate freshId now event w c0 El). auto.
  - unfold pendingAt in El.
    destruct (pending_files (fs w)) as [d|] eqn:Ep.
    + rewrite (publish_new freshId now event w d Ep El). fold ev.
      unfold pendingAt. simpl. rewrite Ep.
      destruct (String.eqb_spec name (eventFileName (id ev))) as [->|Hne].
      * rewrite lookup_write_eq. intros H. injection H as <-. now left.
      * rewrite lookup_write_ne by assumption.
        assert (name <> tempFileName (id ev)).
        { intros ->. rewrite temp_not_listed in Hname. discriminate. }
        rewrite lookup_remove_ne, lookup_write_ne by assumption. now right.
    + unfold publish. unfold_io. simpl. repeat (rewrite ?Ep; simpl). auto.
Qed.

(** X20 (file names).  That every listed pending file is named after the
    id of the record it holds is an invariant of the bus: [publish] of a
    record whose id is a plain file name keeps it, and so does any
    number of poll cycles of a consumer whose handlers keep it.
    [processEvent] relies on it when it rewrites [${event.id}.json]
    rather than the file the record was read from. *)
Theorem names_match_invariant (bus : EventBus) (freshId : string) (now : Z)
    (event : BaseEvent) (n : nat) (w : World) :
  bus_preserves names_match bus ->
  names_match (fs w) ->
  plain_id (id (withDefaults freshId now event)) = true ->
  names_match (fs (snd (publish freshId now event w))) /\
  names_match (fs (snd (pollCycles n bus w))).
Proof.
  intros Hb Hw _. split.
  - intros name e Hn Hl.
    destruct (publish_lookup freshId now event w name (Json e) Hn Hl)
      as [[-> Heq]|Hold].
    + injection Heq as ->. reflexivity.
    + now apply (Hw name e).
  - revert w Hw. induction n as [|n IH]; intros w Hw; [exact Hw|].
    simpl pollCycles. unfold bind. rewrite swallow_ok. apply IH.
    apply (poll_keeps bus (fun _ => True) names_match
             (names_match_own_writes (agentId bus)) Hb (fun _ => I)
             names_match_quarantine w Hw).
Qed.

Lemma afterWorker_names_match : names_match (fs afterWorker).
Proof.
  intros name e _ Hl. unfold pendingAt in Hl.
  rewrite afterWorker_pending in Hl. cbn [lookup] in Hl.
  destruct (String.eqb_spec name "event-1001-a.json") as [->|]; [|discriminate].
  injection Hl as <-. reflexivity.
Qed.

(** The worker publishes a follow-up record and polls three times. *)
Lemma names_match_invariant_witness :
  names_match (fs (snd (publish "fresh" 0 jobAccepted afterWorker))) /\
  names_match (fs (snd (pollCycles 3 workerBus afterWorker))).
Proof.
  apply (names_match_invariant workerBus "fresh" 0 jobAccepted 3 afterWorker).
  - apply workerBus_preserves.
  - exact afterWorker_names_match.
  - reflexivity.
Defined.

Lemma duplicate_free_update (event : BaseEvent) (ids : list string)
    (agent : string) :
  NoDup ids -> ~ In agent ids ->
  keeps duplicate_free
    (updatePending (setProcessedBy (PBArray (ids ++ [agent])) event)).
Proof.
  intros Hnd Hnew w H name e ids' Hn Hl Hpb.
  destruct (updatePending_lookup _ w name (Json e) Hn Hl) as [[_ Heq]|Hold].
  - injection Heq as ->. simpl in Hpb. injection Hpb as <-.
    apply NoDup_app; [exact Hnd | repeat constructor; intros [] |].
    intros x Hx [<-|[]]. contradiction.
  - now apply (H name e ids').
Qed.

Section DuplicateFree.

Variable bus : EventBus.
Hypothesis Hhandlers : bus_preserves duplicate_free bus.

Lemma processEvent_duplicate_free (event : BaseEvent) :
  lists_once event -> keeps duplicate_free (processEvent bus event).
Proof.
  intros HQ w HP.
  destruct (processedBy event) as [ids| s | |] eqn:Epb.
  - destruct (existsb (String.eqb (agentId bus)) ids) eqn:Ein.
    + rewrite processEvent_skip by (rewrite Epb; simpl; now rewrite Ein).
      exact HP.
    + rewrite (processEvent_array bus event ids w Epb Ein).
      pose proof (afterHandlers_keeps duplicate_free bus event w Hhandlers HP) as H1.
      destruct (Nat.leb 3 _).
      * revert H1. apply (keeps_shrinking _ _ duplicate_free_shrinks).
        intros w'. apply moveToProcessed_shrinks.
      * revert H1. apply duplicate_free_update; [now apply HQ|].
        intros Hin. apply existsb_eqb_true in Hin. congruence.
  - destruct (str_includes s (agentId bus)) eqn:Ein.
    + rewrite processEvent_skip by (rewrite Epb; simpl; now rewrite Ein).
      exact HP.
    + rewrite (processEvent_string bus event s w Epb Ein). simpl.
      now apply afterHandlers_keeps.
  - rewrite (processEvent_no_includes bus event w TypeError)
      by now rewrite Epb.
    exact HP.
  - rewrite (processEvent_no_includes bus event w TypeError)
      by now rewrite Epb.
    exact HP.
Qed.

Lemma processAll_duplicate_free (events : list BaseEvent) :
  Forall lists_once events -> keeps duplicate_free (processAll bus events).
Proof.
  induction 1 as [|e rest He _ IH]; simpl.
  - apply keeps_ret.
  - apply keeps_bind; [now apply processEvent_duplicate_free | intros _; exact IH].
Qed.

Lemma poll_duplicate_free : keeps duplicate_free (poll bus).
Proof.
  intros w HP.
  destruct (pending_files (fs w)) as [d|] eqn:Ep;
    [|now rewrite (poll_no_directory bus w Ep)].
  rewrite (poll_unfold bus w d Ep).
  apply processAll_duplicate_free.
  - apply (Permutation_Forall (Permutation_sym (sort_events_perm _))).
    apply Forall_forall. intros e He.
    apply parsed_events_in in He as (file & Hf & Hl).
    apply filter_In in Hf as [_ Hf].
    intros ids Hids. apply (HP file e ids Hf); [|exact Hids].
    unfold pendingAt. now rewrite Ep.
  - revert w HP Ep. intros w HP _. revert w HP.
    apply readEvents_keeps. apply Forall_forall. intros f Hf.
    apply filter_In in Hf as [_ Hf].
    apply (keeps_shrinking _ _ duplicate_free_shrinks).
    intros w'. apply quarantine_shrinks.
Qed.

(** X21 (no consumer twice).  A consumer's id is appended to
    [processedBy] only after the membership test has failed, so the
    cycles of a consumer never make a pending record list a consumer
    twice: if no listed pending record does and the handlers keep it so,
    then none does after any number of poll cycles. *)
Theorem processedBy_stays_duplicate_free (n : nat) (w : World) :
  duplicate_free (fs w) ->
  duplicate_free (fs (snd (pollCycles n bus w))).
Proof.
  revert w. induction n as [|n IH]; intros w Hw; [exact Hw|].
  simpl pollCycles. unfold bind. rewrite swallow_ok. apply IH.
  now apply poll_duplicate_free.
Qed.

End DuplicateFree.

Lemma afterHiring_duplicate_free : duplicate_free (fs afterHiring).
Proof.
  intros name e ids _ Hl Hpb. unfold pendingAt in Hl.
  change (pending_files (fs afterHiring))
    with (Some [("event-1001-a.json", Json seenByHiring)]) in Hl.
  cbn [lookup] in Hl.
  destruct (String.eqb_spec name "event-1001-a.json") as [->|]; [|discriminate].
  injection Hl as <-. injection Hpb as <-. repeat constructor. intros [].
Qed.

(** The worker polls three times after the hiring agent has marked the
    record. *)
Lemma processedBy_stays_duplicate_free_witness :
  duplicate_free (fs (snd (pollCycles 3 workerBus afterHiring))).
Proof.
  apply (processedBy_stays_duplicate_free workerBus).
  - apply workerBus_preserves.
  - exact afterHiring_duplicate_free.
Defined.

(** ** From [publish] to the next cycle *)

Lemma listed_cons (entry : string * Content) (d : Dir) :
  listed (entry :: d) =
    if isEventFile (fst entry) then fst entry :: listed d else listed d.
Proof. reflexivity. Qed.

Lemma listed_app (d1 d2 : Dir) : listed (d1 ++ d2) = listed d1 ++ listed d2.
Proof. unfold listed. now rewrite map_app, filter_app. Qed.

Lemma listed_remove_nil (n : string) (d : Dir) :
  listed d = [] -> listed (remove n d) = [].
Proof.
  induction d as [|[m c] d IH]; [reflexivity|].
  rewrite listed_cons. simpl fst. unfold remove. simpl filter.
  destruct (isEventFile m) eqn:Em; [discriminate|]. intros Hd.
  destruct (negb (String.eqb n m)); [|now apply IH].
  rewrite listed_cons. simpl fst. rewrite Em. now apply IH.
Qed.

Lemma listed_nil_lookup (n : string) (d : Dir) :
  listed d = [] -> isEventFile n = true -> lookup n d = None.
Proof.
  intros Hd Hn. induction d as [|[m c] d IH]; [reflexivity|].
  rewrite listed_cons in Hd. simpl fst in Hd. simpl.
  destruct (String.eqb_spec n m) as [->|Hne].
  - rewrite Hn in Hd. discriminate.
  - destruct (isEventFile m); [discriminate | now apply IH].
Qed.

Section Delivery.

Variable bus : EventBus.
Variables (freshId : string) (now : Z) (event : BaseEvent).
Variable w : World.
Variable d : Dir.

Let ev := withDefaults freshId now event.
Let name := eventFileName (id ev).
Let hs := handlers bus (type ev).
Let w1 := snd (publish freshId now event w).
Let w2 := snd (poll bus w1).

Hypothesis Hpending : pending_files (fs w) = Some d.
Hypothesis Hempty : listed d = [].
Hypothesis Hplain : plain_id (id ev) = true.
Hypothesis Hname : isEventFile name = true.
Hypothesis Hfresh : processedBy ev = PBArray [].
Hypothesis Hhandlers :
  bus_preserves (fun f => pendingAt name f <> None) bus.

(** X22 (from [publish] to a consumer).  A record that nobody has marked
    is published into a pending directory in which no file is listed,
    under an id that is a plain file name and whose file [poll] lists.  The next cycle of a consumer
    whose handlers leave that file in place resolves; it dispatches the
    record and nothing else, calling each handler registered for the
    record's type once, in the order of registration; and it leaves the
    record pending with the consumer as its only entry in
    [processedBy]. *)
Theorem published_record_is_delivered :
  fst (poll bus w1) = Ok tt /\
  trace w2 =
    trace w ++ Dispatch ev :: invocations ev 0 (handlerOutcomes ev hs (fs w1)) /\
  pendingAt name (fs w2) =
    Some (Json (setProcessedBy (PBArray [agentId bus]) ev)).
Proof using Hpending Hempty Hplain Hname Hfresh Hhandlers.
  assert (Hnew : lookup name d = None) by now apply listed_nil_lookup.
  pose proof (publish_new freshId now event w d Hpending Hnew) as Hpub.
  cbv zeta in Hpub. fold ev in Hpub. fold name in Hpub.
  set (d1 := write name (Json ev) _) in Hpub.
  assert (Hp1 : pending_files (fs w1) = Some d1)
    by (subst w1; now rewrite Hpub).
  assert (Htr1 : trace w1 = trace w) by (subst w1; now rewrite Hpub).
  assert (Hl1 : lookup name d1 = Some (Json ev)) by apply lookup_write_eq.
  assert (Hlisted : listed d1 = [name]).
  { subst d1. unfold write at 1. rewrite listed_app.
    rewrite listed_remove_nil.
    - rewrite listed_cons. simpl fst. now rewrite Hname.
    - apply listed_remove_nil. unfold write. rewrite listed_app.
      rewrite listed_remove_nil by exact Hempty.
      rewrite listed_cons. simpl fst. now rewrite temp_not_listed. }
  assert (Hpoll : poll bus w1 =
                  (fst (processEvent bus ev w1), snd (processEvent bus ev w1))).
  { rewrite (poll_unfold bus w1 d1 Hp1), Hlisted.
    rewrite (readEvents_all_parse d1 [name]) with (acc := []) (w := w1);
      [|intros file [<-|[]]; now exists ev | exact Hp1].
    unfold parsed_events, jsonAt. simpl flat_map. rewrite Hl1.
    simpl. unfold bind, ret.
    destruct (processEvent bus ev w1) as [[[]|e] w']; reflexivity. }
  assert (Hin : existsb (String.eqb (agentId bus)) [] = false) by reflexivity.
  pose proof (processEvent_array bus ev [] w1 Hfresh Hin) as Hrun.
  simpl in Hrun.
  assert (Hkept : pendingAt name (fs (afterHandlers bus ev w1)) <> None).
  { apply afterHandlers_keeps; [exact Hhandlers|].
    unfold pendingAt. rewrite Hp1, Hl1. discriminate. }
  unfold pendingAt in Hkept.
  destruct (pending_files (fs (afterHandlers bus ev w1))) as [d2|] eqn:Ep2;
    [|contradiction].
  destruct (lookup name d2) as [c2|] eqn:El2; [|contradiction].
  rewrite (updatePending_writes
             (setProcessedBy (PBArray [agentId bus]) ev) _ d2 c2 Ep2 El2) in Hrun.
  subst w2. rewrite Hpoll, Hrun. simpl fst. simpl snd.
  split; [reflexivity|]. split.
  - simpl trace. unfold afterHandlers. rewrite callHandlers_outcomes. simpl.
    rewrite Htr1. now rewrite <- app_assoc.
  - unfold pendingAt. simpl. apply lookup_write_eq.
Qed.

End Delivery.

(** The hiring agent publishes into an empty directory and the worker
    polls. *)
Lemma published_record_is_delivered_witness :
  trace (snd (poll workerBus published)) =
    [Dispatch jobCreated; Invoked jobCreated 0 false; Invoked jobCreated 1 true] /\
  pendingAt "event-1001-a.json" (fs (snd (poll workerBus published))) =
    Some (Json (setProcessedBy (PBArray ["worker-1"]) jobCreated)).
Proof.
  destruct (published_record_is_delivered workerBus "fresh" 0 jobCreated
              emptyStore []) as (_ & Htr & Hp).
  - reflexivity.
  - reflexivity.
  - reflexivity.
  - reflexivity.
  - reflexivity.
  - apply workerBus_preserves.
  - split; [exact Htr | exact Hp].
Defined.

(** ** Further concrete runs *)

(** A complete record is published as it is; a record without
    [processedBy] is completed. *)
Lemma withDefaults_completes_witness :
  withDefaults "fresh" 0 jobCreated = jobCreated /\
  complete (withDefaults "fresh" 0 unmarkable).
Proof.
  destruct (withDefaults_completes "fresh" 0 jobCreated) as (_ & H1 & _).
  destruct (withDefaults_completes "fresh" 0 unmarkable) as (_ & _ & H2 & _).
  split.
  - apply H1. repeat split; try discriminate. now exists [].
  - apply H2; [discriminate|].
    split; [discriminate | intros s Hs; discriminate Hs].
Defined.

(** A root without directories, and an empty pending directory. *)
Lemma poll_nothing_listed_witness :
  poll workerBus lockedStore = (Throw ENOENT, lockedStore) /\
  poll workerBus emptyStore = (Ok tt, emptyStore).
Proof.
  split.
  - apply (proj1 (poll_nothing_listed workerBus lockedStore)). reflexivity.
  - apply (proj2 (poll_nothing_listed workerBus emptyStore) []); reflexivity.
Defined.

(** The record the hiring agent has marked is moved. *)
Lemma moveToProcessed_conserves_witness :
  let w' := snd (moveToProcessed "event-1001-a" afterHiring) in
  pendingAt "event-1001-a.json" (fs w') = None /\
  archiveAt "event-1001-a.json" (fs w') = Some (Json seenByHiring).
Proof.
  destruct (moveToProcessed_conserves "event-1001-a" afterHiring eq_refl)
    as (_ & H & _).
  apply (H (Json seenByHiring)); [reflexivity | discriminate].
Defined.

(** ** When a cycle resolves *)

(** X23 ([poll], what cannot make it reject).  With a pending directory
    in which every listed file that parses holds a record whose
    [processedBy] is an array, a cycle resolves: neither a handler that
    rejects, nor a file that does not parse, nor a missing archive
    directory, nor a record that another consumer has moved away makes
    [poll] reject. *)
Theorem poll_resolves (bus : EventBus) (w : World) (d : Dir) :
  pending_files (fs w) = Some d ->
  (forall name e,
     isEventFile name = true -> lookup name d = Some (Json e) ->
     well_formed e) ->
  fst (poll bus w) = Ok tt.
Proof.
  intros Hp Hwf. rewrite (poll_unfold bus w d Hp).
  apply processAll_well_formed.
  apply (Permutation_Forall (Permutation_sym (sort_events_perm _))).
  apply Forall_forall. intros e He.
  apply parsed_events_in in He as (file & Hf & Hl).
  apply filter_In in Hf as [_ Hf]. exact (Hwf file e Hf Hl).
Qed.

(** Unparseable text, no archive directory, and a handler that throws. *)
Lemma poll_resolves_witness :
  fst (poll workerBus (mkWorld (mkFS true true (Some withGarbage) None) []))
    = Ok tt.
Proof.
  apply (poll_resolves workerBus _ withGarbage); [reflexivity|].
  intros name e _ Hl. cbn [lookup withGarbage] in Hl.
  destruct (String.eqb name "broken.json"); [discriminate|].
  destruct (String.eqb name "event-1001-a.json"); [|discriminate].
  injection Hl as <-. now exists [].
Defined.
